(** * Dependency graph and task scheduler of the workspace

    A shallow embedding of the class [Workspace] of src/build.mjs, that is
    of its methods [buildDepGraph], [dependencyClosure], [runPackages] and
    [run], followed by the properties of the graph and of the scheduler.

    Conventions of the model:
    - a JavaScript [Set<string>] is the list of its elements in insertion
      order; an object used as a dictionary is the list of its own
      properties in creation order, and [Object.keys] enumerates array-index
      keys first, in ascending order, then the other keys in creation order;
    - property names are ordinary own properties: the name [__proto__] and
      the properties inherited from [Object.prototype] are outside the model;
    - dereferencing [undefined] is the outcome [TypeError];
    - a [while (true)] loop takes a bound on its number of iterations and
      yields [OutOfFuel] when that bound is exhausted; termination theorems
      show that a sufficient bound exists;
    - the per-package function of a command is a function [Package -> bool]
      giving what the task of each package resolves to; the order in which
      the started tasks complete is a parameter of [runPackages] (the
      schedule), chosen by the environment. *)

From Stdlib Require Import List String Ascii Bool Arith NArith Lia.
From Stdlib Require Import Permutation Relations.
Import ListNotations.
Open Scope string_scope.
Open Scope list_scope.
Open Scope nat_scope.

(** ** Outcomes of a computation *)

Inductive outcome (A : Type) : Type :=
| Ok (a : A)
| TypeError
| OutOfFuel.

Arguments Ok {A} a.
Arguments TypeError {A}.
Arguments OutOfFuel {A}.

Definition bind {A B : Type} (m : outcome A) (k : A -> outcome B) : outcome B :=
  match m with
  | Ok a => k a
  | TypeError => TypeError
  | OutOfFuel => OutOfFuel
  end.

Notation "x <- m ;; k" := (bind m (fun x => k))
  (at level 61, m at next level, right associativity).
Notation "' p <- m ;; k" := (bind m (fun p => k))
  (at level 61, p pattern, m at next level, right associativity).

(** [forEach] with a callback that may raise. *)
Fixpoint foldM {A B : Type} (f : A -> B -> outcome A) (l : list B) (a : A)
  : outcome A :=
  match l with
  | [] => Ok a
  | x :: r => a' <- f a x ;; foldM f r a'
  end.

Fixpoint mapM {A B : Type} (f : A -> outcome B) (l : list A) : outcome (list B) :=
  match l with
  | [] => Ok []
  | x :: r => y <- f x ;; ys <- mapM f r ;; Ok (y :: ys)
  end.

Fixpoint filterM {A : Type} (f : A -> outcome bool) (l : list A) : outcome (list A) :=
  match l with
  | [] => Ok []
  | x :: r => b <- f x ;; ys <- filterM f r ;; Ok (if b then x :: ys else ys)
  end.

(** ** JavaScript sets of strings *)

Module JSet.

Definition t : Type := list string.

Definition empty : t := [].

Definition has (s : t) (x : string) : bool := existsb (String.eqb x) s.

Definition add (s : t) (x : string) : t := if has s x then s else s ++ [x].

(** [xs.forEach(x => s.add(x))] *)
Definition addAll (s : t) (xs : list string) : t := fold_left add xs s.

(** [new Set(xs)] *)
Definition make (xs : list string) : t := addAll empty xs.

Definition size (s : t) : nat := List.length s.

(** [[...s]] *)
Definition elements (s : t) : list string := s.

End JSet.

(** ** JavaScript objects used as dictionaries *)

Module JObj.

Definition t (V : Type) : Type := list (string * V).

Fixpoint get {V : Type} (o : t V) (k : string) : option V :=
  match o with
  | [] => None
  | (k', v) :: r => if String.eqb k k' then Some v else get r k
  end.

(** [o[k] = v]: an existing property keeps its place. *)
Fixpoint set {V : Type} (o : t V) (k : string) (v : V) : t V :=
  match o with
  | [] => [(k, v)]
  | (k', v') :: r =>
      if String.eqb k k' then (k', v) :: r else (k', v') :: set r k v
  end.

(** [_.fromPairs(ps)] *)
Definition fromPairs {V : Type} (ps : list (string * V)) : t V :=
  fold_left (fun o p => set o (fst p) (snd p)) ps [].

Definition digit (c : ascii) : option N :=
  let n := N_of_ascii c in
  if (48 <=? n)%N && (n <=? 57)%N then Some (n - 48)%N else None.

Fixpoint decimal (acc : N) (s : string) : option N :=
  match s with
  | EmptyString => Some acc
  | String c r =>
      match digit c with
      | Some d => decimal (10 * acc + d)%N r
      | None => None
      end
  end.

(** An array index is the canonical decimal form of an integer between
    0 and 2^32 - 2. *)
Definition arrayIndex (s : string) : option N :=
  match s with
  | EmptyString => None
  | String "0"%char EmptyString => Some 0%N
  | String "0"%char _ => None
  | _ =>
      match decimal 0 s with
      | Some n => if (n <? 4294967295)%N then Some n else None
      | None => None
      end
  end.

Fixpoint insertIndex (e : N * string) (l : list (N * string)) : list (N * string) :=
  match l with
  | [] => [e]
  | e' :: r => if (fst e <=? fst e')%N then e :: l else e' :: insertIndex e r
  end.

Fixpoint indexKeys (ks : list string) : list (N * string) :=
  match ks with
  | [] => []
  | k :: r =>
      match arrayIndex k with
      | Some n => insertIndex (n, k) (indexKeys r)
      | None => indexKeys r
      end
  end.

Definition isName (k : string) : bool :=
  match arrayIndex k with Some _ => false | None => true end.

Definition ownKeys (ks : list string) : list string :=
  map snd (indexKeys ks) ++ filter isName ks.

(** [Object.keys(o)] *)
Definition keys {V : Type} (o : t V) : list string := ownKeys (map fst o).

End JObj.

(** [o[k]] used where [undefined] would raise. *)
Definition lookup {V : Type} (o : JObj.t V) (k : string) : outcome V :=
  match JObj.get o k with
  | Some v => Ok v
  | None => TypeError
  end.

(** ** Packages *)

(** The three dependency tables of a manifest, each given by its keys
    ([None] when the table is absent). *)
Record Manifest : Type := {
  dependencies : option (list string);
  devDependencies : option (list string);
  peerDependencies : option (list string)
}.

Record Package : Type := {
  name : string;
  manifest : Manifest
}.

Definition DepGraph : Type := JObj.t (list string).

Module Build.

Definition allVersionedDeps (m : Manifest) : list (option (list string)) :=
  [dependencies m; devDependencies m; peerDependencies m].

(** [allVersionedDeps.map(deps => Object.keys(deps || {})).flat()] *)
Definition declared (m : Manifest) : list string :=
  List.concat (map (fun deps => match deps with Some ks => ks | None => [] end)
              (allVersionedDeps m)).

Definition internalDeps (rootSet : JSet.t) (p : Package) : JSet.t :=
  JSet.make (filter (JSet.has rootSet) (declared (manifest p))).

(** The inner function [union]: [a] after the update, and whether it grew. *)
Definition union (a b : JSet.t) : JSet.t * bool :=
  let n := JSet.size a in
  let a' := JSet.addAll a (JSet.elements b) in
  (a', n <? JSet.size a').

(** [changed = union(depGraph[name], depGraph[dep]) || changed] *)
Definition unionInto (name : string) (st : JObj.t JSet.t * bool) (dep : string)
  : outcome (JObj.t JSet.t * bool) :=
  let (g, changed) := st in
  a <- lookup g name ;;
  b <- lookup g dep ;;
  let (a', grew) := union a b in
  Ok (JObj.set g name a', grew || changed).

(** The body of [Object.keys(depGraph).forEach]. *)
Definition closeEntry (st : JObj.t JSet.t * bool) (name : string)
  : outcome (JObj.t JSet.t * bool) :=
  deps <- lookup (fst st) name ;;
  foldM (unionInto name) (JSet.elements deps) st.

Definition pass (g : JObj.t JSet.t) : outcome (JObj.t JSet.t * bool) :=
  foldM closeEntry (JObj.keys g) (g, false).

(** The [while (true)] loop of [buildDepGraph]. *)
Fixpoint closeLoop (fuel : nat) (g : JObj.t JSet.t) : outcome (JObj.t JSet.t) :=
  match fuel with
  | O => OutOfFuel
  | S fuel' =>
      '(g', changed) <- pass g ;;
      if negb changed then Ok g' else closeLoop fuel' g'
  end.

Definition initialGraph (pkgMap : JObj.t Package) : outcome (JObj.t JSet.t) :=
  let rootSet := JSet.make (JObj.keys pkgMap) in
  pairs <- mapM (fun name =>
                   pkg <- lookup pkgMap name ;;
                   Ok (name, internalDeps rootSet pkg))
                (JSet.elements rootSet) ;;
  Ok (JObj.fromPairs pairs).

Definition buildDepGraph (fuel : nat) (pkgMap : JObj.t Package) : outcome DepGraph :=
  g0 <- initialGraph pkgMap ;;
  g <- closeLoop fuel g0 ;;
  pairs <- mapM (fun name =>
                   deps <- lookup g name ;;
                   Ok (name, JSet.elements deps))
                (JObj.keys g) ;;
  Ok (JObj.fromPairs pairs).

End Build.

(** ** Commands *)

Module Command.

Record t (W : Type) : Type := {
  run : option (Package -> bool);
  runWorkspace : option (W -> bool);
  parallel : option (unit -> bool)
}.

Arguments run {W} _.
Arguments runWorkspace {W} _.
Arguments parallel {W} _.

End Command.

(** ** Scheduler state *)

Inductive Status : Type := queued | running | finished.

Inductive PromiseState : Type := pending | resolved | rejected.

(** What an observer sees of a run, newest event first: [Start] is the
    message "Running task for:" together with the call of the per-package
    function, [Finish] is the resumption after [await]. *)
Inductive Event : Type :=
| Start (pkg : string)
| Finish (pkg : string) (success : bool).

Record Sched : Type := {
  status : JObj.t Status;
  promise : PromiseState;
  inflight : list (Package * bool);
  log : list Event
}.

Inductive await (A : Type) : Type :=
| Returned (a : A)
| Blocked.

Arguments Returned {A} a.
Arguments Blocked {A}.

Inductive RunState : Type :=
| Parallel (calls : list (Package * bool)) (result : await bool)
| Ordered (s : Sched).

Record RunResult : Type := {
  workspaceCalls : nat;
  result : await bool
}.

Module Workspace.

Record t : Type := {
  packages : list Package;
  pkgMap : JObj.t Package;
  depGraph : DepGraph
}.

(** The constructor. *)
Definition new (fuel : nat) (pkgs : list Package) : outcome t :=
  let pkgMap := JObj.fromPairs (map (fun pkg => (name pkg, pkg)) pkgs) in
  depGraph <- Build.buildDepGraph fuel pkgMap ;;
  Ok {| packages := pkgs; pkgMap := pkgMap; depGraph := depGraph |}.

(** One iteration of the loop of [dependencyClosure]. *)
Definition expand (g : DepGraph) (depsSet : JSet.t) : outcome JSet.t :=
  foldM (fun acc p => deps <- lookup g p ;; Ok (JSet.addAll acc deps))
        (JSet.elements depsSet) depsSet.

Fixpoint closureLoop (fuel : nat) (g : DepGraph) (depsSet : JSet.t)
  : outcome JSet.t :=
  match fuel with
  | O => OutOfFuel
  | S fuel' =>
      let n := JSet.size depsSet in
      depsSet' <- expand g depsSet ;;
      if JSet.size depsSet' =? n then Ok depsSet' else closureLoop fuel' g depsSet'
  end.

(** The result holds [None] where [this.pkgMap[p]] is [undefined]. *)
Definition dependencyClosure (fuel : nat) (ws : t) (roots : list Package)
  : outcome (list (option Package)) :=
  depsSet <- closureLoop fuel (depGraph ws) (JSet.make (map name roots)) ;;
  Ok (map (JObj.get (pkgMap ws)) (JSet.elements depsSet)).

(** A use of [pkg.name] or a call [cmd.run(pkg)] on each element. *)
Definition defined (pkgs : list (option Package)) : outcome (list Package) :=
  mapM (fun p => match p with Some pkg => Ok pkg | None => TypeError end) pkgs.

Definition isFinished (st : option Status) : bool :=
  match st with Some finished => true | _ => false end.

Definition canExecute (ws : t) (pkgs : list Package) (status : JObj.t Status)
  : outcome (list Package) :=
  filterM (fun pkg =>
             match JObj.get status (name pkg) with
             | Some queued =>
                 deps <- lookup (depGraph ws) (name pkg) ;;
                 Ok (forallb (fun n => isFinished (JObj.get status n)) deps)
             | _ => Ok false
             end) pkgs.

(** The callback of [canExecute().forEach] up to its [await]: the task is
    started and its continuation is left pending.  Without a per-package
    function the callback raises after the status update. *)
Definition startTask (cmd : Command.t t) (s : Sched) (pkg : Package) : Sched :=
  {| status := JObj.set (status s) (name pkg) running;
     promise := promise s;
     inflight := match Command.run cmd with
                 | Some f => inflight s ++ [(pkg, f pkg)]
                 | None => inflight s
                 end;
     log := Start (name pkg) :: log s |}.

Definition runTasks (ws : t) (cmd : Command.t t) (pkgs : list Package) (s : Sched)
  : outcome Sched :=
  ready <- canExecute ws pkgs (status s) ;;
  Ok (fold_left (startTask cmd) ready s).

Definition reject (s : Sched) : Sched :=
  {| status := status s;
     promise := match promise s with pending => rejected | p => p end;
     inflight := inflight s;
     log := log s |}.

Definition resolve (s : Sched) : Sched :=
  {| status := status s;
     promise := match promise s with pending => resolved | p => p end;
     inflight := inflight s;
     log := log s |}.

Definition allFinished (st : JObj.t Status) : bool :=
  forallb (fun k => isFinished (JObj.get st k)) (JObj.keys st).

(** The callback of [canExecute().forEach] after its [await]. *)
Definition resume (ws : t) (cmd : Command.t t) (pkgs : list Package)
           (s : Sched) (pkg : Package) (success : bool) : outcome Sched :=
  let s1 := if negb success then reject s else s in
  let s2 := {| status := JObj.set (status s1) (name pkg) finished;
               promise := promise s1;
               inflight := inflight s1;
               log := Finish (name pkg) success :: log s1 |} in
  if allFinished (status s2) then Ok (resolve s2) else runTasks ws cmd pkgs s2.

(** The first pending task of the package called [nm], and the others. *)
Fixpoint take (nm : string) (tasks : list (Package * bool))
  : option (Package * bool * list (Package * bool)) :=
  match tasks with
  | [] => None
  | t :: r =>
      if String.eqb (name (fst t)) nm then Some (t, r)
      else match take nm r with
           | Some (t', r') => Some (t', t :: r')
           | None => None
           end
  end.

(** The task of [nm] completes; nothing happens when no such task is
    pending. *)
Definition complete (ws : t) (cmd : Command.t t) (pkgs : list Package)
           (s : Sched) (nm : string) : outcome Sched :=
  match take nm (inflight s) with
  | Some ((pkg, success), rest) =>
      resume ws cmd pkgs
             {| status := status s; promise := promise s;
                inflight := rest; log := log s |}
             pkg success
  | None => Ok s
  end.

Definition initial (pkgs : list Package) : Sched :=
  {| status := JObj.fromPairs (map (fun pkg => (name pkg, queued)) pkgs);
     promise := pending;
     inflight := [];
     log := [] |}.

(** Ordered mode: the executor of the promise runs [runTasks] once, then
    the tasks complete in the order of the schedule. *)
Definition runOrdered (ws : t) (cmd : Command.t t) (pkgs : list Package)
           (schedule : list string) : outcome Sched :=
  s0 <- runTasks ws cmd pkgs (initial pkgs) ;;
  foldM (complete ws cmd pkgs) schedule s0.

(** Parallel mode: every task is started; [Promise.all] is settled once
    each of them has completed. *)
Definition runParallel (cmd : Command.t t) (pkgs : list Package)
           (schedule : list string) : outcome RunState :=
  calls <- mapM (fun pkg =>
                   match Command.run cmd with
                   | Some f => Ok (pkg, f pkg)
                   | None => TypeError
                   end) pkgs ;;
  let results := map snd calls in
  Ok (Parallel calls
        (if forallb (fun pkg => existsb (String.eqb (name pkg)) schedule) pkgs
         then Returned (forallb (fun x => x) results)
         else Blocked)).

Definition isParallel (cmd : Command.t t) : bool :=
  match Command.parallel cmd with
  | Some p => p tt
  | None => false
  end.

Definition runPackages (fuel : nat) (ws : t) (cmd : Command.t t)
           (only : option (list Package)) (schedule : list string)
  : outcome RunState :=
  let rootSet := match only with Some l => l | None => packages ws end in
  closure <- dependencyClosure fuel ws rootSet ;;
  pkgs <- defined closure ;;
  if isParallel cmd then runParallel cmd pkgs schedule
  else s <- runOrdered ws cmd pkgs schedule ;; Ok (Ordered s).

(** What [await this.runPackages(cmd, only)] yields. *)
Definition returned (st : RunState) : await bool :=
  match st with
  | Parallel _ r => r
  | Ordered s =>
      match promise s with
      | resolved => Returned true
      | rejected => Returned false
      | pending => Blocked
      end
  end.

Definition run (fuel : nat) (ws : t) (cmd : Command.t t)
           (only : option (list Package)) (schedule : list string)
  : outcome RunResult :=
  let success := true in
  r <- match Command.run cmd with
       | Some _ =>
           st <- runPackages fuel ws cmd only schedule ;;
           Ok (match returned st with
               | Returned ok => Returned (ok && success)
               | Blocked => Blocked
               end)
       | None => Ok (Returned success)
       end ;;
  match r with
  | Blocked => Ok {| workspaceCalls := 0; result := Blocked |}
  | Returned success =>
      match Command.runWorkspace cmd with
      | Some w =>
          Ok {| workspaceCalls := 1; result := Returned (w ws && success) |}
      | None => Ok {| workspaceCalls := 0; result := Returned success |}
      end
  end.

End Workspace.

(** ** Small scenarios *)

Definition pkg (n : string) (deps : list string) : Package :=
  {| name := n;
     manifest := {| dependencies := Some deps;
                    devDependencies := None;
                    peerDependencies := None |} |}.

Definition diamond : list Package :=
  [pkg "D" ["B"; "C"; "react"]; pkg "B" ["A"]; pkg "C" ["A"]; pkg "A" []].

(** * Properties *)

(** ** Outcomes *)

Lemma bind_Ok {A B : Type} (m : outcome A) (k : A -> outcome B) (b : B) :
  bind m k = Ok b -> exists a, m = Ok a /\ k a = Ok b.
Proof.
  destruct m as [a| |]; simpl; intros H; try discriminate.
  exists a; split; [reflexivity | exact H].
Qed.

Ltac inv_bind H :=
  let a := fresh "r" in
  let H1 := fresh "E" in
  apply bind_Ok in H; destruct H as (a & H1 & H).

Lemma lookup_Ok {V : Type} (o : JObj.t V) (k : string) (v : V) :
  lookup o k = Ok v <-> JObj.get o k = Some v.
Proof.
  unfold lookup; destruct (JObj.get o k); split; intros H;
    inversion H; reflexivity.
Qed.

(** ** Sets *)

Module JSetFacts.
Import JSet.

Lemma has_In (s : t) (x : string) : has s x = true <-> In x s.
Proof.
  unfold has; rewrite existsb_exists; split.
  - intros (y & Hy & E); apply String.eqb_eq in E; subst; exact Hy.
  - intros H; exists x; split; [exact H | apply String.eqb_refl].
Qed.

Lemma has_false (s : t) (x : string) : has s x = false <-> ~ In x s.
Proof.
  rewrite <- has_In; destruct (has s x); split; congruence.
Qed.

Lemma add_In (s : t) (x y : string) : In y (add s x) <-> In y s \/ y = x.
Proof.
  unfold add; destruct (has s x) eqn:E.
  - apply has_In in E; split; [tauto | intros [H | ->]; assumption].
  - rewrite in_app_iff; simpl; intuition (subst; auto).
Qed.

Lemma add_NoDup (s : t) (x : string) : NoDup s -> NoDup (add s x).
Proof.
  intros H; unfold add; destruct (has s x) eqn:E; [exact H |].
  apply has_false in E.
  apply NoDup_rev in H; rewrite <- (rev_involutive (s ++ [x])).
  apply NoDup_rev; rewrite rev_app_distr; simpl.
  constructor; [rewrite <- in_rev; exact E | exact H].
Qed.

Lemma add_extends (s : t) (x : string) : exists e, add s x = s ++ e.
Proof.
  unfold add; destruct (has s x).
  - exists []; symmetry; apply app_nil_r.
  - exists [x]; reflexivity.
Qed.

Lemma addAll_In (xs : list string) :
  forall (s : t) (y : string), In y (addAll s xs) <-> In y s \/ In y xs.
Proof.
  unfold addAll; induction xs as [|x xs IH]; simpl; intros s y.
  - tauto.
  - rewrite IH, add_In; intuition auto.
Qed.

Lemma addAll_NoDup (xs : list string) :
  forall s : t, NoDup s -> NoDup (addAll s xs).
Proof.
  unfold addAll; induction xs as [|x xs IH]; simpl; intros s H.
  - exact H.
  - apply IH, add_NoDup, H.
Qed.

Lemma addAll_extends (xs : list string) :
  forall s : t, exists e, addAll s xs = s ++ e.
Proof.
  unfold addAll; induction xs as [|x xs IH]; simpl; intros s.
  - exists []; symmetry; apply app_nil_r.
  - destruct (add_extends s x) as (e1 & E1).
    destruct (IH (add s x)) as (e2 & E2).
    exists (e1 ++ e2); rewrite E2, E1; symmetry; apply app_assoc.
Qed.

Lemma addAll_size_le (s : t) (xs : list string) : size s <= size (addAll s xs).
Proof.
  destruct (addAll_extends xs s) as (e & E); rewrite E.
  unfold size; rewrite length_app; lia.
Qed.

Lemma addAll_same_size (s : t) (xs : list string) :
  size (addAll s xs) = size s -> addAll s xs = s.
Proof.
  destruct (addAll_extends xs s) as (e & E); rewrite E.
  unfold size; rewrite length_app; intros H.
  destruct e; [apply app_nil_r | simpl in H; lia].
Qed.

Lemma make_In (xs : list string) (y : string) : In y (make xs) <-> In y xs.
Proof. unfold make; rewrite addAll_In; simpl; tauto. Qed.

Lemma make_NoDup (xs : list string) : NoDup (make xs).
Proof. apply addAll_NoDup; constructor. Qed.

End JSetFacts.

(** ** Dictionaries *)

Module JObjFacts.
Import JObj.

Section Dict.
Context {V : Type}.
Implicit Types (o : t V) (k : string) (v : V).

Let setAll o (ps : list (string * V)) : t V :=
  fold_left (fun o' p => set o' (fst p) (snd p)) ps o.

Lemma get_Some_In o k v : get o k = Some v -> In (k, v) o.
Proof.
  induction o as [|[k' v'] r IH]; simpl; [discriminate |].
  destruct (String.eqb_spec k k') as [-> | N]; intros H.
  - inversion H; subst; left; reflexivity.
  - right; apply IH, H.
Qed.

Lemma get_Some_key o k v : get o k = Some v -> In k (map fst o).
Proof.
  intros H; apply get_Some_In in H.
  apply (in_map fst) in H; exact H.
Qed.

Lemma key_get o k : In k (map fst o) -> exists v, get o k = Some v.
Proof.
  induction o as [|[k' v'] r IH]; simpl; [intros [] |].
  destruct (String.eqb_spec k k') as [-> | N]; intros H.
  - exists v'; reflexivity.
  - destruct H as [H | H]; [congruence | apply IH, H].
Qed.

Lemma NoDup_In_get o k v : NoDup (map fst o) -> In (k, v) o -> get o k = Some v.
Proof.
  induction o as [|[k' v'] r IH]; simpl; intros N H; [destruct H |].
  inversion N as [|? ? Hn Hr]; subst.
  destruct H as [H | H].
  - inversion H; subst; rewrite String.eqb_refl; reflexivity.
  - destruct (String.eqb_spec k k') as [-> | D].
    + exfalso; apply Hn; apply (in_map fst) in H; exact H.
    + apply IH; assumption.
Qed.

Lemma get_set_same o k v : get (set o k v) k = Some v.
Proof.
  induction o as [|[k' v'] r IH]; simpl.
  - rewrite String.eqb_refl; reflexivity.
  - destruct (String.eqb_spec k k') as [-> | N]; simpl.
    + rewrite String.eqb_refl; reflexivity.
    + apply String.eqb_neq in N; rewrite N; exact IH.
Qed.

Lemma get_set_other o k v k' : k' <> k -> get (set o k v) k' = get o k'.
Proof.
  intros D; induction o as [|[k0 v0] r IH]; simpl.
  - apply String.eqb_neq in D; rewrite D; reflexivity.
  - destruct (String.eqb_spec k k0) as [-> | N]; simpl.
    + apply String.eqb_neq in D; rewrite D; reflexivity.
    + rewrite IH; reflexivity.
Qed.

Lemma set_keys_In o k v k' :
  In k' (map fst (set o k v)) <-> In k' (map fst o) \/ k' = k.
Proof.
  induction o as [|[k0 v0] r IH]; simpl.
  - intuition auto.
  - destruct (String.eqb_spec k k0) as [-> | N]; simpl.
    + intuition auto.
    + rewrite IH; intuition auto.
Qed.

Lemma set_keys_present o k v :
  In k (map fst o) -> map fst (set o k v) = map fst o.
Proof.
  induction o as [|[k0 v0] r IH]; simpl; [intros [] |].
  destruct (String.eqb_spec k k0) as [-> | N]; simpl; intros H.
  - reflexivity.
  - destruct H as [H | H]; [congruence | rewrite (IH H); reflexivity].
Qed.

Lemma set_NoDup o k v : NoDup (map fst o) -> NoDup (map fst (set o k v)).
Proof.
  induction o as [|[k0 v0] r IH]; simpl; intros H.
  - constructor; [intros [] | constructor].
  - destruct (String.eqb_spec k k0) as [-> | N]; simpl; [exact H |].
    inversion H as [|? ? Hn Hr]; subst; constructor; [| apply IH, Hr].
    rewrite set_keys_In; intros [H1 | H1]; [exact (Hn H1) | congruence].
Qed.

Lemma set_get_id o k v : get o k = Some v -> set o k v = o.
Proof.
  induction o as [|[k0 v0] r IH]; simpl; [discriminate |].
  destruct (String.eqb_spec k k0) as [-> | N]; intros H.
  - inversion H; reflexivity.
  - rewrite (IH H); reflexivity.
Qed.

Lemma setAll_keys_In (ps : list (string * V)) :
  forall o k, In k (map fst (setAll o ps)) <-> In k (map fst o) \/ In k (map fst ps).
Proof.
  induction ps as [|[k0 v0] ps IH]; simpl; intros o k.
  - tauto.
  - rewrite IH, set_keys_In; intuition auto.
Qed.

Lemma setAll_NoDup (ps : list (string * V)) :
  forall o, NoDup (map fst o) -> NoDup (map fst (setAll o ps)).
Proof.
  induction ps as [|[k0 v0] ps IH]; simpl; intros o H.
  - exact H.
  - apply IH, set_NoDup, H.
Qed.

Lemma setAll_get (ps : list (string * V)) :
  forall o k v, get (setAll o ps) k = Some v -> get o k = Some v \/ In (k, v) ps.
Proof.
  induction ps as [|[k0 v0] ps IH]; simpl; intros o k v H.
  - left; exact H.
  - apply IH in H; destruct H as [H | H]; [| right; right; exact H].
    destruct (String.eqb_spec k k0) as [-> | N].
    + rewrite get_set_same in H; inversion H; right; left; reflexivity.
    + rewrite get_set_other in H by exact N; left; exact H.
Qed.

Lemma setAll_get_last (ps : list (string * V)) :
  forall o k v, NoDup (map fst ps) -> In (k, v) ps -> get (setAll o ps) k = Some v.
Proof.
  induction ps as [|[k0 v0] ps IH]; simpl; intros o k v N H; [destruct H |].
  inversion N as [|? ? Hn Hr]; subst.
  destruct H as [H | H]; [| apply IH; assumption].
  inversion H; subst.
  destruct (key_get (setAll (set o k v) ps) k) as (v' & E).
  { apply setAll_keys_In; left; apply set_keys_In; right; reflexivity. }
  rewrite E; apply setAll_get in E; destruct E as [E | E].
  - rewrite get_set_same in E; symmetry; exact E.
  - exfalso; apply Hn; apply (in_map fst) in E; exact E.
Qed.

Lemma fromPairs_keys_In (ps : list (string * V)) k :
  In k (map fst (fromPairs ps)) <-> In k (map fst ps).
Proof.
  change (fromPairs ps) with (setAll [] ps).
  rewrite setAll_keys_In; simpl; tauto.
Qed.

Lemma fromPairs_NoDup (ps : list (string * V)) : NoDup (map fst (fromPairs ps)).
Proof. apply setAll_NoDup; constructor. Qed.

Lemma fromPairs_get (ps : list (string * V)) k v :
  get (fromPairs ps) k = Some v -> In (k, v) ps.
Proof.
  intros H; apply setAll_get in H; destruct H as [H | H];
    [discriminate | exact H].
Qed.

Lemma fromPairs_get_unique (ps : list (string * V)) k v :
  NoDup (map fst ps) -> In (k, v) ps -> get (fromPairs ps) k = Some v.
Proof. apply setAll_get_last. Qed.

(** Pairs whose value is a function of the key. *)
Lemma fromPairs_tabulate (f : string -> V) (l : list string) k :
  In k l -> get (fromPairs (map (fun n => (n, f n)) l)) k = Some (f k).
Proof.
  intros H.
  destruct (key_get (fromPairs (map (fun n => (n, f n)) l)) k) as (v & E).
  { apply fromPairs_keys_In; rewrite map_map; simpl; rewrite map_id; exact H. }
  rewrite E; apply fromPairs_get, in_map_iff in E.
  destruct E as (n & E & _); inversion E; reflexivity.
Qed.

Lemma fromPairs_tabulate_keys (f : string -> V) (l : list string) k :
  In k (map fst (fromPairs (map (fun n => (n, f n)) l))) <-> In k l.
Proof.
  rewrite fromPairs_keys_In, map_map; simpl; rewrite map_id; tauto.
Qed.

End Dict.

Lemma insertIndex_perm (e : N * string) (l : list (N * string)) :
  Permutation (insertIndex e l) (e :: l).
Proof.
  induction l as [|e' r IH]; simpl; [apply Permutation_refl |].
  destruct (fst e <=? fst e')%N; [apply Permutation_refl |].
  eapply perm_trans; [apply perm_skip, IH | apply perm_swap].
Qed.

Lemma ownKeys_perm (ks : list string) : Permutation (ownKeys ks) ks.
Proof.
  unfold ownKeys; induction ks as [|k r IH]; simpl; [constructor |].
  unfold isName at 1; destruct (arrayIndex k) as [n|]; simpl.
  - eapply perm_trans;
      [apply Permutation_app_tail, Permutation_map, insertIndex_perm |].
    simpl; constructor; exact IH.
  - eapply perm_trans; [apply Permutation_sym, Permutation_middle |].
    constructor; exact IH.
Qed.

Lemma keys_In {V : Type} (o : t V) (k : string) :
  In k (keys o) <-> In k (map fst o).
Proof.
  unfold keys; split; apply Permutation_in;
    [| apply Permutation_sym]; apply ownKeys_perm.
Qed.

Lemma keys_NoDup {V : Type} (o : t V) : NoDup (map fst o) -> NoDup (keys o).
Proof.
  apply Permutation_NoDup, Permutation_sym, ownKeys_perm.
Qed.

End JObjFacts.

(** ** Lists of fallible computations *)

Lemma mapM_In {A B : Type} (f : A -> outcome B) (l : list A) :
  forall ys y, mapM f l = Ok ys -> In y ys -> exists x, In x l /\ f x = Ok y.
Proof.
  induction l as [|x r IH]; simpl; intros ys y H Hy.
  - inversion H; subst; destruct Hy.
  - inv_bind H; inv_bind H; inversion H; subst.
    destruct Hy as [-> | Hy].
    + exists x; auto.
    + destruct (IH _ _ E0 Hy) as (x' & Hx & E'); exists x'; auto.
Qed.

Lemma mapM_image {A B : Type} (f : A -> outcome B) (l : list A) :
  forall ys x, mapM f l = Ok ys -> In x l -> exists y, In y ys /\ f x = Ok y.
Proof.
  induction l as [|x0 r IH]; simpl; intros ys x H Hx; [destruct Hx |].
  inv_bind H; inv_bind H; inversion H; subst.
  destruct Hx as [-> | Hx].
  - exists r0; simpl; auto.
  - destruct (IH _ _ E0 Hx) as (y & Hy & E'); exists y; simpl; auto.
Qed.

Lemma mapM_total {A B : Type} (f : A -> outcome B) (l : list A) :
  (forall x, In x l -> exists y, f x = Ok y) -> exists ys, mapM f l = Ok ys.
Proof.
  induction l as [|x r IH]; simpl; intros H.
  - exists []; reflexivity.
  - destruct (H x (or_introl eq_refl)) as (y & E); rewrite E; simpl.
    destruct IH as (ys & E'); [intros; apply H; auto |].
    rewrite E'; simpl; exists (y :: ys); reflexivity.
Qed.

Lemma mapM_keys {A B : Type} (f : A -> outcome (A * B)) (l : list A) :
  (forall x y, f x = Ok y -> fst y = x) ->
  forall ys, mapM f l = Ok ys -> map fst ys = l.
Proof.
  intros Hf; induction l as [|x r IH]; simpl; intros ys H.
  - inversion H; reflexivity.
  - inv_bind H; inv_bind H; inversion H; subst; simpl.
    rewrite (Hf _ _ E), (IH _ E0); reflexivity.
Qed.

(** ** The dependency graph *)

(** The package registered as [a] declares, in one of its three tables, a
    dependency on [b], and [b] is the name of a workspace package. *)
Definition declares (pkgMap : JObj.t Package) (a b : string) : bool :=
  match JObj.get pkgMap a with
  | Some p =>
      existsb (String.eqb b) (Build.declared (manifest p)) &&
      existsb (String.eqb b) (map fst pkgMap)
  | None => false
  end.

Definition dependsOn (pkgMap : JObj.t Package) (a b : string) : Prop :=
  declares pkgMap a b = true.

Definition dependsTransitively (pkgMap : JObj.t Package) : string -> string -> Prop :=
  clos_trans string (dependsOn pkgMap).

Lemma dependsOn_iff (pkgMap : JObj.t Package) (a b : string) :
  dependsOn pkgMap a b <->
  exists p, JObj.get pkgMap a = Some p /\
            In b (Build.declared (manifest p)) /\
            In b (map fst pkgMap).
Proof.
  unfold dependsOn, declares; destruct (JObj.get pkgMap a) as [p|].
  - rewrite andb_true_iff.
    change (existsb (String.eqb b)) with (fun s => JSet.has s b); cbv beta.
    rewrite !JSetFacts.has_In; split.
    + intros H; exists p; tauto.
    + intros (p' & E & H); inversion E; subst; exact H.
  - split; [discriminate | intros (p & E & _); discriminate].
Qed.

Lemma dependsTransitively_member (pkgMap : JObj.t Package) (a b : string) :
  dependsTransitively pkgMap a b -> In b (map fst pkgMap).
Proof.
  induction 1 as [a b H | a c b _ _ _ IH]; [| assumption].
  apply dependsOn_iff in H; destruct H as (p & _ & _ & H); exact H.
Qed.

Lemma dependsTransitively_source (pkgMap : JObj.t Package) (a b : string) :
  dependsTransitively pkgMap a b -> In a (map fst pkgMap).
Proof.
  induction 1 as [a b H | a c b _ IH _ _]; [| assumption].
  apply dependsOn_iff in H; destruct H as (p & H & _).
  eapply JObjFacts.get_Some_key, H.
Qed.

Module BuildFacts.
Import Build.

Definition total (g : JObj.t JSet.t) : nat :=
  list_sum (map (fun e => JSet.size (snd e)) g).

(** The entry of [name] contains the entries of its members. *)
Definition closedAt (g : JObj.t JSet.t) (name : string) : Prop :=
  forall a d b, JObj.get g name = Some a -> In d a ->
                JObj.get g d = Some b -> incl b a.

Lemma total_set (g : JObj.t JSet.t) (k : string) (a a' : JSet.t) :
  JObj.get g k = Some a ->
  total (JObj.set g k a') + JSet.size a = total g + JSet.size a'.
Proof.
  unfold total; induction g as [|[k0 v0] r IH]; simpl; [discriminate |].
  destruct (String.eqb_spec k k0) as [-> | N]; simpl; intros H.
  - inversion H; subst; lia.
  - specialize (IH H); lia.
Qed.

Lemma total_le (n : nat) (g : JObj.t JSet.t) :
  (forall k s, In (k, s) g -> JSet.size s <= n) -> total g <= List.length g * n.
Proof.
  unfold total; induction g as [|[k0 v0] r IH]; simpl; intros H; [lia |].
  specialize (H k0 v0 (or_introl eq_refl)) as H0.
  assert (list_sum (map (fun e => JSet.size (snd e)) r) <= List.length r * n)
    by (apply IH; intros; eapply H; right; eassumption).
  lia.
Qed.

Section Graph.
Variable pkgMap : JObj.t Package.

Record inv (g : JObj.t JSet.t) : Prop := {
  inv_nodup : NoDup (map fst g);
  inv_keys : forall k, In k (map fst g) <-> In k (map fst pkgMap);
  inv_set_nodup : forall k s, JObj.get g k = Some s -> NoDup s;
  inv_sound : forall k s x,
      JObj.get g k = Some s -> In x s -> dependsTransitively pkgMap k x;
  inv_direct : forall k s x,
      JObj.get g k = Some s -> dependsOn pkgMap k x -> In x s
}.

Lemma inv_member (g : JObj.t JSet.t) (k x : string) (s : JSet.t) :
  inv g -> JObj.get g k = Some s -> In x s -> exists b, JObj.get g x = Some b.
Proof.
  intros I H Hx; apply JObjFacts.key_get, (inv_keys g I).
  eapply dependsTransitively_member, (inv_sound g I); eassumption.
Qed.

Lemma inv_bound (g : JObj.t JSet.t) :
  inv g -> total g <= List.length pkgMap * List.length pkgMap.
Proof.
  intros I.
  assert (L : List.length g <= List.length pkgMap).
  { rewrite <- (length_map fst g), <- (length_map fst pkgMap).
    apply NoDup_incl_length; [apply (inv_nodup g I) |].
    intros k; apply (inv_keys g I). }
  eapply Nat.le_trans; [apply (total_le (List.length pkgMap)) |].
  - intros k s H.
    assert (E : JObj.get g k = Some s)
      by (apply JObjFacts.NoDup_In_get; [apply (inv_nodup g I) | exact H]).
    unfold JSet.size; rewrite <- (length_map fst pkgMap).
    apply NoDup_incl_length; [apply (inv_set_nodup g I k s E) |].
    intros x Hx; eapply dependsTransitively_member, (inv_sound g I); eassumption.
  - apply Nat.mul_le_mono_r, L.
Qed.

(** What a stretch of a pass does to the graph [g] and to the flag
    [ch]: either nothing, and then [P] holds, or the flag is set and
    the graph has grown. *)
Definition advanced (g : JObj.t JSet.t) (ch : bool)
           (g' : JObj.t JSet.t) (c : bool) (P : Prop) : Prop :=
  inv g' /\ total g <= total g' /\
  ((g' = g /\ c = ch /\ P) \/ (c = true /\ total g < total g')).

Lemma advanced_refl (g : JObj.t JSet.t) (ch : bool) (P : Prop) :
  inv g -> P -> advanced g ch g ch P.
Proof. intros I H; split; [exact I | split; [lia | left; auto]]. Qed.

Lemma advanced_seq (g g1 g' : JObj.t JSet.t) (ch c1 c : bool) (P Q R : Prop) :
  advanced g ch g1 c1 P -> advanced g1 c1 g' c Q ->
  (g1 = g -> P -> Q -> R) -> advanced g ch g' c R.
Proof.
  intros (_ & L1 & H1) (I & L2 & H2) HR.
  split; [exact I | split; [lia |]].
  destruct H1 as [(-> & -> & HP) | (-> & T1)];
    destruct H2 as [(-> & -> & HQ) | (-> & T2)].
  - left; auto.
  - right; split; [reflexivity | lia].
  - right; split; [reflexivity | lia].
  - right; split; [reflexivity | lia].
Qed.

Lemma unionInto_advanced (name dep : string) (g : JObj.t JSet.t) (ch : bool)
      (a b : JSet.t) :
  inv g -> JObj.get g name = Some a -> JObj.get g dep = Some b -> In dep a ->
  exists g' c,
    unionInto name (g, ch) dep = Ok (g', c) /\
    advanced g ch g' c (incl b a) /\
    exists a', JObj.get g' name = Some a' /\ incl a a'.
Proof.
  intros I Ha Hb Hd.
  unfold unionInto, lookup; rewrite Ha, Hb; simpl.
  set (a' := JSet.addAll a (JSet.elements b)).
  exists (JObj.set g name a'), ((JSet.size a <? JSet.size a') || ch).
  split; [reflexivity |].
  assert (In name (map fst g)) as Hk by (eapply JObjFacts.get_Some_key, Ha).
  assert (Hsub : incl a a')
    by (intros x Hx; apply JSetFacts.addAll_In; left; exact Hx).
  pose proof (total_set g name a a' Ha) as T.
  pose proof (JSetFacts.addAll_size_le a (JSet.elements b)) as Sz.
  fold a' in Sz.
  split; [| exists a'; split; [apply JObjFacts.get_set_same | exact Hsub]].
  split; [| split; [lia |]].
  - constructor.
    + apply JObjFacts.set_NoDup, (inv_nodup g I).
    + intros k; rewrite JObjFacts.set_keys_present by exact Hk.
      apply (inv_keys g I).
    + intros k s; destruct (string_dec k name) as [-> | N].
      * rewrite JObjFacts.get_set_same; intros E; inversion E; subst.
        apply JSetFacts.addAll_NoDup, (inv_set_nodup g I name a Ha).
      * rewrite JObjFacts.get_set_other by exact N.
        apply (inv_set_nodup g I).
    + intros k s x; destruct (string_dec k name) as [-> | N].
      * rewrite JObjFacts.get_set_same; intros E Hx; inversion E; subst.
        apply JSetFacts.addAll_In in Hx; destruct Hx as [Hx | Hx].
        -- apply (inv_sound g I name a x Ha Hx).
        -- eapply t_trans;
             [apply (inv_sound g I name a dep Ha Hd)
             | apply (inv_sound g I dep b x Hb Hx)].
      * rewrite JObjFacts.get_set_other by exact N.
        apply (inv_sound g I).
    + intros k s x; destruct (string_dec k name) as [-> | N].
      * rewrite JObjFacts.get_set_same; intros E Hx; inversion E; subst.
        apply Hsub, (inv_direct g I name a x Ha Hx).
      * rewrite JObjFacts.get_set_other by exact N.
        apply (inv_direct g I).
  - destruct (Nat.ltb_spec (JSet.size a) (JSet.size a')) as [Lt | Ge].
    + right; split; [reflexivity | lia].
    + left; assert (E : a' = a)
        by (apply JSetFacts.addAll_same_size; fold a'; lia).
      rewrite E; split; [apply JObjFacts.set_get_id, Ha |].
      split; [reflexivity |].
      intros x Hx; rewrite <- E; apply JSetFacts.addAll_In; right; exact Hx.
Qed.

Lemma unionAll_advanced (name : string) (ds : list string) :
  forall (g : JObj.t JSet.t) (ch : bool) (a : JSet.t),
    inv g -> JObj.get g name = Some a -> incl ds a ->
    exists g' c,
      foldM (unionInto name) ds (g, ch) = Ok (g', c) /\
      advanced g ch g' c
        (forall d b, In d ds -> JObj.get g d = Some b -> incl b a).
Proof.
  induction ds as [|d ds IH]; cbn [foldM]; intros g ch a I Ha Hds.
  - exists g, ch; split; [reflexivity |].
    apply advanced_refl; [exact I | intros d b []].
  - assert (Hd : In d a) by (apply Hds; left; reflexivity).
    destruct (inv_member g name d a I Ha Hd) as (b & Hb).
    destruct (unionInto_advanced name d g ch a b I Ha Hb Hd)
      as (g1 & c1 & E1 & A1 & a1 & Ha1 & Sub).
    rewrite E1; cbn [bind].
    destruct (IH g1 c1 a1 (proj1 A1) Ha1) as (g' & c & E & A).
    { intros x Hx; apply Sub, Hds; right; exact Hx. }
    exists g', c; split; [exact E |].
    eapply advanced_seq; [exact A1 | exact A |].
    intros -> P Q d' b' [<- | Hd'] Hb'.
    + rewrite Hb in Hb'; inversion Hb'; subst; exact P.
    + rewrite Ha in Ha1; inversion Ha1; subst; eapply Q; eassumption.
Qed.

Lemma advanced_weaken (g g' : JObj.t JSet.t) (ch c : bool) (P Q : Prop) :
  advanced g ch g' c P -> (P -> Q) -> advanced g ch g' c Q.
Proof.
  intros (I & L & H) HQ; split; [exact I | split; [exact L |]].
  destruct H as [(E1 & E2 & HP) | H]; [left; auto | right; exact H].
Qed.

Lemma closeEntry_advanced (name : string) (g : JObj.t JSet.t) (ch : bool) :
  inv g -> In name (map fst pkgMap) ->
  exists g' c,
    closeEntry (g, ch) name = Ok (g', c) /\
    advanced g ch g' c (closedAt g name).
Proof.
  intros I Hk; apply (inv_keys g I), JObjFacts.key_get in Hk.
  destruct Hk as (a & Ha).
  unfold closeEntry, lookup; cbn [fst]; rewrite Ha; cbn [bind].
  destruct (unionAll_advanced name (JSet.elements a) g ch a I Ha)
    as (g' & c & E & A); [apply incl_refl |].
  exists g', c; split; [exact E |].
  apply (advanced_weaken _ _ _ _ _ _ A).
  intros P a' d b Ha' Hd Hb.
  rewrite Ha in Ha'; inversion Ha'; subst; eapply P; eassumption.
Qed.

Lemma closeAll_advanced (ks : list string) :
  forall (g : JObj.t JSet.t) (ch : bool),
    inv g -> incl ks (map fst pkgMap) ->
    exists g' c,
      foldM closeEntry ks (g, ch) = Ok (g', c) /\
      advanced g ch g' c (forall k, In k ks -> closedAt g k).
Proof.
  induction ks as [|k ks IH]; cbn [foldM]; intros g ch I Hks.
  - exists g, ch; split; [reflexivity |].
    apply advanced_refl; [exact I | intros k []].
  - destruct (closeEntry_advanced k g ch I) as (g1 & c1 & E1 & A1);
      [apply Hks; left; reflexivity |].
    rewrite E1; cbn [bind].
    destruct (IH g1 c1 (proj1 A1)) as (g' & c & E & A);
      [intros x Hx; apply Hks; right; exact Hx |].
    exists g', c; split; [exact E |].
    eapply advanced_seq; [exact A1 | exact A |].
    intros -> P Q k' [<- | Hk']; [exact P | apply Q, Hk'].
Qed.

Definition closed (g : JObj.t JSet.t) : Prop := forall k, closedAt g k.

Lemma pass_spec (g : JObj.t JSet.t) :
  inv g ->
  exists g' c,
    pass g = Ok (g', c) /\ inv g' /\
    ((c = false /\ g' = g /\ closed g) \/ (c = true /\ total g < total g')).
Proof.
  intros I; unfold pass.
  destruct (closeAll_advanced (JObj.keys g) g false I) as (g' & c & E & A).
  { intros k Hk; apply (inv_keys g I), JObjFacts.keys_In, Hk. }
  exists g', c; split; [exact E |].
  destruct A as (I' & _ & [(-> & -> & H) | H]); split; try exact I'.
  - left; split; [reflexivity | split; [reflexivity |]].
    intros k a d b Ha; apply (H k); [| exact Ha].
    apply JObjFacts.keys_In; eapply JObjFacts.get_Some_key, Ha.
  - right; exact H.
Qed.

Lemma closeLoop_sound (fuel : nat) :
  forall g g', inv g -> closeLoop fuel g = Ok g' -> inv g' /\ closed g'.
Proof.
  induction fuel as [|fuel IH]; cbn [closeLoop]; intros g g' I H;
    [discriminate |].
  destruct (pass_spec g I) as (g1 & c & E & I1 & Hc).
  rewrite E in H; cbn [bind] in H.
  destruct Hc as [(-> & -> & C) | (-> & _)]; cbn [negb] in H.
  - inversion H; subst; auto.
  - apply (IH g1 g' I1 H).
Qed.

Lemma closeLoop_terminates (fuel : nat) :
  forall g, inv g ->
            List.length pkgMap * List.length pkgMap < fuel + total g ->
            exists g', closeLoop fuel g = Ok g'.
Proof.
  induction fuel as [|fuel IH]; cbn [closeLoop]; intros g I B.
  - pose proof (inv_bound g I); lia.
  - destruct (pass_spec g I) as (g1 & c & E & I1 & Hc).
    rewrite E; cbn [bind].
    destruct Hc as [(-> & -> & C) | (-> & T)]; cbn [negb].
    + exists g; reflexivity.
    + apply IH; [exact I1 | lia].
Qed.

Lemma closed_complete (g : JObj.t JSet.t) (k x : string) :
  inv g -> closed g -> dependsTransitively pkgMap k x ->
  forall s, JObj.get g k = Some s -> In x s.
Proof.
  intros I C H; apply clos_trans_t1n in H.
  induction H as [k x D | k y x D _ IH]; intros s Hs.
  - apply (inv_direct g I k s x Hs D).
  - pose proof (inv_direct g I k s y Hs D) as Hy.
    destruct (inv_member g k y s I Hs Hy) as (b & Hb).
    apply (C k s y b Hs Hy Hb), IH, Hb.
Qed.

End Graph.

Lemma closeLoop_fuel (fuel : nat) :
  forall g g' fuel', closeLoop fuel g = Ok g' -> fuel <= fuel' ->
                     closeLoop fuel' g = Ok g'.
Proof.
  induction fuel as [|fuel IH]; cbn [closeLoop]; intros g g' fuel' H L;
    [discriminate |].
  destruct fuel' as [|fuel']; [lia |]; cbn [closeLoop].
  destruct (pass g) as [[g1 c]| |]; cbn [bind] in *; try discriminate.
  destruct (negb c); [exact H | apply (IH _ _ _ H); lia].
Qed.

Lemma internalDeps_In (pkgMap : JObj.t Package) (p : Package) (x : string) :
  In x (internalDeps (JSet.make (JObj.keys pkgMap)) p) <->
  In x (declared (manifest p)) /\ In x (map fst pkgMap).
Proof.
  unfold internalDeps.
  rewrite JSetFacts.make_In, filter_In, JSetFacts.has_In, JSetFacts.make_In,
    JObjFacts.keys_In.
  tauto.
Qed.

Lemma initialGraph_total (pkgMap : JObj.t Package) :
  exists g0, initialGraph pkgMap = Ok g0.
Proof.
  unfold initialGraph.
  match goal with |- context [mapM ?f ?l] => destruct (mapM_total f l) as (ps & E) end.
  - intros x Hx.
    apply JSetFacts.make_In, JObjFacts.keys_In, JObjFacts.key_get in Hx.
    destruct Hx as (p & Hp); unfold lookup; rewrite Hp; cbn [bind].
    eexists; reflexivity.
  - rewrite E; cbn [bind]; eexists; reflexivity.
Qed.

Lemma initialGraph_entry (pkgMap : JObj.t Package) (g0 : JObj.t JSet.t)
      (k : string) (s : JSet.t) :
  initialGraph pkgMap = Ok g0 -> JObj.get g0 k = Some s ->
  exists p, JObj.get pkgMap k = Some p /\
            s = internalDeps (JSet.make (JObj.keys pkgMap)) p.
Proof.
  unfold initialGraph; intros H Hs.
  inv_bind H; inversion H; subst; clear H.
  apply JObjFacts.fromPairs_get in Hs.
  destruct (mapM_In _ _ _ _ E Hs) as (n & _ & En).
  inv_bind En; apply lookup_Ok in E0; inversion En; subst.
  exists r0; auto.
Qed.

Lemma initialGraph_inv (pkgMap : JObj.t Package) (g0 : JObj.t JSet.t) :
  initialGraph pkgMap = Ok g0 -> inv pkgMap g0.
Proof.
  intros H; constructor.
  - unfold initialGraph in H; inv_bind H; inversion H.
    apply JObjFacts.fromPairs_NoDup.
  - intros k; unfold initialGraph in H; inv_bind H; inversion H; subst.
    rewrite JObjFacts.fromPairs_keys_In.
    erewrite mapM_keys; [| | exact E].
    + unfold JSet.elements; rewrite JSetFacts.make_In, JObjFacts.keys_In; tauto.
    + intros x y Hy; inv_bind Hy; inversion Hy; reflexivity.
  - intros k s Hs.
    destruct (initialGraph_entry _ _ _ _ H Hs) as (p & _ & ->).
    apply JSetFacts.make_NoDup.
  - intros k s x Hs Hx.
    destruct (initialGraph_entry _ _ _ _ H Hs) as (p & Hp & ->).
    apply internalDeps_In in Hx; apply t_step, dependsOn_iff; exists p; tauto.
  - intros k s x Hs D; apply dependsOn_iff in D; destruct D as (p' & Hp' & Hx).
    destruct (initialGraph_entry _ _ _ _ H Hs) as (p & Hp & ->).
    rewrite Hp in Hp'; inversion Hp'; subst.
    apply internalDeps_In; exact Hx.
Qed.

(** What the graph returned for [pkgMap] is. *)
Record graphOf (pkgMap : JObj.t Package) (G : DepGraph) : Prop := {
  graph_nodup : NoDup (map fst G);
  graph_keys : forall k, In k (map fst G) <-> In k (map fst pkgMap);
  graph_entry_nodup : forall k s, JObj.get G k = Some s -> NoDup s;
  graph_entry : forall k s x,
      JObj.get G k = Some s -> (In x s <-> dependsTransitively pkgMap k x)
}.

Lemma buildDepGraph_spec (fuel : nat) (pkgMap : JObj.t Package) (G : DepGraph) :
  buildDepGraph fuel pkgMap = Ok G -> graphOf pkgMap G.
Proof.
  unfold buildDepGraph; intros H.
  inv_bind H; inv_bind H; inv_bind H; inversion H; subst; clear H.
  rename r into g0, r0 into g, r1 into pairs.
  destruct (closeLoop_sound pkgMap fuel g0 g (initialGraph_inv _ _ E) E0)
    as (I & C).
  assert (K : map fst pairs = JObj.keys g).
  { eapply mapM_keys; [| exact E1].
    intros x y Hy; inv_bind Hy; inversion Hy; reflexivity. }
  assert (Hget : forall k s, JObj.get (JObj.fromPairs pairs) k = Some s ->
                             JObj.get g k = Some s).
  { intros k s Hs; apply JObjFacts.fromPairs_get in Hs.
    destruct (mapM_In _ _ _ _ E1 Hs) as (n & _ & En).
    inv_bind En; apply lookup_Ok in E2; inversion En; subst; exact E2. }
  constructor.
  - apply JObjFacts.fromPairs_NoDup.
  - intros k; rewrite JObjFacts.fromPairs_keys_In, K, JObjFacts.keys_In.
    apply (inv_keys pkgMap g I).
  - intros k s Hs; apply (inv_set_nodup pkgMap g I k s), Hget, Hs.
  - intros k s x Hs; apply Hget in Hs; split.
    + apply (inv_sound pkgMap g I k s x Hs).
    + intros D; apply (closed_complete pkgMap g k x I C D s Hs).
Qed.

Lemma buildDepGraph_total (fuel : nat) (pkgMap : JObj.t Package) :
  List.length pkgMap * List.length pkgMap < fuel ->
  exists G, buildDepGraph fuel pkgMap = Ok G.
Proof.
  intros B; unfold buildDepGraph.
  destruct (initialGraph_total pkgMap) as (g0 & E0); rewrite E0; cbn [bind].
  pose proof (initialGraph_inv _ _ E0) as I0.
  destruct (closeLoop_terminates pkgMap fuel g0 I0) as (g & E); [lia |].
  rewrite E; cbn [bind].
  destruct (closeLoop_sound pkgMap fuel g0 g I0 E) as (I & _).
  match goal with |- context [mapM ?f ?l] => destruct (mapM_total f l) as (ps & Ep) end.
  - intros x Hx; apply JObjFacts.keys_In, JObjFacts.key_get in Hx.
    destruct Hx as (s & Hs); unfold lookup; rewrite Hs; cbn [bind].
    eexists; reflexivity.
  - rewrite Ep; cbn [bind]; eexists; reflexivity.
Qed.

Lemma buildDepGraph_fuel (fuel fuel' : nat) (pkgMap : JObj.t Package) (G : DepGraph) :
  buildDepGraph fuel pkgMap = Ok G -> fuel <= fuel' ->
  buildDepGraph fuel' pkgMap = Ok G.
Proof.
  unfold buildDepGraph; intros H L.
  inv_bind H; inv_bind H; rewrite E; cbn [bind].
  rewrite (closeLoop_fuel _ _ _ _ E0 L); exact H.
Qed.

End BuildFacts.

(** ** The workspace built by the constructor *)

(** [b] is in the entry of [a]. *)
Definition member (G : DepGraph) (a b : string) : bool :=
  match JObj.get G a with
  | Some s => existsb (String.eqb b) s
  | None => false
  end.

Lemma member_iff (G : DepGraph) (a b : string) :
  member G a b = true <-> exists s, JObj.get G a = Some s /\ In b s.
Proof.
  unfold member; destruct (JObj.get G a) as [s|].
  - change (existsb (String.eqb b) s) with (JSet.has s b).
    rewrite JSetFacts.has_In; split.
    + intros H; exists s; auto.
    + intros (s' & E & H); inversion E; subst; exact H.
  - split; [discriminate | intros (s & E & _); discriminate].
Qed.

Module WorkspaceFacts.
Import Workspace.

Definition register (pkgs : list Package) : JObj.t Package :=
  JObj.fromPairs (map (fun pkg => (name pkg, pkg)) pkgs).

Lemma register_keys (pkgs : list Package) (k : string) :
  In k (map fst (register pkgs)) <-> In k (map name pkgs).
Proof.
  unfold register; rewrite JObjFacts.fromPairs_keys_In, map_map; tauto.
Qed.

Lemma register_get (pkgs : list Package) (k : string) (p : Package) :
  JObj.get (register pkgs) k = Some p -> In p pkgs /\ name p = k.
Proof.
  intros H; apply JObjFacts.fromPairs_get, in_map_iff in H.
  destruct H as (q & E & Hq); inversion E; subst; auto.
Qed.

Lemma register_unique (pkgs : list Package) (p : Package) :
  NoDup (map name pkgs) -> In p pkgs -> JObj.get (register pkgs) (name p) = Some p.
Proof.
  intros N H; apply JObjFacts.fromPairs_get_unique.
  - rewrite map_map; exact N.
  - apply (in_map (fun pkg => (name pkg, pkg))), H.
Qed.

Lemma register_length (pkgs : list Package) :
  List.length (register pkgs) <= List.length pkgs.
Proof.
  rewrite <- (length_map fst (register pkgs)), <- (length_map name pkgs).
  apply NoDup_incl_length; [apply JObjFacts.fromPairs_NoDup |].
  intros k; apply register_keys.
Qed.

Lemma new_spec (fuel : nat) (pkgs : list Package) (ws : t) :
  new fuel pkgs = Ok ws ->
  packages ws = pkgs /\ pkgMap ws = register pkgs /\
  BuildFacts.graphOf (pkgMap ws) (depGraph ws).
Proof.
  unfold new; intros H; inv_bind H; inversion H; subst; cbn.
  split; [reflexivity | split; [reflexivity |]].
  eapply BuildFacts.buildDepGraph_spec, E.
Qed.

Lemma new_graph (fuel : nat) (pkgs : list Package) (ws : t) :
  new fuel pkgs = Ok ws -> BuildFacts.graphOf (register pkgs) (depGraph ws).
Proof.
  intros H; destruct (new_spec _ _ _ H) as (_ & E & G); rewrite <- E; exact G.
Qed.

Lemma new_terminates (fuel : nat) (pkgs : list Package) :
  List.length pkgs * List.length pkgs < fuel -> exists ws, new fuel pkgs = Ok ws.
Proof.
  intros B; unfold new.
  destruct (BuildFacts.buildDepGraph_total fuel (register pkgs)) as (G & E).
  - pose proof (register_length pkgs).
    eapply Nat.le_lt_trans; [apply Nat.mul_le_mono; eassumption | exact B].
  - fold (register pkgs); rewrite E; cbn [bind]; eexists; reflexivity.
Qed.

Lemma new_fuel (fuel fuel' : nat) (pkgs : list Package) (ws : t) :
  new fuel pkgs = Ok ws -> fuel <= fuel' -> new fuel' pkgs = Ok ws.
Proof.
  unfold new; intros H L; inv_bind H.
  rewrite (BuildFacts.buildDepGraph_fuel _ _ _ _ E L); exact H.
Qed.

Lemma member_depends (fuel : nat) (pkgs : list Package) (ws : t) (a b : string) :
  new fuel pkgs = Ok ws ->
  (member (depGraph ws) a b = true <-> dependsTransitively (pkgMap ws) a b).
Proof.
  intros H; destruct (new_spec _ _ _ H) as (_ & _ & G).
  rewrite member_iff; split.
  - intros (s & Hs & Hb); apply (BuildFacts.graph_entry _ _ G a s b Hs), Hb.
  - intros D.
    destruct (JObjFacts.key_get (depGraph ws) a) as (s & Hs).
    + apply (BuildFacts.graph_keys _ _ G).
      eapply dependsTransitively_source, D.
    + exists s; split; [exact Hs |].
      apply (BuildFacts.graph_entry _ _ G a s b Hs), D.
Qed.

End WorkspaceFacts.

Definition diamondWs : Workspace.t :=
  Eval vm_compute in
    match Workspace.new 20 diamond with
    | Ok ws => ws
    | _ => {| Workspace.packages := []; Workspace.pkgMap := [];
              Workspace.depGraph := [] |}
    end.

(** C4. The graph built for a workspace is transitively closed: if [b] is in
    the entry of [a] and [c] is in the entry of [b], then [c] is in the
    entry of [a]. *)
Theorem depGraph_transitive (fuel : nat) (pkgs : list Package) (ws : Workspace.t)
        (a b c : string) :
  Workspace.new fuel pkgs = Ok ws ->
  member (Workspace.depGraph ws) a b = true ->
  member (Workspace.depGraph ws) b c = true ->
  member (Workspace.depGraph ws) a c = true.
Proof.
  intros H.
  rewrite !(WorkspaceFacts.member_depends _ _ _ _ _ H).
  apply t_trans.
Qed.

Lemma depGraph_transitive_witness :
  Workspace.new 20 diamond = Ok diamondWs /\
  member (Workspace.depGraph diamondWs) "D" "B" = true /\
  member (Workspace.depGraph diamondWs) "B" "A" = true /\
  member (Workspace.depGraph diamondWs) "D" "A" = true.
Proof.
  split; [reflexivity | split; [reflexivity | split; [reflexivity |]]].
  apply (depGraph_transitive 20 diamond diamondWs "D" "B" "A"); reflexivity.
Defined.

(** ** Dependency cycles *)

(** [x] declares the first name of [l], each name of [l] declares the next
    one, and the last one declares [z]. *)
Fixpoint chain (pkgMap : JObj.t Package) (x : string) (l : list string) (z : string)
  : bool :=
  match l with
  | [] => declares pkgMap x z
  | y :: r => declares pkgMap x y && chain pkgMap y r z
  end.

(** The names of [c], in this order and back to the first, form a cycle of
    declared dependencies between workspace packages. *)
Definition isCycle (pkgMap : JObj.t Package) (c : list string) : bool :=
  match c with
  | [] => false
  | x :: r => chain pkgMap x r x
  end.

Lemma chain_depends (pkgMap : JObj.t Package) (l : list string) :
  forall x z, chain pkgMap x l z = true ->
    dependsTransitively pkgMap x z /\
    forall y, In y l ->
      dependsTransitively pkgMap x y /\ dependsTransitively pkgMap y z.
Proof.
  induction l as [|y r IH]; cbn [chain]; intros x z H.
  - split; [apply t_step, H | intros y []].
  - apply andb_true_iff in H; destruct H as (Hxy & Hr).
    destruct (IH y z Hr) as (Hyz & Hin).
    assert (Sxy : dependsTransitively pkgMap x y) by (apply t_step, Hxy).
    split; [eapply t_trans; eassumption |].
    intros w [<- | Hw]; [split; assumption |].
    destruct (Hin w Hw) as (Hyw & Hwz).
    split; [eapply t_trans; eassumption | exact Hwz].
Qed.

Lemma cycle_depends (pkgMap : JObj.t Package) (c : list string) (x y : string) :
  isCycle pkgMap c = true -> In x c -> In y c -> dependsTransitively pkgMap x y.
Proof.
  destruct c as [|h r]; cbn [isCycle]; [discriminate |].
  intros H Hx Hy; destruct (chain_depends pkgMap r h h H) as (Hh & Hin).
  assert (Xh : dependsTransitively pkgMap x h)
    by (destruct Hx as [<- | Hx]; [exact Hh | apply (Hin x Hx)]).
  assert (Yh : dependsTransitively pkgMap h y)
    by (destruct Hy as [<- | Hy]; [exact Hh | apply (Hin y Hy)]).
  eapply t_trans; eassumption.
Qed.

Definition cyclic : list Package := [pkg "A" ["B"]; pkg "B" ["A"]; pkg "C" []].

Definition cyclicWs : Workspace.t :=
  Eval vm_compute in
    match Workspace.new 10 cyclic with
    | Ok ws => ws
    | _ => {| Workspace.packages := []; Workspace.pkgMap := [];
              Workspace.depGraph := [] |}
    end.

(** C10. The loop of [buildDepGraph] terminates on every package list,
    cyclic or not: a bound on the number of passes above the square of the
    number of packages yields a workspace, and every larger bound yields the
    same one.  On a cycle of declared dependencies the entry of every member
    of the cycle contains every member of the cycle. *)
Theorem buildDepGraph_terminates (pkgs : list Package) (fuel : nat) :
  List.length pkgs * List.length pkgs < fuel ->
  exists ws,
    Workspace.new fuel pkgs = Ok ws /\
    (forall fuel', fuel <= fuel' -> Workspace.new fuel' pkgs = Ok ws) /\
    (forall c x y,
        isCycle (Workspace.pkgMap ws) c = true -> In x c -> In y c ->
        member (Workspace.depGraph ws) x y = true).
Proof.
  intros B; destruct (WorkspaceFacts.new_terminates fuel pkgs B) as (ws & E).
  exists ws; split; [exact E | split].
  - intros fuel' L; eapply WorkspaceFacts.new_fuel; eassumption.
  - intros c x y Hc Hx Hy.
    apply (WorkspaceFacts.member_depends _ _ _ _ _ E).
    eapply cycle_depends; eassumption.
Qed.

Lemma buildDepGraph_terminates_witness :
  3 * 3 < 10 /\
  Workspace.new 10 cyclic = Ok cyclicWs /\
  Workspace.new 50 cyclic = Ok cyclicWs /\
  member (Workspace.depGraph cyclicWs) "A" "B" = true /\
  member (Workspace.depGraph cyclicWs) "B" "A" = true /\
  member (Workspace.depGraph cyclicWs) "A" "A" = true.
Proof.
  assert (B : 3 * 3 < 10) by (simpl; lia).
  split; [exact B |].
  destruct (buildDepGraph_terminates cyclic 10 B) as (ws & E & F & C).
  assert (W : ws = cyclicWs)
    by (change (Workspace.new 10 cyclic) with (Ok cyclicWs) in E;
        inversion E; reflexivity).
  subst ws; split; [exact E | split; [apply F; lia |]].
  repeat split; apply (C ["A"; "B"]); simpl; auto.
Defined.

(** ** Keys and entries of the graph *)

(** No name declared by [p] is the name of a package of [pkgs]. *)
Definition noInternalDeps (pkgs : list Package) (p : Package) : bool :=
  forallb (fun d => negb (existsb (String.eqb d) (map name pkgs)))
          (Build.declared (manifest p)).

Lemma noInternalDeps_spec (pkgs : list Package) (p : Package) (d : string) :
  noInternalDeps pkgs p = true -> In d (Build.declared (manifest p)) ->
  ~ In d (map name pkgs).
Proof.
  unfold noInternalDeps; rewrite forallb_forall; intros H Hd Hn.
  specialize (H d Hd); apply negb_true_iff in H.
  change (JSet.has (map name pkgs) d = false) in H.
  apply JSetFacts.has_false in H; exact (H Hn).
Qed.

(** C9. The keys of the graph are exactly the names of the packages of the
    workspace, each once; every package has an entry; the entry of a package
    that declares no workspace package is the empty list; and every name in
    an entry is the name of a package of the workspace, so that declared
    names outside the workspace appear in no entry. *)
Theorem depGraph_keys (fuel : nat) (pkgs : list Package) (ws : Workspace.t) :
  Workspace.new fuel pkgs = Ok ws ->
  (forall n, In n (JObj.keys (Workspace.depGraph ws)) <-> In n (map name pkgs)) /\
  NoDup (JObj.keys (Workspace.depGraph ws)) /\
  (forall p, In p pkgs ->
             exists s, JObj.get (Workspace.depGraph ws) (name p) = Some s) /\
  (forall p, JObj.get (Workspace.pkgMap ws) (name p) = Some p ->
             noInternalDeps pkgs p = true ->
             JObj.get (Workspace.depGraph ws) (name p) = Some []) /\
  (forall n d, member (Workspace.depGraph ws) n d = true -> In d (map name pkgs)).
Proof.
  intros H; pose proof (WorkspaceFacts.new_graph _ _ _ H) as G.
  destruct (WorkspaceFacts.new_spec _ _ _ H) as (_ & EM & _).
  assert (K : forall n, In n (map fst (Workspace.depGraph ws)) <->
                        In n (map name pkgs)).
  { intros n; rewrite (BuildFacts.graph_keys _ _ G).
    apply WorkspaceFacts.register_keys. }
  split; [intros n; rewrite JObjFacts.keys_In; apply K |].
  split; [apply JObjFacts.keys_NoDup, (BuildFacts.graph_nodup _ _ G) |].
  split; [intros p Hp; apply JObjFacts.key_get, K, in_map, Hp |].
  split.
  - intros p Hp Hno.
    destruct (JObjFacts.key_get (Workspace.depGraph ws) (name p)) as (s & Hs).
    { apply (BuildFacts.graph_keys _ _ G); rewrite <- EM.
      eapply JObjFacts.get_Some_key, Hp. }
    rewrite Hs; f_equal; destruct s as [|x s]; [reflexivity | exfalso].
    assert (D : dependsTransitively (WorkspaceFacts.register pkgs) (name p) x)
      by (apply (BuildFacts.graph_entry _ _ G _ _ x Hs); left; reflexivity).
    apply clos_trans_t1n in D.
    assert (F : exists y, dependsOn (WorkspaceFacts.register pkgs) (name p) y)
      by (inversion D; subst; eexists; eassumption).
    destruct F as (y & F); apply dependsOn_iff in F.
    destruct F as (q & Hq & Hy & Hk).
    rewrite <- EM, Hp in Hq; inversion Hq; subst q.
    apply (noInternalDeps_spec pkgs p y Hno Hy).
    apply WorkspaceFacts.register_keys, Hk.
  - intros n d Hm; apply member_iff in Hm; destruct Hm as (s & Hs & Hd).
    apply WorkspaceFacts.register_keys.
    eapply dependsTransitively_member, (BuildFacts.graph_entry _ _ G); eassumption.
Qed.

Lemma depGraph_keys_witness :
  Workspace.new 20 diamond = Ok diamondWs /\
  (In "A" (JObj.keys (Workspace.depGraph diamondWs)) <-> In "A" (map name diamond)) /\
  JObj.get (Workspace.depGraph diamondWs) "A" = Some [] /\
  member (Workspace.depGraph diamondWs) "D" "react" = false.
Proof.
  assert (E : Workspace.new 20 diamond = Ok diamondWs) by reflexivity.
  destruct (depGraph_keys 20 diamond diamondWs E) as (K & _ & _ & Z & M).
  split; [exact E | split; [apply K | split]].
  - apply (Z (pkg "A" [])); reflexivity.
  - destruct (member (Workspace.depGraph diamondWs) "D" "react") eqn:R;
      [| reflexivity].
    exfalso; apply M in R; simpl in R.
    repeat (destruct R as [R | R]; [discriminate R |]); exact R.
Defined.

(** ** Independence from the order of the packages *)

Lemma get_absent {V : Type} (o : JObj.t V) (k : string) :
  ~ In k (map fst o) -> JObj.get o k = None.
Proof.
  intros H; destruct (JObj.get o k) as [v|] eqn:E; [| reflexivity].
  exfalso; eapply H, JObjFacts.get_Some_key, E.
Qed.

Lemma register_perm (pkgs pkgs' : list Package) (k : string) :
  NoDup (map name pkgs) -> Permutation pkgs pkgs' ->
  JObj.get (WorkspaceFacts.register pkgs) k =
  JObj.get (WorkspaceFacts.register pkgs') k.
Proof.
  intros N P.
  assert (N' : NoDup (map name pkgs'))
    by (eapply Permutation_NoDup; [apply Permutation_map, P | exact N]).
  destruct (JObj.get (WorkspaceFacts.register pkgs) k) as [p|] eqn:E.
  - apply WorkspaceFacts.register_get in E; destruct E as (Hp & <-).
    symmetry; apply WorkspaceFacts.register_unique; [exact N' |].
    eapply Permutation_in; eassumption.
  - symmetry; apply get_absent; intros Hk.
    apply WorkspaceFacts.register_keys in Hk.
    apply (Permutation_in _ (Permutation_sym (Permutation_map name P))) in Hk.
    apply WorkspaceFacts.register_keys, JObjFacts.key_get in Hk.
    destruct Hk as (v & Hv); congruence.
Qed.

Lemma dependsTransitively_ext (M M' : JObj.t Package) (a b : string) :
  (forall k, JObj.get M k = JObj.get M' k) ->
  dependsTransitively M a b -> dependsTransitively M' a b.
Proof.
  intros E; induction 1 as [a b H | a c b _ IH1 _ IH2].
  - apply t_step, dependsOn_iff; apply dependsOn_iff in H.
    destruct H as (p & Hp & Hd & Hk); exists p.
    split; [rewrite <- E; exact Hp | split; [exact Hd |]].
    apply JObjFacts.key_get in Hk; destruct Hk as (v & Hv).
    rewrite E in Hv; eapply JObjFacts.get_Some_key, Hv.
  - eapply t_trans; eassumption.
Qed.

(** Two entries hold the same set of names, or are both absent. *)
Definition sameEntry (a b : option (list string)) : Prop :=
  match a, b with
  | Some s, Some s' => Permutation s s'
  | None, None => True
  | _, _ => False
  end.

(** Names are the keys of [pkgMap]: of two packages with the same name the
    later one of the list is registered, so that the order of such a list
    matters.  The data model requires names to be unique. *)
Lemma duplicate_names_last_wins :
  exists ws ws',
    Workspace.new 10 [pkg "A" ["B"]; pkg "A" []; pkg "B" []] = Ok ws /\
    Workspace.new 10 [pkg "A" []; pkg "A" ["B"]; pkg "B" []] = Ok ws' /\
    JObj.get (Workspace.depGraph ws) "A" = Some [] /\
    JObj.get (Workspace.depGraph ws') "A" = Some ["B"].
Proof. eexists; eexists; repeat split; reflexivity. Qed.

(** C5. Permuting a list of packages with distinct names leaves the
    association of the graph unchanged: every name has the same set of names
    as its entry, or no entry, in both graphs.  Building the graph twice from
    the same list, with whatever bounds on the number of passes, gives the
    same workspace. *)
Theorem buildDepGraph_order_independent (fuel fuel' : nat) (pkgs pkgs' : list Package)
        (ws ws' : Workspace.t) :
  Workspace.new fuel pkgs = Ok ws ->
  Workspace.new fuel' pkgs' = Ok ws' ->
  (NoDup (map name pkgs) -> Permutation pkgs pkgs' ->
   forall k, sameEntry (JObj.get (Workspace.depGraph ws) k)
                       (JObj.get (Workspace.depGraph ws') k)) /\
  (pkgs' = pkgs -> ws' = ws).
Proof.
  intros H H'; split.
  - intros N P k.
    pose proof (WorkspaceFacts.new_graph _ _ _ H) as G.
    pose proof (WorkspaceFacts.new_graph _ _ _ H') as G'.
    pose proof (fun k => register_perm pkgs pkgs' k N P) as E.
    assert (K : In k (map fst (Workspace.depGraph ws)) <->
                In k (map fst (Workspace.depGraph ws'))).
    { rewrite (BuildFacts.graph_keys _ _ G), (BuildFacts.graph_keys _ _ G').
      rewrite !WorkspaceFacts.register_keys.
      split; apply Permutation_in;
        [| apply Permutation_sym]; apply Permutation_map, P. }
    destruct (JObj.get (Workspace.depGraph ws) k) as [s|] eqn:Hs.
    + destruct (JObjFacts.key_get (Workspace.depGraph ws') k) as (s' & Hs');
        [apply K; eapply JObjFacts.get_Some_key, Hs |].
      rewrite Hs'; cbn [sameEntry]; apply NoDup_Permutation.
      * apply (BuildFacts.graph_entry_nodup _ _ G k s Hs).
      * apply (BuildFacts.graph_entry_nodup _ _ G' k s' Hs').
      * intros x; rewrite (BuildFacts.graph_entry _ _ G k s x Hs),
                    (BuildFacts.graph_entry _ _ G' k s' x Hs').
        split; apply dependsTransitively_ext; [| symmetry]; apply E.
    + rewrite get_absent; [exact I |].
      intros Hk; apply K, JObjFacts.key_get in Hk.
      destruct Hk as (v & Hv); congruence.
  - intros ->.
    apply (WorkspaceFacts.new_fuel _ (Nat.max fuel fuel')) in H;
      [| apply Nat.le_max_l].
    apply (WorkspaceFacts.new_fuel _ (Nat.max fuel fuel')) in H';
      [| apply Nat.le_max_r].
    rewrite H in H'; inversion H'; reflexivity.
Qed.

Definition diamondRevWs : Workspace.t :=
  Eval vm_compute in
    match Workspace.new 20 (rev diamond) with
    | Ok ws => ws
    | _ => {| Workspace.packages := []; Workspace.pkgMap := [];
              Workspace.depGraph := [] |}
    end.

Lemma buildDepGraph_order_independent_witness :
  Workspace.new 20 diamond = Ok diamondWs /\
  Workspace.new 20 (rev diamond) = Ok diamondRevWs /\
  sameEntry (JObj.get (Workspace.depGraph diamondWs) "D")
            (JObj.get (Workspace.depGraph diamondRevWs) "D") /\
  forall ws, Workspace.new 30 diamond = Ok ws -> ws = diamondWs.
Proof.
  assert (E : Workspace.new 20 diamond = Ok diamondWs) by reflexivity.
  assert (E' : Workspace.new 20 (rev diamond) = Ok diamondRevWs) by reflexivity.
  split; [exact E | split; [exact E' | split]].
  - apply (buildDepGraph_order_independent
             20 20 diamond (rev diamond) diamondWs diamondRevWs E E').
    + repeat (constructor; [simpl; intuition discriminate |]); constructor.
    + apply Permutation_rev.
  - intros ws H.
    apply (buildDepGraph_order_independent 20 30 diamond diamond diamondWs ws E H).
    reflexivity.
Defined.

(** ** The dependency closure of a set of roots *)

Module ClosureFacts.
Import Workspace.

(** The loop body of [expand] over the names [ps], from the set [acc]. *)
Definition expandFrom (g : DepGraph) (ps : list string) (acc : JSet.t)
  : outcome JSet.t :=
  foldM (fun acc p => deps <- lookup g p ;; Ok (JSet.addAll acc deps)) ps acc.

Lemma expandFrom_spec (g : DepGraph) (ps : list string) :
  forall acc acc',
    expandFrom g ps acc = Ok acc' ->
    (exists e, acc' = acc ++ e) /\
    (NoDup acc -> NoDup acc') /\
    (forall p, In p ps -> exists deps, JObj.get g p = Some deps /\ incl deps acc') /\
    (forall x, In x acc' -> In x acc \/ exists p, In p ps /\ member g p x = true).
Proof.
  unfold expandFrom; induction ps as [|p ps IH]; cbn [foldM]; intros acc acc' H.
  - inversion H; subst; split; [exists []; symmetry; apply app_nil_r |].
    split; [auto | split; [intros p [] | auto]].
  - inv_bind H; inv_bind E; apply lookup_Ok in E0; inversion E; subst; clear E.
    destruct (IH _ _ H) as ((e2 & Ee) & Hn & Hc & Hs).
    destruct (JSetFacts.addAll_extends r0 acc) as (e1 & E1).
    split; [exists (e1 ++ e2); rewrite Ee, E1; symmetry; apply app_assoc |].
    split; [intros N; apply Hn, JSetFacts.addAll_NoDup, N |].
    split.
    + intros p' [<- | Hp']; [| apply Hc, Hp'].
      exists r0; split; [exact E0 |].
      intros x Hx; rewrite Ee; apply in_or_app; left.
      apply JSetFacts.addAll_In; right; exact Hx.
    + intros x Hx; destruct (Hs x Hx) as [H1 | (p' & Hp' & Hm)].
      * apply JSetFacts.addAll_In in H1; destruct H1 as [H1 | H1]; [left; exact H1 |].
        right; exists p; split; [left; reflexivity |].
        apply member_iff; exists r0; auto.
      * right; exists p'; split; [right; exact Hp' | exact Hm].
Qed.

Lemma expandFrom_total (g : DepGraph) (ps : list string) :
  (forall p, In p ps -> In p (map fst g)) ->
  forall acc, exists acc', expandFrom g ps acc = Ok acc'.
Proof.
  unfold expandFrom; induction ps as [|p ps IH]; cbn [foldM]; intros Hk acc.
  - exists acc; reflexivity.
  - destruct (JObjFacts.key_get g p) as (deps & E);
      [apply Hk; left; reflexivity |].
    unfold lookup at 1; rewrite E; cbn [bind].
    apply IH; intros q Hq; apply Hk; right; exact Hq.
Qed.

(** [x] is a root or is reached from a root through entries of the graph. *)
Definition reached (g : DepGraph) (roots : list string) (x : string) : Prop :=
  In x roots \/ exists r, In r roots /\ clos_trans string (fun a b => member g a b = true) r x.

Lemma reached_step (g : DepGraph) (roots : list string) (p x : string) :
  reached g roots p -> member g p x = true -> reached g roots x.
Proof.
  intros [Hp | (r & Hr & T)] M; right.
  - exists p; split; [exact Hp | apply t_step, M].
  - exists r; split; [exact Hr |].
    eapply t_trans; [exact T | apply t_step, M].
Qed.

(** What the set computed by [closureLoop] from [roots] satisfies. *)
Record closureOf (g : DepGraph) (roots : list string) (S : JSet.t) : Prop := {
  closure_nodup : NoDup S;
  closure_roots : incl roots S;
  closure_closed : forall p, In p S ->
                    exists deps, JObj.get g p = Some deps /\ incl deps S;
  closure_reached : forall x, In x S -> reached g roots x
}.

Lemma closureLoop_spec (g : DepGraph) (roots : list string) (fuel : nat) :
  forall S S',
    NoDup S -> incl roots S -> (forall x, In x S -> reached g roots x) ->
    closureLoop fuel g S = Ok S' -> closureOf g roots S'.
Proof.
  induction fuel as [|fuel IH]; cbn [closureLoop]; intros S S' N R Hr H;
    [discriminate |].
  inv_bind H; rename r into S1.
  destruct (expandFrom_spec g _ _ _ E) as ((e & Ee) & Hn & Hc & Hs).
  assert (Hr1 : forall x, In x S1 -> reached g roots x).
  { intros x Hx; destruct (Hs x Hx) as [H1 | (p & Hp & M)]; [apply Hr, H1 |].
    eapply reached_step; [apply Hr, Hp | exact M]. }
  destruct (Nat.eqb_spec (JSet.size S1) (JSet.size S)) as [Eq | Ne].
  - inversion H; subst S'; constructor; auto.
    + intros x Hx; rewrite Ee; apply in_or_app; left; apply R, Hx.
    + intros p Hp; apply Hc.
      unfold JSet.size in Eq; rewrite Ee, length_app in Eq.
      destruct e; [| simpl in Eq; lia].
      rewrite app_nil_r in Ee; subst S1; exact Hp.
  - apply (IH S1 S'); auto.
    intros x Hx; rewrite Ee; apply in_or_app; left; apply R, Hx.
Qed.

Lemma closureLoop_total (g : DepGraph) (fuel : nat) :
  (forall k s x, JObj.get g k = Some s -> In x s -> In x (map fst g)) ->
  forall S, NoDup S -> incl S (map fst g) ->
            List.length g < fuel + List.length S ->
            exists S', closureLoop fuel g S = Ok S'.
Proof.
  intros W; induction fuel as [|fuel IH]; cbn [closureLoop]; intros S N K B.
  - pose proof (NoDup_incl_length N K) as L.
    rewrite length_map in L; lia.
  - destruct (expandFrom_total g S K S) as (S1 & E).
    change (expand g S) with (expandFrom g (JSet.elements S) S).
    unfold JSet.elements; rewrite E; cbn [bind].
    destruct (expandFrom_spec g _ _ _ E) as ((e & Ee) & Hn & Hc & Hs).
    destruct (Nat.eqb_spec (JSet.size S1) (JSet.size S)) as [Eq | Ne];
      [exists S1; reflexivity |].
    apply IH; [apply Hn, N | |].
    + intros x Hx; destruct (Hs x Hx) as [H1 | (p & Hp & M)]; [apply K, H1 |].
      apply member_iff in M; destruct M as (s & Hs' & Hx').
      eapply W; eassumption.
    + unfold JSet.size in Ne; rewrite Ee, length_app in *; lia.
Qed.

End ClosureFacts.

(** ** The packages selected by [runPackages] *)

(** What the packages [sel] selected from the roots [roots] satisfy. *)
Record selection (ws : Workspace.t) (roots sel : list Package) : Prop := {
  sel_nodup : NoDup (map name sel);
  sel_registered : forall p, In p sel ->
                    JObj.get (Workspace.pkgMap ws) (name p) = Some p;
  sel_roots : forall r, In r roots -> In (name r) (map name sel);
  sel_closed : forall p d, In p sel ->
                member (Workspace.depGraph ws) (name p) d = true ->
                In d (map name sel);
  sel_entry : forall p, In p sel ->
               exists deps, JObj.get (Workspace.depGraph ws) (name p) = Some deps;
  sel_reached : forall p, In p sel ->
                 In (name p) (map name roots) \/
                 exists r, In r roots /\
                           member (Workspace.depGraph ws) (name r) (name p) = true
}.

Lemma defined_Some (sel : list Package) : Workspace.defined (map Some sel) = Ok sel.
Proof.
  unfold Workspace.defined; induction sel as [|p sel IH]; cbn; [reflexivity |].
  cbn in IH; rewrite IH; reflexivity.
Qed.

Lemma lookup_all (M : JObj.t Package) (S : list string) :
  (forall k, In k S -> exists p, JObj.get M k = Some p /\ name p = k) ->
  exists sel, map (JObj.get M) S = map Some sel /\ map name sel = S /\
              forall p, In p sel -> JObj.get M (name p) = Some p.
Proof.
  induction S as [|k S IH]; intros H.
  - exists []; repeat split; intros p [].
  - destruct (H k (or_introl eq_refl)) as (p & Hp & Hn).
    destruct IH as (sel & E1 & E2 & E3); [intros; apply H; right; assumption |].
    exists (p :: sel); cbn; rewrite Hp, E1, E2, Hn.
    repeat split; intros q [<- | Hq]; [rewrite Hn; exact Hp | apply E3, Hq].
Qed.

Lemma member_closed (fuel : nat) (pkgs : list Package) (ws : Workspace.t) (r x : string) :
  Workspace.new fuel pkgs = Ok ws ->
  clos_trans string (fun a b => member (Workspace.depGraph ws) a b = true) r x ->
  member (Workspace.depGraph ws) r x = true.
Proof.
  intros H; induction 1 as [a b M | a c b _ IH1 _ IH2]; [exact M |].
  apply (WorkspaceFacts.member_depends _ _ _ _ _ H) in IH1, IH2.
  apply (WorkspaceFacts.member_depends _ _ _ _ _ H).
  eapply t_trans; eassumption.
Qed.

Lemma dependencyClosure_spec (fuel0 fuel : nat) (pkgs : list Package)
      (ws : Workspace.t) (roots : list Package) (cl : list (option Package)) :
  Workspace.new fuel0 pkgs = Ok ws ->
  Workspace.dependencyClosure fuel ws roots = Ok cl ->
  exists sel, cl = map Some sel /\ selection ws roots sel.
Proof.
  intros H D; unfold Workspace.dependencyClosure in D; inv_bind D.
  inversion D; subst cl; clear D; rename r into S.
  destruct (WorkspaceFacts.new_spec _ _ _ H) as (_ & EM & G).
  assert (C : ClosureFacts.closureOf (Workspace.depGraph ws) (map name roots) S).
  { eapply ClosureFacts.closureLoop_spec; [| | | exact E].
    - apply JSetFacts.make_NoDup.
    - intros x Hx; apply JSetFacts.make_In, Hx.
    - intros x Hx; left; apply JSetFacts.make_In, Hx. }
  destruct (lookup_all (Workspace.pkgMap ws) S) as (sel & E1 & E2 & E3).
  { intros k Hk.
    destruct (ClosureFacts.closure_closed _ _ _ C k Hk) as (deps & Hd & _).
    apply JObjFacts.get_Some_key, (BuildFacts.graph_keys _ _ G),
      JObjFacts.key_get in Hd.
    destruct Hd as (p & Hp); exists p; split; [exact Hp |].
    rewrite EM in Hp; apply WorkspaceFacts.register_get in Hp; tauto. }
  exists sel; split; [exact E1 |]; constructor.
  - rewrite E2; apply (ClosureFacts.closure_nodup _ _ _ C).
  - exact E3.
  - intros r Hr; rewrite E2.
    apply (ClosureFacts.closure_roots _ _ _ C), in_map, Hr.
  - intros p d Hp M; rewrite E2.
    destruct (ClosureFacts.closure_closed _ _ _ C (name p)) as (deps & Hd & Hi);
      [rewrite <- E2; apply in_map, Hp |].
    apply member_iff in M; destruct M as (s & Hs & Hx).
    rewrite Hd in Hs; inversion Hs; subst; apply Hi, Hx.
  - intros p Hp.
    destruct (ClosureFacts.closure_closed _ _ _ C (name p)) as (deps & Hd & _);
      [rewrite <- E2; apply in_map, Hp |].
    exists deps; exact Hd.
  - intros p Hp.
    destruct (ClosureFacts.closure_reached _ _ _ C (name p)) as [Hr | (r & Hr & T)];
      [rewrite <- E2; apply in_map, Hp | left; exact Hr |].
    right; apply in_map_iff in Hr; destruct Hr as (q & <- & Hq).
    exists q; split; [exact Hq | eapply member_closed; eassumption].
Qed.

Lemma dependencyClosure_total (fuel0 fuel : nat) (pkgs : list Package)
      (ws : Workspace.t) (roots : list Package) :
  Workspace.new fuel0 pkgs = Ok ws ->
  (forall r, In r roots -> In (name r) (map name pkgs)) ->
  List.length pkgs < fuel ->
  exists cl, Workspace.dependencyClosure fuel ws roots = Ok cl.
Proof.
  intros H R B; pose proof (WorkspaceFacts.new_graph _ _ _ H) as G.
  assert (K : forall k, In k (map fst (Workspace.depGraph ws)) <->
                        In k (map name pkgs)).
  { intros k; rewrite (BuildFacts.graph_keys _ _ G).
    apply WorkspaceFacts.register_keys. }
  destruct (ClosureFacts.closureLoop_total (Workspace.depGraph ws) fuel)
    with (S := JSet.make (map name roots)) as (S' & E).
  - intros k s x Hs Hx; apply (BuildFacts.graph_keys _ _ G).
    eapply dependsTransitively_member, (BuildFacts.graph_entry _ _ G); eassumption.
  - apply JSetFacts.make_NoDup.
  - intros x Hx; apply JSetFacts.make_In, in_map_iff in Hx.
    destruct Hx as (r & <- & Hr); apply K, R, Hr.
  - assert (List.length (Workspace.depGraph ws) <= List.length pkgs); [| lia].
    rewrite <- (length_map fst), <- (length_map name pkgs).
    apply NoDup_incl_length; [apply (BuildFacts.graph_nodup _ _ G) |].
    intros k; apply K.
  - unfold Workspace.dependencyClosure; rewrite E; cbn [bind].
    eexists; reflexivity.
Qed.

(** ** The scheduler of the ordered mode *)

Lemma filterM_In {A : Type} (f : A -> outcome bool) (l : list A) :
  forall ys y, filterM f l = Ok ys -> In y ys -> In y l /\ f y = Ok true.
Proof.
  induction l as [|x r IH]; cbn [filterM]; intros ys y H Hy.
  - inversion H; subst; destruct Hy.
  - inv_bind H; inv_bind H; inversion H; subst; clear H.
    destruct r0.
    + destruct Hy as [<- | Hy]; [split; [left; reflexivity | exact E] |].
      destruct (IH _ _ E0 Hy); split; [right |]; assumption.
    + destruct (IH _ _ E0 Hy); split; [right |]; assumption.
Qed.

Lemma filterM_total {A : Type} (f : A -> outcome bool) (l : list A) :
  (forall x, In x l -> exists b, f x = Ok b) -> exists ys, filterM f l = Ok ys.
Proof.
  induction l as [|x r IH]; cbn [filterM]; intros H.
  - exists []; reflexivity.
  - destruct (H x (or_introl eq_refl)) as (b & E); rewrite E; cbn [bind].
    destruct IH as (ys & E'); [intros; apply H; right; assumption |].
    rewrite E'; cbn [bind]; eexists; reflexivity.
Qed.

Lemma filterM_NoDup {A B : Type} (g : A -> B) (f : A -> outcome bool) (l : list A) :
  forall ys, filterM f l = Ok ys -> NoDup (map g l) -> NoDup (map g ys).
Proof.
  induction l as [|x r IH]; cbn [filterM map]; intros ys H N.
  - inversion H; constructor.
  - inv_bind H; inv_bind H; inversion H; subst; clear H.
    inversion N as [|? ? Hx Hr]; subst.
    destruct r0; [| apply (IH _ E0 Hr)].
    cbn [map]; constructor; [| apply (IH _ E0 Hr)].
    intros Hin; apply Hx; apply in_map_iff in Hin.
    destruct Hin as (y & Ey & Hy); rewrite <- Ey.
    apply in_map, (filterM_In _ _ _ _ E0 Hy).
Qed.

Module SchedulerFacts.
Import Workspace.

Lemma isFinished_true (st : option Status) : isFinished st = true <-> st = Some finished.
Proof.
  destruct st as [[]|]; cbn; split; intros H; try discriminate; reflexivity.
Qed.

Section Run.
Variable ws : t.
Variable cmd : Command.t t.
Variable pkgs : list Package.

(** A package that [canExecute] returns is queued and every name of its
    entry is finished. *)
Definition eligible (st : JObj.t Status) (p : Package) : Prop :=
  In p pkgs /\ JObj.get st (name p) = Some queued /\
  forall b, member (depGraph ws) (name p) b = true -> JObj.get st b = Some finished.

Lemma canExecute_eligible (st : JObj.t Status) (ready : list Package) (p : Package) :
  canExecute ws pkgs st = Ok ready -> In p ready -> eligible st p.
Proof.
  intros H Hp; destruct (filterM_In _ _ _ _ H Hp) as (Hin & E).
  split; [exact Hin |].
  destruct (JObj.get st (name p)) as [[]|]; try discriminate E.
  split; [reflexivity |].
  inv_bind E; apply lookup_Ok in E0; injection E as F.
  intros b M; apply member_iff in M; destruct M as (s & Hs & Hb).
  rewrite E0 in Hs; inversion Hs; subst s.
  rewrite forallb_forall in F; apply isFinished_true, F, Hb.
Qed.

Lemma canExecute_total (st : JObj.t Status) :
  (forall p, In p pkgs -> exists deps, JObj.get (depGraph ws) (name p) = Some deps) ->
  exists ready, canExecute ws pkgs st = Ok ready.
Proof.
  intros H; apply filterM_total; intros p Hp.
  destruct (JObj.get st (name p)) as [[]|]; try (eexists; reflexivity).
  destruct (H p Hp) as (deps & E); unfold lookup; rewrite E; cbn [bind].
  eexists; reflexivity.
Qed.

(** The state after the tasks of [ready] have been started. *)
Definition startAll (s : Sched) (ready : list Package) : Sched :=
  fold_left (startTask cmd) ready s.

Lemma startAll_promise (ready : list Package) :
  forall s, promise (startAll s ready) = promise s.
Proof.
  unfold startAll; induction ready as [|p r IH]; cbn [fold_left]; intros s;
    [reflexivity | rewrite IH; reflexivity].
Qed.

Lemma startAll_log (ready : list Package) :
  forall s, log (startAll s ready) = rev (map (fun p => Start (name p)) ready) ++ log s.
Proof.
  unfold startAll; induction ready as [|p r IH]; cbn [fold_left]; intros s;
    [reflexivity |].
  rewrite IH; cbn [startTask log map rev]; rewrite <- app_assoc; reflexivity.
Qed.

Lemma startAll_status (ready : list Package) (n : string) :
  forall s, JObj.get (status (startAll s ready)) n =
            if JSet.has (map name ready) n then Some running
            else JObj.get (status s) n.
Proof.
  unfold startAll; induction ready as [|p r IH]; cbn [fold_left]; intros s;
    [reflexivity |].
  rewrite IH; cbn [startTask status map].
  destruct (JSet.has (map name r) n) eqn:Hr.
  - replace (JSet.has (name p :: map name r) n) with true; [reflexivity |].
    symmetry; apply JSetFacts.has_In; right; apply JSetFacts.has_In, Hr.
  - destruct (string_dec n (name p)) as [-> | N].
    + rewrite JObjFacts.get_set_same.
      replace (JSet.has (name p :: map name r) (name p)) with true; [reflexivity |].
      symmetry; apply JSetFacts.has_In; left; reflexivity.
    + rewrite JObjFacts.get_set_other by exact N.
      replace (JSet.has (name p :: map name r) n) with false; [reflexivity |].
      symmetry; apply JSetFacts.has_false; intros [E | Hn]; [congruence |].
      apply JSetFacts.has_false in Hr; exact (Hr Hn).
Qed.

Lemma startAll_keys (ready : list Package) (k : string) :
  forall s, In k (map fst (status (startAll s ready))) <->
            In k (map fst (status s)) \/ In k (map name ready).
Proof.
  unfold startAll; induction ready as [|p r IH]; cbn [fold_left]; intros s.
  - cbn; tauto.
  - rewrite IH; cbn [startTask status map]; rewrite JObjFacts.set_keys_In.
    cbn [In]; intuition auto.
Qed.

Lemma startAll_inflight (ready : list Package) :
  forall s t, In t (inflight (startAll s ready)) ->
              In t (inflight s) \/
              exists f, Command.run cmd = Some f /\ In (fst t) ready /\
                        snd t = f (fst t).
Proof.
  unfold startAll; induction ready as [|p r IH]; cbn [fold_left]; intros s t H;
    [left; exact H |].
  destruct (IH _ _ H) as [H1 | (f & E & Hr & Hf)].
  - cbn [startTask inflight] in H1.
    destruct (Command.run cmd) as [f|] eqn:E; [| left; exact H1].
    apply in_app_or in H1; destruct H1 as [H1 | [<- | []]]; [left; exact H1 |].
    right; exists f; cbn; auto.
  - right; exists f; cbn; auto.
Qed.

Lemma startAll_tasks (ready : list Package) :
  forall s, inflight (startAll s ready) =
            inflight s ++ match Command.run cmd with
                          | Some f => map (fun p => (p, f p)) ready
                          | None => []
                          end.
Proof.
  unfold startAll; induction ready as [|p r IH]; cbn [fold_left]; intros s.
  - destruct (Command.run cmd); symmetry; apply app_nil_r.
  - rewrite IH; cbn [startTask inflight].
    destruct (Command.run cmd) as [f|]; [| reflexivity].
    rewrite <- app_assoc; reflexivity.
Qed.

(** The state in which the continuation of the task of [p] has recorded
    its result [ok], the tasks [rest] being still pending. *)
Definition finishing (s : Sched) (p : Package) (ok : bool)
           (rest : list (Package * bool)) : Sched :=
  {| status := JObj.set (status s) (name p) finished;
     promise := if ok then promise s
                else match promise s with pending => rejected | q => q end;
     inflight := rest;
     log := Finish (name p) ok :: log s |}.

Lemma resume_unfold (s : Sched) (p : Package) (ok : bool) (rest : list (Package * bool)) :
  resume ws cmd pkgs
         {| status := status s; promise := promise s;
            inflight := rest; log := log s |} p ok =
  if allFinished (status (finishing s p ok rest))
  then Ok (resolve (finishing s p ok rest))
  else runTasks ws cmd pkgs (finishing s p ok rest).
Proof. destruct ok; reflexivity. Qed.

Lemma take_perm (nm : string) (tasks : list (Package * bool)) :
  forall t rest, take nm tasks = Some (t, rest) -> Permutation tasks (t :: rest).
Proof.
  induction tasks as [|t0 r IH]; cbn [take]; intros t rest H; [discriminate |].
  destruct (String.eqb (name (fst t0)) nm).
  - inversion H; subst; apply Permutation_refl.
  - destruct (take nm r) as [[t1 r1]|]; [| discriminate].
    inversion H; subst.
    eapply perm_trans; [apply perm_skip, (IH _ _ eq_refl) | apply perm_swap].
Qed.

(** Induction over the states of a run in ordered mode: the initial state,
    a batch of starts, the completion of a pending task, the resolution. *)
Lemma runOrdered_induction (P : Sched -> Prop) :
  P (initial pkgs) ->
  (forall s ready, P s -> canExecute ws pkgs (status s) = Ok ready ->
                   P (startAll s ready)) ->
  (forall s p ok rest, P s -> Permutation (inflight s) ((p, ok) :: rest) ->
                       P (finishing s p ok rest)) ->
  (forall s, P s -> allFinished (status s) = true -> P (resolve s)) ->
  forall schedule s, runOrdered ws cmd pkgs schedule = Ok s -> P s.
Proof.
  intros Hinit Hstart Hfinish Hresolve schedule s H.
  assert (Hrun : forall s0 s1, P s0 -> runTasks ws cmd pkgs s0 = Ok s1 -> P s1).
  { intros s0 s1 P0 R; unfold runTasks in R; inv_bind R; inversion R; subst.
    apply (Hstart s0 r P0 E). }
  unfold runOrdered in H; inv_bind H; rename r into s0.
  pose proof (Hrun _ _ Hinit E) as P0; clear E.
  revert s0 P0 H; induction schedule as [|nm rest IH]; cbn [foldM];
    intros s0 P0 H; [inversion H; subst; exact P0 |].
  inv_bind H; apply (IH r); [| exact H].
  unfold complete in E.
  destruct (take nm (inflight s0)) as [[[p ok] others]|] eqn:T;
    [| inversion E; subst; exact P0].
  rewrite resume_unfold in E.
  pose proof (Hfinish s0 p ok others P0 (take_perm _ _ _ _ T)) as P1.
  destruct (allFinished (status (finishing s0 p ok others))) eqn:A.
  - inversion E; subst; apply Hresolve; assumption.
  - apply (Hrun _ _ P1 E).
Qed.

Lemma runOrdered_invariant (P : Sched -> Prop) :
  P (initial pkgs) ->
  (forall s ready, P s -> canExecute ws pkgs (status s) = Ok ready ->
                   P (startAll s ready)) ->
  (forall s p ok rest, P s -> In (p, ok) (inflight s) ->
                       (forall t, In t rest -> In t (inflight s)) ->
                       P (finishing s p ok rest)) ->
  (forall s, P s -> allFinished (status s) = true -> P (resolve s)) ->
  forall schedule s, runOrdered ws cmd pkgs schedule = Ok s -> P s.
Proof.
  intros Hinit Hstart Hfinish Hresolve.
  apply runOrdered_induction; try assumption.
  intros s p ok rest P0 Perm; apply Hfinish; [exact P0 | |].
  - apply (Permutation_in _ (Permutation_sym Perm)); left; reflexivity.
  - intros t Ht; apply (Permutation_in _ (Permutation_sym Perm)); right; exact Ht.
Qed.

Lemma runOrdered_total :
  (forall p, In p pkgs -> exists deps, JObj.get (depGraph ws) (name p) = Some deps) ->
  forall schedule, exists s, runOrdered ws cmd pkgs schedule = Ok s.
Proof.
  intros H schedule.
  assert (Hrun : forall s0, exists s1, runTasks ws cmd pkgs s0 = Ok s1).
  { intros s0; unfold runTasks.
    destruct (canExecute_total (status s0) H) as (ready & E).
    rewrite E; cbn [bind]; eexists; reflexivity. }
  unfold runOrdered; destruct (Hrun (initial pkgs)) as (s0 & E).
  rewrite E; cbn [bind]; clear E.
  revert s0; induction schedule as [|nm rest IH]; cbn [foldM]; intros s0;
    [exists s0; reflexivity |].
  assert (C : exists s1, complete ws cmd pkgs s0 nm = Ok s1).
  { unfold complete.
    destruct (take nm (inflight s0)) as [[[p ok] others]|];
      [| exists s0; reflexivity].
    rewrite resume_unfold.
    destruct (allFinished _); [eexists; reflexivity | apply Hrun]. }
  destruct C as (s1 & E); rewrite E; cbn [bind]; apply IH.
Qed.

End Run.
End SchedulerFacts.

Definition rootsOf (ws : Workspace.t) (only : option (list Package)) : list Package :=
  match only with
  | Some l => l
  | None => Workspace.packages ws
  end.

Lemma runPackages_ordered (fuel0 fuel : nat) (pkgs : list Package) (ws : Workspace.t)
      (cmd : Command.t Workspace.t) (only : option (list Package))
      (schedule : list string) (s : Sched) :
  Workspace.new fuel0 pkgs = Ok ws ->
  Workspace.runPackages fuel ws cmd only schedule = Ok (Ordered s) ->
  exists sel, selection ws (rootsOf ws only) sel /\
              Workspace.isParallel cmd = false /\
              Workspace.runOrdered ws cmd sel schedule = Ok s.
Proof.
  intros H R; unfold Workspace.runPackages in R; inv_bind R; inv_bind R.
  destruct (dependencyClosure_spec _ _ _ _ _ _ H E) as (sel & -> & S).
  rewrite defined_Some in E0; inversion E0; subst r0.
  exists sel; split; [exact S |].
  destruct (Workspace.isParallel cmd).
  - unfold Workspace.runParallel in R; inv_bind R; discriminate R.
  - inv_bind R; inversion R; subst; auto.
Qed.

(** ** Order of the starts *)

(** The task of [n] has completed in the log [l]. *)
Definition finishedIn (n : string) (l : list Event) : Prop :=
  exists ok, In (Finish n ok) l.

(** In the log [l], newest event first, every start comes after the
    completion of each name of the entry of the started package. *)
Fixpoint ordered (G : DepGraph) (l : list Event) : Prop :=
  match l with
  | [] => True
  | Start a :: older =>
      (forall b, member G a b = true -> finishedIn b older) /\ ordered G older
  | Finish _ _ :: older => ordered G older
  end.

Lemma finishedIn_app (n : string) (l l' : list Event) :
  finishedIn n l -> finishedIn n (l' ++ l).
Proof. intros (ok & H); exists ok; apply in_or_app; right; exact H. Qed.

Lemma ordered_split (G : DepGraph) (later earlier : list Event) (a b : string) :
  ordered G (later ++ Start a :: earlier) -> member G a b = true ->
  finishedIn b earlier.
Proof.
  induction later as [|e later IH]; cbn [app ordered].
  - intros (H & _) M; apply H, M.
  - destruct e; [intros (_ & H) | intros H]; apply IH, H.
Qed.

Lemma ordered_starts (G : DepGraph) (names : list string) :
  forall l, ordered G l ->
            (forall a b, In a names -> member G a b = true -> finishedIn b l) ->
            ordered G (rev (map Start names) ++ l).
Proof.
  induction names as [|a names IH]; cbn [map rev app]; intros l O H; [exact O |].
  rewrite <- app_assoc; cbn [app]; apply IH.
  - cbn [ordered]; split; [intros b M; apply (H a b); [left; reflexivity | exact M] |].
    exact O.
  - intros a' b Ha' M; apply (finishedIn_app b l [Start a]).
    apply (H a' b); [right; exact Ha' | exact M].
Qed.

Lemma runOrdered_ordered (ws : Workspace.t) (cmd : Command.t Workspace.t)
      (sel : list Package) (schedule : list string) (s : Sched) :
  Workspace.runOrdered ws cmd sel schedule = Ok s ->
  ordered (Workspace.depGraph ws) (log s) /\
  forall n, JObj.get (status s) n = Some finished -> finishedIn n (log s).
Proof.
  apply (SchedulerFacts.runOrdered_invariant ws cmd sel
           (fun s => ordered (Workspace.depGraph ws) (log s) /\
                     forall n, JObj.get (status s) n = Some finished ->
                               finishedIn n (log s))).
  - cbn; split; [exact I | intros n H].
    apply JObjFacts.fromPairs_get, in_map_iff in H.
    destruct H as (p & E & _); discriminate E.
  - intros s0 ready (O & F) C.
    rewrite SchedulerFacts.startAll_log, <- map_map; split.
    + apply ordered_starts; [exact O |].
      intros a b Ha M; apply in_map_iff in Ha; destruct Ha as (p & <- & Hp).
      destruct (SchedulerFacts.canExecute_eligible ws sel _ _ _ C Hp) as (_ & _ & D).
      apply F, D, M.
    + intros n Hn; rewrite SchedulerFacts.startAll_status in Hn.
      destruct (JSet.has (map name ready) n); [discriminate Hn |].
      apply finishedIn_app, F, Hn.
  - intros s0 p ok rest (O & F) _ _; cbn; split; [exact O |].
    intros n Hn; destruct (string_dec n (name p)) as [-> | N].
    + exists ok; left; reflexivity.
    + rewrite JObjFacts.get_set_other in Hn by exact N.
      destruct (F n Hn) as (ok' & H'); exists ok'; right; exact H'.
  - intros s0 P0 _; exact P0.
Qed.

Lemma runTasks_starts (ws : Workspace.t) (cmd : Command.t Workspace.t)
      (sel : list Package) (s0 s1 : Sched) (n : string) :
  Workspace.runTasks ws cmd sel s0 = Ok s1 -> In (Start n) (log s1) ->
  In (Start n) (log s0) \/
  exists p, name p = n /\ SchedulerFacts.eligible ws sel (status s0) p.
Proof.
  unfold Workspace.runTasks; intros R H; inv_bind R; inversion R; subst s1.
  change (fold_left (Workspace.startTask cmd) r s0)
    with (SchedulerFacts.startAll cmd s0 r) in H.
  rewrite SchedulerFacts.startAll_log in H; apply in_app_or in H.
  destruct H as [H | H]; [right | left; exact H].
  apply in_rev, in_map_iff in H; destruct H as (p & Ep & Hp).
  inversion Ep; subst n; exists p; split; [reflexivity |].
  eapply SchedulerFacts.canExecute_eligible; eassumption.
Qed.

(** C1. In ordered mode, whenever the task of [a] is started and [a]
    depends on [b], directly or through other packages, the task of [b] has
    completed, and [b] has been marked finished, before that start.  A call
    of [runTasks] starts only packages that are queued and whose entry in the
    graph holds only names with status finished. *)
Theorem ordered_mode_respects_dependencies
        (fuel0 fuel : nat) (pkgs : list Package) (ws : Workspace.t)
        (cmd : Command.t Workspace.t) (only : option (list Package))
        (schedule : list string) (s : Sched) :
  Workspace.new fuel0 pkgs = Ok ws ->
  Workspace.runPackages fuel ws cmd only schedule = Ok (Ordered s) ->
  (forall a b later earlier,
      dependsTransitively (Workspace.pkgMap ws) a b ->
      log s = later ++ Start a :: earlier ->
      exists ok, In (Finish b ok) earlier) /\
  (forall sel s0 s1 n,
      Workspace.runTasks ws cmd sel s0 = Ok s1 ->
      In (Start n) (log s1) -> ~ In (Start n) (log s0) ->
      JObj.get (status s0) n = Some queued /\
      forall b, member (Workspace.depGraph ws) n b = true ->
                JObj.get (status s0) b = Some finished).
Proof.
  intros H R; split.
  - intros a b later earlier D L.
    destruct (runPackages_ordered _ _ _ _ _ _ _ _ H R) as (sel & _ & _ & O).
    apply runOrdered_ordered in O; destruct O as (O & _).
    rewrite L in O; eapply ordered_split; [exact O |].
    apply (WorkspaceFacts.member_depends _ _ _ _ _ H), D.
  - intros sel s0 s1 n T Hn Hnot.
    destruct (runTasks_starts _ _ _ _ _ _ T Hn) as [H0 | (p & <- & _ & Q & D)];
      [contradiction | auto].
Qed.

Definition succeeding : Command.t Workspace.t :=
  {| Command.run := Some (fun _ => true);
     Command.runWorkspace := None;
     Command.parallel := None |}.

Definition diamondRun : Sched :=
  Eval vm_compute in
    match Workspace.runPackages 20 diamondWs succeeding None ["A"; "C"; "B"; "D"] with
    | Ok (Ordered s) => s
    | _ => Workspace.initial []
    end.

Lemma ordered_mode_respects_dependencies_witness :
  Workspace.new 20 diamond = Ok diamondWs /\
  Workspace.runPackages 20 diamondWs succeeding None ["A"; "C"; "B"; "D"]
  = Ok (Ordered diamondRun) /\
  log diamondRun
  = [Finish "D" true] ++
    Start "D" :: [Finish "B" true; Finish "C" true; Start "C"; Start "B";
                  Finish "A" true; Start "A"] /\
  exists ok, In (Finish "A" ok)
                [Finish "B" true; Finish "C" true; Start "C"; Start "B";
                 Finish "A" true; Start "A"].
Proof.
  assert (E : Workspace.new 20 diamond = Ok diamondWs) by reflexivity.
  assert (R : Workspace.runPackages 20 diamondWs succeeding None ["A"; "C"; "B"; "D"]
              = Ok (Ordered diamondRun)) by reflexivity.
  split; [exact E | split; [exact R | split; [reflexivity |]]].
  destruct (ordered_mode_respects_dependencies
              20 20 diamond diamondWs succeeding None _ diamondRun E R) as (O & _).
  apply (O "D" "A" [Finish "D" true]); [| reflexivity].
  apply t_trans with "B"; apply t_step; reflexivity.
Defined.

(** ** Packages on a cycle *)

Lemma initial_status (sel : list Package) (n : string) :
  In n (map name sel) ->
  JObj.get (status (Workspace.initial sel)) n = Some queued.
Proof.
  intros H; cbn [Workspace.initial status].
  destruct (JObjFacts.key_get
              (JObj.fromPairs (map (fun p => (name p, queued)) sel)) n) as (v & E).
  { apply JObjFacts.fromPairs_keys_In; rewrite map_map; exact H. }
  rewrite E; apply JObjFacts.fromPairs_get, in_map_iff in E.
  destruct E as (p & E & _); inversion E; reflexivity.
Qed.

Lemma allFinished_queued (st : JObj.t Status) (a : string) :
  JObj.get st a = Some queued -> Workspace.allFinished st = false.
Proof.
  intros H; destruct (Workspace.allFinished st) eqn:A; [| reflexivity].
  unfold Workspace.allFinished in A; rewrite forallb_forall in A.
  specialize (A a); rewrite H in A; symmetry; apply A.
  apply JObjFacts.keys_In; eapply JObjFacts.get_Some_key, H.
Qed.

Lemma runOrdered_stalled (ws : Workspace.t) (cmd : Command.t Workspace.t)
      (sel : list Package) (a : string) (schedule : list string) (s : Sched) :
  In a (map name sel) -> member (Workspace.depGraph ws) a a = true ->
  Workspace.runOrdered ws cmd sel schedule = Ok s ->
  JObj.get (status s) a = Some queued /\ promise s <> resolved /\
  ~ In (Start a) (log s) /\ forall t, In t (inflight s) -> name (fst t) <> a.
Proof.
  intros Ha M.
  assert (Hready : forall st ready p,
             JObj.get st a = Some queued ->
             Workspace.canExecute ws sel st = Ok ready -> In p ready -> name p <> a).
  { intros st ready p Q C Hp E.
    destruct (SchedulerFacts.canExecute_eligible ws sel _ _ _ C Hp) as (_ & _ & D).
    rewrite E in D; specialize (D a M); congruence. }
  apply (SchedulerFacts.runOrdered_invariant ws cmd sel
           (fun s => JObj.get (status s) a = Some queued /\ promise s <> resolved /\
                     ~ In (Start a) (log s) /\
                     forall t, In t (inflight s) -> name (fst t) <> a)).
  - split; [apply initial_status, Ha |].
    cbn; split; [discriminate | split; [tauto | intros t []]].
  - intros s0 ready (Q & P & L & F) C.
    assert (N : ~ In a (map name ready)).
    { intros Hn; apply in_map_iff in Hn; destruct Hn as (p & E & Hp).
      exact (Hready _ _ _ Q C Hp E). }
    split; [| split; [| split]].
    + rewrite SchedulerFacts.startAll_status.
      apply JSetFacts.has_false in N; rewrite N; exact Q.
    + rewrite SchedulerFacts.startAll_promise; exact P.
    + rewrite SchedulerFacts.startAll_log; intros H; apply in_app_or in H.
      destruct H as [H | H]; [| exact (L H)].
      apply in_rev, in_map_iff in H; destruct H as (p & E & Hp).
      inversion E as [E']; exact (Hready _ _ _ Q C Hp E').
    + intros t Ht; apply SchedulerFacts.startAll_inflight in Ht.
      destruct Ht as [Ht | (f & _ & Hr & _)]; [apply F, Ht |].
      exact (Hready _ _ _ Q C Hr).
  - intros s0 p ok rest (Q & P & L & F) Hin Hsub; cbn.
    pose proof (F _ Hin) as N; cbn in N.
    split; [rewrite JObjFacts.get_set_other by congruence; exact Q |].
    split; [destruct ok; [exact P |]; destruct (promise s0); congruence |].
    split; [intros [H | H]; [discriminate H | exact (L H)] |].
    intros t Ht; apply F, Hsub, Ht.
  - intros s0 (Q & _) A; rewrite (allFinished_queued _ _ Q) in A; discriminate A.
Qed.

Lemma runOrdered_rejected (ws : Workspace.t) (cmd : Command.t Workspace.t)
      (sel : list Package) (schedule : list string) (s : Sched) :
  Workspace.runOrdered ws cmd sel schedule = Ok s ->
  (forall t, In t (inflight s) ->
             exists f, Command.run cmd = Some f /\ snd t = f (fst t)) /\
  (promise s = rejected ->
   exists p f, Command.run cmd = Some f /\ f p = false /\
               In (Finish (name p) false) (log s)).
Proof.
  apply (SchedulerFacts.runOrdered_invariant ws cmd sel
           (fun s => (forall t, In t (inflight s) ->
                                exists f, Command.run cmd = Some f /\ snd t = f (fst t)) /\
                     (promise s = rejected ->
                      exists p f, Command.run cmd = Some f /\ f p = false /\
                                  In (Finish (name p) false) (log s)))).
  - cbn; split; [intros t [] | discriminate].
  - intros s0 ready (F & R) _; split.
    + intros t Ht; apply SchedulerFacts.startAll_inflight in Ht.
      destruct Ht as [Ht | (f & E & _ & Hf)]; [apply F, Ht | exists f; auto].
    + rewrite SchedulerFacts.startAll_promise, SchedulerFacts.startAll_log.
      intros H; destruct (R H) as (p & f & E & Hf & Hl).
      exists p, f; split; [exact E | split; [exact Hf |]].
      apply in_or_app; right; exact Hl.
  - intros s0 p ok rest (F & R) Hin Hsub; cbn; split.
    + intros t Ht; apply F, Hsub, Ht.
    + destruct ok.
      * intros H; destruct (R H) as (q & f & E & Hf & Hl).
        exists q, f; auto.
      * intros _; destruct (F _ Hin) as (f & E & Hf); cbn in Hf.
        exists p, f; auto.
  - intros s0 (F & R) _; split; [exact F |].
    cbn; intros H; apply R; destruct (promise s0); congruence.
Qed.

Lemma runOrdered_selected (ws : Workspace.t) (cmd : Command.t Workspace.t)
      (sel : list Package) (schedule : list string) (s : Sched) :
  Workspace.runOrdered ws cmd sel schedule = Ok s ->
  (forall k, In k (map fst (status s)) <-> In k (map name sel)) /\
  (forall n, In (Start n) (log s) -> In n (map name sel)) /\
  (forall t, In t (inflight s) -> In (fst t) sel).
Proof.
  apply (SchedulerFacts.runOrdered_invariant ws cmd sel
           (fun s => (forall k, In k (map fst (status s)) <-> In k (map name sel)) /\
                     (forall n, In (Start n) (log s) -> In n (map name sel)) /\
                     (forall t, In t (inflight s) -> In (fst t) sel))).
  - cbn [Workspace.initial status log inflight]; split; [| split].
    + intros k; rewrite JObjFacts.fromPairs_keys_In, map_map; tauto.
    + intros n [].
    + intros t [].
  - intros s0 ready (K & L & F) C.
    assert (Hr : forall p, In p ready -> In p sel)
      by (intros p Hp; apply (SchedulerFacts.canExecute_eligible ws sel _ _ _ C Hp)).
    split; [| split].
    + intros k; rewrite SchedulerFacts.startAll_keys, K; split; [| tauto].
      intros [H | H]; [exact H |].
      apply in_map_iff in H; destruct H as (p & <- & Hp); apply in_map, Hr, Hp.
    + intros n; rewrite SchedulerFacts.startAll_log; intros H.
      apply in_app_or in H; destruct H as [H | H]; [| apply L, H].
      apply in_rev, in_map_iff in H; destruct H as (p & E & Hp).
      inversion E; subst n; apply in_map, Hr, Hp.
    + intros t Ht; apply SchedulerFacts.startAll_inflight in Ht.
      destruct Ht as [Ht | (f & _ & Ht & _)]; [apply F, Ht | apply Hr, Ht].
  - intros s0 p ok rest (K & L & F) Hin Hsub; cbn; split; [| split].
    + intros k; rewrite JObjFacts.set_keys_In, K; split; [| tauto].
      intros [H | ->]; [exact H | apply in_map, (F _ Hin)].
    + intros n [H | H]; [discriminate H | apply L, H].
    + intros t Ht; apply F, Hsub, Ht.
  - intros s0 P0 _; exact P0.
Qed.

Lemma runOrdered_started (ws : Workspace.t) (cmd : Command.t Workspace.t)
      (sel : list Package) (schedule : list string) (s : Sched) :
  Workspace.runOrdered ws cmd sel schedule = Ok s ->
  (forall n ok, In (Finish n ok) (log s) -> In (Start n) (log s)) /\
  (forall t, In t (inflight s) -> In (Start (name (fst t))) (log s)).
Proof.
  apply (SchedulerFacts.runOrdered_invariant ws cmd sel
           (fun s => (forall n ok, In (Finish n ok) (log s) -> In (Start n) (log s)) /\
                     (forall t, In t (inflight s) ->
                                In (Start (name (fst t))) (log s)))).
  - cbn; split; [intros n ok [] | intros t []].
  - intros s0 ready (L & F) _; rewrite SchedulerFacts.startAll_log; split.
    + intros n ok H; apply in_or_app; right; apply (L n ok).
      apply in_app_or in H; destruct H as [H | H]; [| exact H].
      apply in_rev, in_map_iff in H; destruct H as (p & E & _); discriminate E.
    + intros t Ht; apply in_or_app.
      apply SchedulerFacts.startAll_inflight in Ht.
      destruct Ht as [Ht | (f & _ & Ht & _)]; [right; apply F, Ht | left].
      rewrite <- in_rev; apply (in_map (fun p => Start (name p))), Ht.
  - intros s0 p ok rest (L & F) Hin Hsub; cbn; split.
    + intros n ok' [H | H]; right; [| apply (L n ok'), H].
      inversion H; subst n; apply (F _ Hin).
    + intros t Ht; right; apply F, Hsub, Ht.
  - intros s0 P0 _; exact P0.
Qed.

Lemma runPackages_total (fuel0 fuel : nat) (pkgs : list Package) (ws : Workspace.t)
      (cmd : Command.t Workspace.t) (only : option (list Package))
      (schedule : list string) :
  Workspace.new fuel0 pkgs = Ok ws ->
  List.length pkgs < fuel ->
  (forall p, In p (rootsOf ws only) -> In (name p) (map name pkgs)) ->
  Workspace.isParallel cmd = false ->
  exists sel s,
    selection ws (rootsOf ws only) sel /\
    Workspace.runOrdered ws cmd sel schedule = Ok s /\
    Workspace.runPackages fuel ws cmd only schedule = Ok (Ordered s).
Proof.
  intros H B R P.
  destruct (dependencyClosure_total _ _ _ _ _ H R B) as (cl & E).
  destruct (dependencyClosure_spec _ _ _ _ _ _ H E) as (sel & -> & S).
  destruct (SchedulerFacts.runOrdered_total ws cmd sel (sel_entry _ _ _ S) schedule)
    as (s & O).
  exists sel, s; split; [exact S | split; [exact O |]].
  unfold Workspace.runPackages; fold (rootsOf ws only).
  rewrite E; cbn [bind]; rewrite defined_Some; cbn [bind].
  rewrite P, O; reflexivity.
Qed.

Definition mutual : list Package := [pkg "A" ["B"]; pkg "B" ["A"]].

Definition mutualWs : Workspace.t :=
  Eval vm_compute in
    match Workspace.new 10 mutual with
    | Ok ws => ws
    | _ => {| Workspace.packages := []; Workspace.pkgMap := [];
              Workspace.depGraph := [] |}
    end.

(** Every task reports failure. *)
Definition failing : Command.t Workspace.t :=
  {| Command.run := Some (fun _ => false);
     Command.runWorkspace := None;
     Command.parallel := None |}.

(** C7. When a selected package lies on a cycle of declared dependencies,
    then in ordered mode, whatever the order in which tasks complete, no
    member of the cycle is ever started (each remains queued), the promise
    of [runPackages] is never resolved, and it is rejected only when a
    started task has reported failure.  When no task reports failure, or
    when the roots and everything they depend on are members of the cycle
    (so that nothing is ever started), [runPackages] never returns. *)
Theorem cyclic_dependency_stalls
        (fuel0 fuel : nat) (pkgs : list Package) (ws : Workspace.t)
        (cmd : Command.t Workspace.t) (only : option (list Package))
        (c : list string) (r : Package) :
  Workspace.new fuel0 pkgs = Ok ws ->
  List.length pkgs < fuel ->
  (forall p, In p (rootsOf ws only) -> In (name p) (map name pkgs)) ->
  Workspace.isParallel cmd = false ->
  isCycle (Workspace.pkgMap ws) c = true ->
  In r (rootsOf ws only) -> In (name r) c ->
  forall schedule, exists s,
    Workspace.runPackages fuel ws cmd only schedule = Ok (Ordered s) /\
    (forall x, In x c ->
               JObj.get (status s) x = Some queued /\ ~ In (Start x) (log s)) /\
    promise s <> resolved /\
    Workspace.returned (Ordered s) <> Returned true /\
    (promise s = rejected ->
     exists p f, Command.run cmd = Some f /\ f p = false /\
                 In (Finish (name p) false) (log s)) /\
    (forall f, Command.run cmd = Some f -> (forall p, f p = true) ->
               Workspace.returned (Ordered s) = Blocked) /\
    ((forall p, In p (rootsOf ws only) -> In (name p) c) ->
     (forall p x, In p (rootsOf ws only) ->
                  dependsTransitively (Workspace.pkgMap ws) (name p) x -> In x c) ->
     log s = [] /\ Workspace.returned (Ordered s) = Blocked).
Proof.
  intros H B R P C Hr Hc schedule.
  destruct (runPackages_total _ _ _ _ _ only schedule H B R P)
    as (sel & s & S & O & E).
  exists s; split; [exact E |].
  assert (Hin : forall x, In x c -> In x (map name sel) /\
                          member (Workspace.depGraph ws) x x = true).
  { intros x Hx; split.
    - pose proof (sel_roots _ _ _ S r Hr) as Hn.
      apply in_map_iff in Hn; destruct Hn as (q & Eq & Hq).
      apply (sel_closed _ _ _ S q x Hq); rewrite Eq.
      apply (WorkspaceFacts.member_depends _ _ _ _ _ H).
      eapply cycle_depends; eassumption.
    - apply (WorkspaceFacts.member_depends _ _ _ _ _ H).
      eapply cycle_depends; eassumption. }
  assert (Pn : promise s <> resolved).
  { destruct (Hin (name r) Hc) as (Hs & Hm).
    apply (runOrdered_stalled _ _ _ _ _ _ Hs Hm O). }
  destruct (runOrdered_rejected _ _ _ _ _ O) as (_ & Rj).
  assert (St : forall x, In x c ->
                         JObj.get (status s) x = Some queued /\
                         ~ In (Start x) (log s)).
  { intros x Hx; destruct (Hin x Hx) as (Hs & Hm).
    destruct (runOrdered_stalled _ _ _ _ _ _ Hs Hm O) as (Q & _ & L & _); auto. }
  split; [exact St | split; [exact Pn | split; [| split; [exact Rj | split]]]].
  - cbn; destruct (promise s); congruence.
  - intros f Ef Hf; cbn; destruct (promise s) eqn:Ep; [reflexivity | congruence |].
    destruct (Rj eq_refl) as (p & f' & Ef' & Hf' & _).
    rewrite Ef in Ef'; inversion Ef'; subst f'; rewrite Hf in Hf'; discriminate Hf'.
  - intros Hroots Hdeps.
    destruct (runOrdered_selected _ _ _ _ _ O) as (_ & Lsel & _).
    destruct (runOrdered_started _ _ _ _ _ O) as (Lfin & _).
    assert (Hsel : forall n, In n (map name sel) -> In n c).
    { intros n Hn; apply in_map_iff in Hn; destruct Hn as (q & <- & Hq).
      destruct (sel_reached _ _ _ S q Hq) as [Hq' | (p & Hp & M)].
      - apply in_map_iff in Hq'; destruct Hq' as (p & <- & Hp).
        apply Hroots, Hp.
      - apply (Hdeps p _ Hp), (WorkspaceFacts.member_depends _ _ _ _ _ H), M. }
    assert (Nostart : forall n, ~ In (Start n) (log s))
      by (intros n Hn; apply (St n); [apply Hsel, Lsel, Hn | exact Hn]).
    split.
    + destruct (log s) as [|[n | n ok] l] eqn:El; [reflexivity | |].
      * exfalso; apply (Nostart n); left; reflexivity.
      * exfalso; apply (Nostart n), (Lfin n ok); left; reflexivity.
    + cbn; destruct (promise s) eqn:Ep; [reflexivity | congruence |].
      destruct (Rj eq_refl) as (p & f & _ & _ & Hl).
      exfalso; exact (Nostart _ (Lfin _ _ Hl)).
Qed.

Lemma cyclic_dependency_stalls_witness :
  Workspace.new 10 mutual = Ok mutualWs /\
  isCycle (Workspace.pkgMap mutualWs) ["A"; "B"] = true /\
  exists s,
    Workspace.runPackages 10 mutualWs failing None ["A"; "B"] = Ok (Ordered s) /\
    JObj.get (status s) "A" = Some queued /\
    JObj.get (status s) "B" = Some queued /\
    log s = [] /\
    Workspace.returned (Ordered s) = Blocked.
Proof.
  assert (E : Workspace.new 10 mutual = Ok mutualWs) by reflexivity.
  assert (B : List.length mutual < 10) by (simpl; lia).
  assert (R : forall p, In p (rootsOf mutualWs None) -> In (name p) (map name mutual))
    by (intros p Hp; apply in_map, Hp).
  assert (N : In (pkg "A" ["B"]) (rootsOf mutualWs None)) by (left; reflexivity).
  assert (M : In (name (pkg "A" ["B"])) ["A"; "B"]) by (left; reflexivity).
  split; [exact E | split; [reflexivity |]].
  destruct (cyclic_dependency_stalls
              10 10 mutual mutualWs failing None ["A"; "B"] (pkg "A" ["B"])
              E B R eq_refl eq_refl N M ["A"; "B"])
    as (s & Es & Q & _ & _ & _ & _ & Z).
  exists s; split; [exact Es | split; [| split]].
  - apply (Q "A"); left; reflexivity.
  - apply (Q "B"); right; left; reflexivity.
  - apply Z.
    + intros p Hp; apply (in_map name) in Hp; exact Hp.
    + intros p x _ D; apply dependsTransitively_member in D; exact D.
Defined.

(** ** Failure of a task *)

Definition chainAB : list Package := [pkg "A" []; pkg "B" ["A"]].

(** The task of [A] reports failure, every other task succeeds; the
    workspace-level function succeeds. *)
Definition failingA : Command.t Workspace.t :=
  {| Command.run := Some (fun p => negb (String.eqb (name p) "A"));
     Command.runWorkspace := Some (fun _ => true);
     Command.parallel := None |}.

Definition chainWs : Workspace.t :=
  Eval vm_compute in
    match Workspace.new 10 chainAB with
    | Ok ws => ws
    | _ => {| Workspace.packages := []; Workspace.pkgMap := [];
              Workspace.depGraph := [] |}
    end.

Lemma allFinished_get (st : JObj.t Status) (a : string) (v : Status) :
  Workspace.allFinished st = true -> JObj.get st a = Some v -> v = finished.
Proof.
  unfold Workspace.allFinished; rewrite forallb_forall; intros A H.
  specialize (A a); rewrite H in A.
  assert (F : Workspace.isFinished (Some v) = true)
    by (apply A, JObjFacts.keys_In; eapply JObjFacts.get_Some_key, H).
  apply SchedulerFacts.isFinished_true in F; inversion F; reflexivity.
Qed.

(** The pending tasks are those of the running packages, and a failure
    that has been reported has rejected the promise. *)
Lemma runOrdered_failure (ws : Workspace.t) (cmd : Command.t Workspace.t)
      (sel : list Package) (schedule : list string) (s : Sched) :
  NoDup (map name sel) ->
  Workspace.runOrdered ws cmd sel schedule = Ok s ->
  (forall t, In t (inflight s) ->
             JObj.get (status s) (name (fst t)) = Some running) /\
  NoDup (map (fun t => name (fst t)) (inflight s)) /\
  (promise s = resolved -> Workspace.allFinished (status s) = true) /\
  (forall n, In (Finish n false) (log s) -> promise s = rejected).
Proof.
  intros N.
  apply (SchedulerFacts.runOrdered_induction ws cmd sel
           (fun s => (forall t, In t (inflight s) ->
                                JObj.get (status s) (name (fst t)) = Some running) /\
                     NoDup (map (fun t => name (fst t)) (inflight s)) /\
                     (promise s = resolved ->
                      Workspace.allFinished (status s) = true) /\
                     (forall n, In (Finish n false) (log s) ->
                                promise s = rejected))).
  - cbn; split; [intros t [] | split; [constructor | split]];
      [discriminate | intros n []].
  - intros s0 ready (J1 & J4 & J2 & J3) C.
    assert (Q : forall p, In p ready -> JObj.get (status s0) (name p) = Some queued)
      by (intros p Hp; apply (SchedulerFacts.canExecute_eligible ws sel _ _ _ C Hp)).
    assert (Tn : map (fun t : Package * bool => name (fst t))
                     match Command.run cmd with
                     | Some f => map (fun p => (p, f p)) ready
                     | None => []
                     end
                 = match Command.run cmd with
                   | Some _ => map name ready
                   | None => []
                   end)
      by (destruct (Command.run cmd); [rewrite map_map |]; reflexivity).
    split; [| split; [| split]].
    + intros t Ht; rewrite SchedulerFacts.startAll_status.
      destruct (JSet.has (map name ready) (name (fst t))) eqn:Hh; [reflexivity |].
      rewrite SchedulerFacts.startAll_tasks in Ht; apply in_app_or in Ht.
      destruct Ht as [Ht | Ht]; [apply J1, Ht | exfalso].
      apply JSetFacts.has_false in Hh; apply Hh.
      destruct (Command.run cmd); [| destruct Ht].
      apply in_map_iff in Ht; destruct Ht as (p & <- & Hp); apply in_map, Hp.
    + rewrite SchedulerFacts.startAll_tasks, map_app, Tn.
      apply NoDup_app; [exact J4 | |].
      * destruct (Command.run cmd); [| constructor].
        apply (filterM_NoDup name _ _ _ C N).
      * intros n Hn Hn'; apply in_map_iff in Hn; destruct Hn as (t & <- & Ht).
        destruct (Command.run cmd); [| destruct Hn'].
        apply in_map_iff in Hn'; destruct Hn' as (p & Ep & Hp).
        pose proof (J1 t Ht) as R; rewrite <- Ep, (Q p Hp) in R; discriminate R.
    + rewrite SchedulerFacts.startAll_promise; intros Pr.
      destruct ready as [|p ready]; [apply J2, Pr | exfalso].
      pose proof (allFinished_get _ _ _ (J2 Pr) (Q p (or_introl eq_refl))) as F.
      discriminate F.
    + intros n; rewrite SchedulerFacts.startAll_promise, SchedulerFacts.startAll_log.
      intros H; apply J3 with n; apply in_app_or in H.
      destruct H as [H | H]; [| exact H].
      apply in_rev, in_map_iff in H; destruct H as (p & E & _); discriminate E.
  - intros s0 p ok rest (J1 & J4 & J2 & J3) Perm.
    assert (Hin : In (p, ok) (inflight s0))
      by (apply (Permutation_in _ (Permutation_sym Perm)); left; reflexivity).
    assert (Hsub : forall t, In t rest -> In t (inflight s0))
      by (intros t Ht; apply (Permutation_in _ (Permutation_sym Perm));
          right; exact Ht).
    pose proof (Permutation_NoDup
                  (Permutation_map (fun t : Package * bool => name (fst t)) Perm) J4)
      as N'.
    cbn [map fst] in N'; inversion N' as [|? ? Hp Hr]; subst.
    assert (Pn : promise s0 <> resolved).
    { intros Pr; pose proof (allFinished_get _ _ _ (J2 Pr) (J1 _ Hin)) as F.
      discriminate F. }
    cbn; split; [| split; [exact Hr | split]].
    + intros t Ht; rewrite JObjFacts.get_set_other; [apply J1, Hsub, Ht |].
      intros E; apply Hp; rewrite <- E.
      apply (in_map (fun t : Package * bool => name (fst t))), Ht.
    + destruct ok; [intros Pr; contradiction |].
      destruct (promise s0); congruence.
    + intros n [H | H].
      * inversion H; subst; destruct (promise s0); congruence.
      * rewrite (J3 n H); destruct ok; reflexivity.
  - intros s0 (J1 & J4 & J2 & J3) A; cbn; split; [exact J1 | split; [exact J4 |]].
    split; [intros _; exact A |].
    intros n H; rewrite (J3 n H); reflexivity.
Qed.

(** A reported failure makes [runPackages] return failure. *)
Lemma failure_returns_false (fuel0 fuel : nat) (pkgs : list Package)
      (ws : Workspace.t) (cmd : Command.t Workspace.t)
      (only : option (list Package)) (schedule : list string) (s : Sched)
      (n : string) :
  Workspace.new fuel0 pkgs = Ok ws ->
  Workspace.runPackages fuel ws cmd only schedule = Ok (Ordered s) ->
  In (Finish n false) (log s) ->
  Workspace.returned (Ordered s) = Returned false.
Proof.
  intros H R F.
  destruct (runPackages_ordered _ _ _ _ _ _ _ _ H R) as (sel & S & _ & O).
  destruct (runOrdered_failure _ _ _ _ _ (sel_nodup _ _ _ S) O) as (_ & _ & _ & J).
  cbn; rewrite (J n F); reflexivity.
Qed.

(** C2. With [B] depending on [A] and the task of [A] reporting failure,
    the run is rejected, and the continuation of [A] then marks [A] finished
    and starts [B]: a package whose dependency failed is started after the
    failure has been observed. *)
Theorem dependent_started_after_failure :
  exists s,
    Workspace.new 10 chainAB = Ok chainWs /\
    dependsOn (Workspace.pkgMap chainWs) "B" "A" /\
    Workspace.runPackages 10 chainWs failingA None ["A"] = Ok (Ordered s) /\
    rev (log s) = [Start "A"; Finish "A" false; Start "B"] /\
    JObj.get (status s) "A" = Some finished /\
    JObj.get (status s) "B" = Some running /\
    Workspace.returned (Ordered s) = Returned false.
Proof.
  eexists; repeat split; reflexivity.
Qed.

(** ** The workspace-level function *)

(** The workspace-level function is called although the per-package
    execution has returned failure. *)
Lemma runWorkspace_called_after_failure :
  exists st r,
    Workspace.runPackages 10 chainWs failingA None ["A"] = Ok st /\
    Workspace.returned st = Returned false /\
    Workspace.run 10 chainWs failingA None ["A"] = Ok r /\
    workspaceCalls r = 1 /\
    result r = Returned false.
Proof.
  eexists; eexists; repeat split; reflexivity.
Qed.

(** C3, amended. For a command with a workspace-level function [w],
    [Workspace.run] calls [w] exactly once as soon as the per-package
    execution has returned, whether it returned success or failure, and at
    once when the command has no per-package function; the result is the
    conjunction of the two results.  While [runPackages] has not returned,
    [w] is not called. *)
Theorem run_calls_runWorkspace_once
        (fuel : nat) (ws : Workspace.t) (cmd : Command.t Workspace.t)
        (only : option (list Package)) (schedule : list string)
        (w : Workspace.t -> bool) (r : RunResult) :
  Command.runWorkspace cmd = Some w ->
  Workspace.run fuel ws cmd only schedule = Ok r ->
  match Command.run cmd with
  | None => workspaceCalls r = 1 /\ result r = Returned (w ws)
  | Some _ =>
      exists st,
        Workspace.runPackages fuel ws cmd only schedule = Ok st /\
        match Workspace.returned st with
        | Returned ok => workspaceCalls r = 1 /\ result r = Returned (w ws && ok)
        | Blocked => workspaceCalls r = 0 /\ result r = Blocked
        end
  end.
Proof.
  unfold Workspace.run; intros W H; rewrite W in H.
  destruct (Command.run cmd) as [f|].
  - inv_bind H; inv_bind E; exists r1; split; [exact E0 |].
    inversion E; subst r0; clear E.
    destruct (Workspace.returned r1) as [ok|]; inversion H; subst r; cbn.
    + rewrite andb_true_r; auto.
    + auto.
  - cbn in H; inversion H; subst r; cbn; rewrite andb_true_r; auto.
Qed.

Lemma run_calls_runWorkspace_once_witness :
  Command.runWorkspace failingA = Some (fun _ => true) /\
  Workspace.run 10 chainWs failingA None ["A"]
  = Ok {| workspaceCalls := 1; result := Returned false |} /\
  exists st,
    Workspace.runPackages 10 chainWs failingA None ["A"] = Ok st /\
    match Workspace.returned st with
    | Returned ok => 1 = 1 /\ Returned false = Returned (true && ok)
    | Blocked => 1 = 0 /\ Returned false = Blocked
    end.
Proof.
  split; [reflexivity | split; [reflexivity |]].
  exact (run_calls_runWorkspace_once
           10 chainWs failingA None ["A"] (fun _ => true)
           {| workspaceCalls := 1; result := Returned false |}
           eq_refl eq_refl).
Defined.

(** ** Parallel mode *)

Lemma forallb_map_id {A : Type} (f : A -> bool) (l : list A) :
  forallb (fun x => x) (map f l) = forallb f l.
Proof.
  induction l as [|x l IH]; cbn; [reflexivity | rewrite IH; reflexivity].
Qed.

Lemma runParallel_calls (cmd : Command.t Workspace.t) (f : Package -> bool)
      (sel : list Package) :
  Command.run cmd = Some f ->
  mapM (fun p => match Command.run cmd with
                 | Some f => Ok (p, f p)
                 | None => TypeError
                 end) sel
  = Ok (map (fun p => (p, f p)) sel).
Proof.
  intros E; rewrite E; induction sel as [|p sel IH]; cbn; [reflexivity |].
  cbn in IH; rewrite IH; reflexivity.
Qed.

Definition unrelated : list Package := [pkg "A" []; pkg "B" []].

Definition unrelatedWs : Workspace.t :=
  Eval vm_compute in
    match Workspace.new 10 unrelated with
    | Ok ws => ws
    | _ => {| Workspace.packages := []; Workspace.pkgMap := [];
              Workspace.depGraph := [] |}
    end.

(** A command in parallel mode whose task succeeds for [A] only. *)
Definition parallelA : Command.t Workspace.t :=
  {| Command.run := Some (fun p => String.eqb (name p) "A");
     Command.runWorkspace := None;
     Command.parallel := Some (fun _ => true) |}.

(** C8. In parallel mode [runPackages] calls the per-package function on
    every package of the closure, in one go and whatever the graph says; it
    returns once every one of these tasks has completed, in whatever order,
    and not before; what it returns is the conjunction of the results. *)
Theorem parallel_mode_conjunction
        (fuel0 fuel : nat) (pkgs : list Package) (ws : Workspace.t)
        (cmd : Command.t Workspace.t) (f : Package -> bool)
        (only : option (list Package)) (schedule : list string) :
  Workspace.new fuel0 pkgs = Ok ws ->
  List.length pkgs < fuel ->
  (forall p, In p (rootsOf ws only) -> In (name p) (map name pkgs)) ->
  Workspace.isParallel cmd = true ->
  Command.run cmd = Some f ->
  exists sel res,
    Workspace.dependencyClosure fuel ws (rootsOf ws only) = Ok (map Some sel) /\
    Workspace.runPackages fuel ws cmd only schedule
    = Ok (Parallel (map (fun p => (p, f p)) sel) res) /\
    ((forall p, In p sel -> In (name p) schedule) ->
     res = Returned (forallb f sel)) /\
    ((exists p, In p sel /\ ~ In (name p) schedule) -> res = Blocked).
Proof.
  intros H B R P F.
  destruct (dependencyClosure_total _ _ _ _ _ H R B) as (cl & E).
  destruct (dependencyClosure_spec _ _ _ _ _ _ H E) as (sel & -> & S).
  exists sel; eexists; split; [exact E |].
  unfold Workspace.runPackages; fold (rootsOf ws only).
  rewrite E; cbn [bind]; rewrite defined_Some; cbn [bind]; rewrite P.
  unfold Workspace.runParallel; rewrite (runParallel_calls cmd f sel F); cbn [bind].
  split; [reflexivity |].
  rewrite map_map; cbn [snd]; rewrite forallb_map_id.
  split.
  - intros A.
    replace (forallb _ sel) with true; [reflexivity |].
    symmetry; apply forallb_forall; intros p Hp.
    apply (JSetFacts.has_In schedule (name p)), A, Hp.
  - intros (p & Hp & N).
    replace (forallb (fun pkg => existsb (String.eqb (name pkg)) schedule) sel)
      with false; [reflexivity |].
    symmetry; apply not_true_is_false; intros A.
    rewrite forallb_forall in A; specialize (A p Hp).
    apply N, (JSetFacts.has_In schedule (name p)), A.
Qed.

Lemma parallel_mode_conjunction_witness :
  Workspace.new 10 unrelated = Ok unrelatedWs /\
  Workspace.runPackages 10 unrelatedWs parallelA None ["B"; "A"]
  = Ok (Parallel [(pkg "A" [], true); (pkg "B" [], false)] (Returned false)) /\
  Workspace.runPackages 10 unrelatedWs parallelA None ["B"]
  = Ok (Parallel [(pkg "A" [], true); (pkg "B" [], false)] Blocked).
Proof.
  assert (E : Workspace.new 10 unrelated = Ok unrelatedWs) by reflexivity.
  assert (B : List.length unrelated < 10) by (simpl; lia).
  assert (R : forall p, In p (rootsOf unrelatedWs None) ->
                        In (name p) (map name unrelated))
    by (intros p Hp; apply in_map, Hp).
  assert (Sel : forall sel,
             Workspace.dependencyClosure 10 unrelatedWs (rootsOf unrelatedWs None)
             = Ok (map Some sel) -> sel = unrelated).
  { intros sel C.
    change (Workspace.dependencyClosure 10 unrelatedWs (rootsOf unrelatedWs None))
      with (Ok (map Some unrelated)) in C.
    injection C as C; apply (f_equal Workspace.defined) in C.
    rewrite !defined_Some in C; injection C as <-; reflexivity. }
  split; [exact E | split].
  - destruct (parallel_mode_conjunction
                10 10 unrelated unrelatedWs parallelA _ None ["B"; "A"]
                E B R eq_refl eq_refl) as (sel & res & C & P & A & _).
    apply Sel in C; subst sel; rewrite P, A; [reflexivity |].
    intros p [<- | [<- | []]]; simpl; auto.
  - destruct (parallel_mode_conjunction
                10 10 unrelated unrelatedWs parallelA _ None ["B"]
                E B R eq_refl eq_refl) as (sel & res & C & P & _ & N).
    apply Sel in C; subst sel; rewrite P, N; [reflexivity |].
    exists (pkg "A" []); split; [left; reflexivity |].
    intros [H | []]; discriminate H.
Defined.

(** ** The closure is what [runPackages] runs *)

(** C6. For a set of roots taken among the packages of the workspace,
    [dependencyClosure] returns packages of the workspace that include, by
    name, every root (the roots themselves when names are distinct) and
    every package a root depends on, directly or through other packages.
    [runPackages] runs over exactly these packages: in parallel mode it
    calls the per-package function on each of them, in ordered mode its
    status table has their names as keys and it starts no other package. *)
Theorem dependencyClosure_superset
        (fuel0 fuel : nat) (pkgs : list Package) (ws : Workspace.t)
        (cmd : Command.t Workspace.t) (only : option (list Package))
        (schedule : list string) :
  Workspace.new fuel0 pkgs = Ok ws ->
  List.length pkgs < fuel ->
  incl (rootsOf ws only) pkgs ->
  exists sel,
    Workspace.dependencyClosure fuel ws (rootsOf ws only) = Ok (map Some sel) /\
    incl sel pkgs /\
    (forall r, In r (rootsOf ws only) -> In (name r) (map name sel)) /\
    (NoDup (map name pkgs) -> incl (rootsOf ws only) sel) /\
    (forall r d, In r (rootsOf ws only) ->
                 dependsTransitively (Workspace.pkgMap ws) (name r) d ->
                 In d (map name sel)) /\
    Workspace.runPackages fuel ws cmd only schedule
    = (if Workspace.isParallel cmd then Workspace.runParallel cmd sel schedule
       else s <- Workspace.runOrdered ws cmd sel schedule ;; Ok (Ordered s)) /\
    (forall calls res,
        Workspace.runPackages fuel ws cmd only schedule = Ok (Parallel calls res) ->
        map fst calls = sel) /\
    (forall s,
        Workspace.runPackages fuel ws cmd only schedule = Ok (Ordered s) ->
        (forall n, In n (JObj.keys (status s)) <-> In n (map name sel)) /\
        (forall n, In (Start n) (log s) -> In n (map name sel))).
Proof.
  intros H B R.
  destruct (WorkspaceFacts.new_spec _ _ _ H) as (_ & EM & _).
  destruct (dependencyClosure_total fuel0 fuel pkgs ws (rootsOf ws only) H)
    as (cl & E); [intros r Hr; apply in_map, R, Hr | exact B |].
  destruct (dependencyClosure_spec _ _ _ _ _ _ H E) as (sel & -> & S).
  assert (Q : Workspace.runPackages fuel ws cmd only schedule
              = (if Workspace.isParallel cmd
                 then Workspace.runParallel cmd sel schedule
                 else s <- Workspace.runOrdered ws cmd sel schedule ;;
                      Ok (Ordered s))).
  { unfold Workspace.runPackages; fold (rootsOf ws only).
    rewrite E; cbn [bind]; rewrite defined_Some; reflexivity. }
  exists sel; split; [exact E | split; [| split; [| split; [| split]]]].
  - intros p Hp; pose proof (sel_registered _ _ _ S p Hp) as G.
    rewrite EM in G; apply WorkspaceFacts.register_get in G; tauto.
  - apply (sel_roots _ _ _ S).
  - intros N r Hr.
    pose proof (sel_roots _ _ _ S r Hr) as Hn.
    apply in_map_iff in Hn; destruct Hn as (q & Eq & Hq).
    pose proof (sel_registered _ _ _ S q Hq) as G.
    rewrite Eq, EM, (WorkspaceFacts.register_unique pkgs r N (R r Hr)) in G.
    inversion G; subst q; exact Hq.
  - intros r d Hr D.
    pose proof (sel_roots _ _ _ S r Hr) as Hn.
    apply in_map_iff in Hn; destruct Hn as (q & Eq & Hq).
    apply (sel_closed _ _ _ S q d Hq); rewrite Eq.
    apply (WorkspaceFacts.member_depends _ _ _ _ _ H), D.
  - split; [exact Q | split].
    + intros calls res P; rewrite Q in P.
      destruct (Workspace.isParallel cmd);
        [| inv_bind P; discriminate P].
      unfold Workspace.runParallel in P; inv_bind P; inversion P; subst.
      eapply mapM_keys; [| exact E0].
      intros x y Hy; destruct (Command.run cmd); inversion Hy; reflexivity.
    + intros s P; rewrite Q in P.
      destruct (Workspace.isParallel cmd).
      * unfold Workspace.runParallel in P; inv_bind P; discriminate P.
      * inv_bind P; inversion P; subst r.
        destruct (runOrdered_selected _ _ _ _ _ E0) as (K & L & _).
        split; [intros n; rewrite JObjFacts.keys_In; apply K | exact L].
Qed.

Lemma dependencyClosure_superset_witness :
  Workspace.new 20 diamond = Ok diamondWs /\
  List.length diamond < 20 /\
  incl (rootsOf diamondWs (Some [pkg "B" ["A"]])) diamond /\
  Workspace.dependencyClosure 20 diamondWs [pkg "B" ["A"]]
  = Ok [Some (pkg "B" ["A"]); Some (pkg "A" [])] /\
  exists sel,
    Workspace.dependencyClosure 20 diamondWs [pkg "B" ["A"]] = Ok (map Some sel) /\
    In (pkg "B" ["A"]) sel /\ In "A" (map name sel).
Proof.
  assert (E : Workspace.new 20 diamond = Ok diamondWs) by reflexivity.
  assert (B : List.length diamond < 20) by (simpl; lia).
  assert (R : incl (rootsOf diamondWs (Some [pkg "B" ["A"]])) diamond)
    by (intros p [<- | []]; simpl; auto).
  split; [exact E | split; [exact B | split; [exact R | split; [reflexivity |]]]].
  destruct (dependencyClosure_superset
              20 20 diamond diamondWs succeeding (Some [pkg "B" ["A"]]) [] E B R)
    as (sel & C & _ & _ & O & D & _).
  exists sel; split; [exact C | split].
  - apply O; [| left; reflexivity].
    repeat (constructor; [simpl; intuition discriminate |]); constructor.
  - apply (D (pkg "B" ["A"])); [left; reflexivity |].
    apply t_step; reflexivity.
Defined.

(** * Further properties of the graph *)

(** X1. The entry of a package holds exactly the names it depends on,
    directly or through other packages: nothing else is in it. *)
Theorem depGraph_exact (fuel : nat) (pkgs : list Package) (ws : Workspace.t)
        (a b : string) :
  Workspace.new fuel pkgs = Ok ws ->
  (member (Workspace.depGraph ws) a b = true <->
   dependsTransitively (Workspace.pkgMap ws) a b).
Proof. apply WorkspaceFacts.member_depends. Qed.

Lemma depGraph_exact_witness :
  Workspace.new 20 diamond = Ok diamondWs /\
  (member (Workspace.depGraph diamondWs) "B" "C" = true <->
   dependsTransitively (Workspace.pkgMap diamondWs) "B" "C") /\
  member (Workspace.depGraph diamondWs) "B" "C" = false.
Proof.
  split; [reflexivity | split; [| reflexivity]].
  apply (depGraph_exact 20 diamond diamondWs "B" "C"); reflexivity.
Defined.

Lemma depends_chain (pkgMap : JObj.t Package) (x z : string) :
  dependsTransitively pkgMap x z -> exists l, chain pkgMap x l z = true.
Proof.
  intros H; apply clos_trans_t1n in H.
  induction H as [x z D | x y z D _ (l & IH)].
  - exists []; exact D.
  - exists (y :: l); cbn [chain]; apply andb_true_iff; split; [exact D | exact IH].
Qed.

(** X2. A package is in its own entry exactly when it lies on a cycle of
    declared dependencies between workspace packages; in a workspace without
    such a cycle no entry contains its own key. *)
Theorem self_member_iff_cycle (fuel : nat) (pkgs : list Package) (ws : Workspace.t)
        (a : string) :
  Workspace.new fuel pkgs = Ok ws ->
  (member (Workspace.depGraph ws) a a = true <->
   exists l, isCycle (Workspace.pkgMap ws) (a :: l) = true).
Proof.
  intros H; rewrite (WorkspaceFacts.member_depends _ _ _ _ _ H); split.
  - intros D; destruct (depends_chain _ _ _ D) as (l & C); exists l; exact C.
  - intros (l & C); apply (cycle_depends _ (a :: l)); [exact C | |];
      left; reflexivity.
Qed.

Lemma self_member_iff_cycle_witness :
  Workspace.new 10 cyclic = Ok cyclicWs /\
  member (Workspace.depGraph cyclicWs) "A" "A" = true /\
  member (Workspace.depGraph cyclicWs) "C" "C" = false /\
  ~ exists l, isCycle (Workspace.pkgMap cyclicWs) ("C" :: l) = true.
Proof.
  assert (E : Workspace.new 10 cyclic = Ok cyclicWs) by reflexivity.
  split; [exact E | split; [| split; [reflexivity |]]].
  - apply (self_member_iff_cycle 10 cyclic cyclicWs "A" E).
    exists ["B"]; reflexivity.
  - intros C; apply (self_member_iff_cycle 10 cyclic cyclicWs "C" E) in C.
    discriminate C.
Defined.

(** X3. A name listed in any of the three dependency tables of a registered
    package, and naming a package of the workspace, is in the entry of that
    package: development and peer dependencies order the runs like runtime
    dependencies. *)
Theorem declared_dependency_in_entry
        (fuel : nat) (pkgs : list Package) (ws : Workspace.t)
        (p : Package) (table : list string) (b : string) :
  Workspace.new fuel pkgs = Ok ws ->
  JObj.get (Workspace.pkgMap ws) (name p) = Some p ->
  dependencies (manifest p) = Some table \/
  devDependencies (manifest p) = Some table \/
  peerDependencies (manifest p) = Some table ->
  In b table ->
  In b (map name pkgs) ->
  member (Workspace.depGraph ws) (name p) b = true.
Proof.
  intros H G T Hb Hn.
  apply (WorkspaceFacts.member_depends _ _ _ _ _ H), t_step, dependsOn_iff.
  exists p; split; [exact G | split].
  - unfold Build.declared, Build.allVersionedDeps; cbn [map List.concat].
    rewrite !in_app_iff.
    destruct T as [T | [T | T]]; rewrite T; auto.
  - destruct (WorkspaceFacts.new_spec _ _ _ H) as (_ & -> & _).
    apply WorkspaceFacts.register_keys, Hn.
Qed.

Definition withPeer : list Package :=
  [{| name := "app";
      manifest := {| dependencies := None;
                     devDependencies := Some ["jest"];
                     peerDependencies := Some ["core"] |} |};
   pkg "core" []].

Definition withPeerWs : Workspace.t :=
  Eval vm_compute in
    match Workspace.new 10 withPeer with
    | Ok ws => ws
    | _ => {| Workspace.packages := []; Workspace.pkgMap := [];
              Workspace.depGraph := [] |}
    end.

Lemma declared_dependency_in_entry_witness :
  Workspace.new 10 withPeer = Ok withPeerWs /\
  member (Workspace.depGraph withPeerWs) "app" "core" = true.
Proof.
  split; [reflexivity |].
  apply (declared_dependency_in_entry
           10 withPeer withPeerWs
           {| name := "app";
              manifest := {| dependencies := None;
                             devDependencies := Some ["jest"];
                             peerDependencies := Some ["core"] |} |}
           ["core"] "core"); try reflexivity; simpl; auto.
Defined.

(** X4. No entry of the graph lists a name twice, even when several tables
    of a manifest, or several dependencies, bring the same name. *)
Theorem depGraph_entries_nodup (fuel : nat) (pkgs : list Package) (ws : Workspace.t)
        (k : string) (s : list string) :
  Workspace.new fuel pkgs = Ok ws ->
  JObj.get (Workspace.depGraph ws) k = Some s ->
  NoDup s.
Proof.
  intros H; apply (BuildFacts.graph_entry_nodup _ _ (WorkspaceFacts.new_graph _ _ _ H)).
Qed.

Lemma depGraph_entries_nodup_witness :
  Workspace.new 20 diamond = Ok diamondWs /\
  JObj.get (Workspace.depGraph diamondWs) "D" = Some ["B"; "C"; "A"] /\
  NoDup ["B"; "C"; "A"].
Proof.
  split; [reflexivity | split; [reflexivity |]].
  apply (depGraph_entries_nodup 20 diamond diamondWs "D"); reflexivity.
Defined.

(** * Further properties of the dependency closure *)

Lemma addAll_fresh (xs : list string) :
  forall s, NoDup (s ++ xs) -> JSet.addAll s xs = s ++ xs.
Proof.
  unfold JSet.addAll; induction xs as [|x xs IH]; cbn [fold_left]; intros s N.
  - symmetry; apply app_nil_r.
  - assert (F : JSet.has s x = false).
    { apply JSetFacts.has_false; intros Hx.
      apply NoDup_remove_2 in N; apply N, in_or_app; left; exact Hx. }
    unfold JSet.add at 2; rewrite F.
    rewrite IH; rewrite <- app_assoc; [reflexivity | exact N].
Qed.

Lemma make_NoDup_id (xs : list string) : NoDup xs -> JSet.make xs = xs.
Proof. intros N; apply (addAll_fresh xs []), N. Qed.

Lemma addAll_incl (xs : list string) :
  forall s, incl xs s -> JSet.addAll s xs = s.
Proof.
  unfold JSet.addAll; induction xs as [|x xs IH]; cbn [fold_left]; intros s H;
    [reflexivity |].
  assert (F : JSet.has s x = true)
    by (apply JSetFacts.has_In, H; left; reflexivity).
  unfold JSet.add at 2; rewrite F; apply IH.
  intros y Hy; apply H; right; exact Hy.
Qed.

Lemma expandFrom_fixed (g : DepGraph) (acc : JSet.t) (ps : list string) :
  (forall p, In p ps -> exists deps, JObj.get g p = Some deps /\ incl deps acc) ->
  ClosureFacts.expandFrom g ps acc = Ok acc.
Proof.
  unfold ClosureFacts.expandFrom; induction ps as [|p ps IH]; cbn [foldM];
    intros H; [reflexivity |].
  destruct (H p (or_introl eq_refl)) as (deps & E & I).
  unfold lookup at 1; rewrite E; cbn [bind]; rewrite (addAll_incl deps acc I).
  apply IH; intros q Hq; apply H; right; exact Hq.
Qed.

(** A list of registered packages with distinct names that holds the
    dependencies of each of its packages is its own closure. *)
Lemma closure_fixed (fuel : nat) (ws : Workspace.t) (sel : list Package) :
  NoDup (map name sel) ->
  (forall p, In p sel -> JObj.get (Workspace.pkgMap ws) (name p) = Some p) ->
  (forall p, In p sel ->
             exists deps, JObj.get (Workspace.depGraph ws) (name p) = Some deps /\
                          incl deps (map name sel)) ->
  Workspace.dependencyClosure (S fuel) ws sel = Ok (map Some sel).
Proof.
  intros N G C; unfold Workspace.dependencyClosure.
  rewrite (make_NoDup_id _ N); cbn [Workspace.closureLoop].
  change (Workspace.expand (Workspace.depGraph ws) (map name sel))
    with (ClosureFacts.expandFrom (Workspace.depGraph ws) (map name sel)
                                  (map name sel)).
  rewrite expandFrom_fixed.
  - cbn [bind]; rewrite Nat.eqb_refl; cbn [bind]; f_equal.
    unfold JSet.elements; rewrite map_map; apply map_ext_in.
    intros p Hp; apply G, Hp.
  - intros n Hn; apply in_map_iff in Hn; destruct Hn as (p & <- & Hp).
    apply C, Hp.
Qed.

Lemma selection_closed (ws : Workspace.t) (roots sel : list Package) (p : Package) :
  selection ws roots sel -> In p sel ->
  exists deps, JObj.get (Workspace.depGraph ws) (name p) = Some deps /\
               incl deps (map name sel).
Proof.
  intros S Hp; destruct (sel_entry _ _ _ S p Hp) as (deps & E).
  exists deps; split; [exact E |].
  intros d Hd; apply (sel_closed _ _ _ S p d Hp), member_iff.
  exists deps; auto.
Qed.

(** X5. [dependencyClosure] is idempotent: applied to the packages it has
    returned, it returns the same list, in the same order, after one
    iteration of its loop. *)
Theorem dependencyClosure_idempotent
        (fuel0 fuel fuel' : nat) (pkgs : list Package) (ws : Workspace.t)
        (roots sel : list Package) :
  Workspace.new fuel0 pkgs = Ok ws ->
  Workspace.dependencyClosure fuel ws roots = Ok (map Some sel) ->
  Workspace.dependencyClosure (S fuel') ws sel = Ok (map Some sel).
Proof.
  intros H D.
  destruct (dependencyClosure_spec _ _ _ _ _ _ H D) as (sel' & E & S).
  apply (f_equal Workspace.defined) in E; rewrite !defined_Some in E.
  injection E as <-.
  apply closure_fixed.
  - apply (sel_nodup _ _ _ S).
  - apply (sel_registered _ _ _ S).
  - intros p Hp; eapply selection_closed; eassumption.
Qed.

Lemma dependencyClosure_idempotent_witness :
  Workspace.new 20 diamond = Ok diamondWs /\
  Workspace.dependencyClosure 20 diamondWs [pkg "B" ["A"]]
  = Ok (map Some [pkg "B" ["A"]; pkg "A" []]) /\
  Workspace.dependencyClosure 1 diamondWs [pkg "B" ["A"]; pkg "A" []]
  = Ok (map Some [pkg "B" ["A"]; pkg "A" []]).
Proof.
  split; [reflexivity | split; [reflexivity |]].
  apply (dependencyClosure_idempotent 20 20 0 diamond diamondWs [pkg "B" ["A"]]);
    reflexivity.
Defined.

(** X6. When the names of the packages are distinct, the closure of all the
    packages of the workspace is the list of packages itself, in its order:
    without [only], [runPackages] runs over [this.packages] as it is. *)
Theorem dependencyClosure_all
        (fuel0 fuel : nat) (pkgs : list Package) (ws : Workspace.t)
        (cmd : Command.t Workspace.t) (schedule : list string) :
  Workspace.new fuel0 pkgs = Ok ws ->
  NoDup (map name pkgs) ->
  Workspace.dependencyClosure (S fuel) ws (Workspace.packages ws)
  = Ok (map Some pkgs) /\
  Workspace.runPackages (S fuel) ws cmd None schedule
  = (if Workspace.isParallel cmd then Workspace.runParallel cmd pkgs schedule
     else s <- Workspace.runOrdered ws cmd pkgs schedule ;; Ok (Ordered s)).
Proof.
  intros H N.
  destruct (WorkspaceFacts.new_spec _ _ _ H) as (EP & EM & G).
  assert (D : Workspace.dependencyClosure (S fuel) ws pkgs = Ok (map Some pkgs)).
  { apply closure_fixed; [exact N | |].
    - intros p Hp; rewrite EM; apply WorkspaceFacts.register_unique; assumption.
    - intros p Hp.
      destruct (JObjFacts.key_get (Workspace.depGraph ws) (name p)) as (deps & E).
      { apply (BuildFacts.graph_keys _ _ G); rewrite EM.
        apply WorkspaceFacts.register_keys, in_map, Hp. }
      exists deps; split; [exact E |].
      intros d Hd; apply WorkspaceFacts.register_keys; rewrite <- EM.
      eapply dependsTransitively_member, (BuildFacts.graph_entry _ _ G); eassumption. }
  rewrite EP; split; [exact D |].
  unfold Workspace.runPackages; rewrite EP, D; cbn [bind].
  rewrite defined_Some; reflexivity.
Qed.

Lemma dependencyClosure_all_witness :
  Workspace.new 20 diamond = Ok diamondWs /\
  NoDup (map name diamond) /\
  Workspace.dependencyClosure 1 diamondWs (Workspace.packages diamondWs)
  = Ok (map Some diamond).
Proof.
  assert (N : NoDup (map name diamond))
    by (repeat (constructor; [simpl; intuition discriminate |]); constructor).
  split; [reflexivity | split; [exact N |]].
  apply (dependencyClosure_all 20 0 diamond diamondWs succeeding [] eq_refl N).
Defined.

(** X7. [dependencyClosure] returns only packages of the workspace, and no
    package other than the roots and the packages a root depends on, directly
    or through other packages: selecting a subset never runs a package that
    is unrelated to it. *)
Theorem dependencyClosure_exact
        (fuel0 fuel : nat) (pkgs : list Package) (ws : Workspace.t)
        (roots : list Package) (cl : list (option Package)) :
  Workspace.new fuel0 pkgs = Ok ws ->
  Workspace.dependencyClosure fuel ws roots = Ok cl ->
  ~ In None cl /\
  forall p, In (Some p) cl ->
            In p pkgs /\
            (In (name p) (map name roots) \/
             exists r, In r roots /\
                       dependsTransitively (Workspace.pkgMap ws) (name r) (name p)).
Proof.
  intros H D.
  destruct (dependencyClosure_spec _ _ _ _ _ _ H D) as (sel & -> & S).
  destruct (WorkspaceFacts.new_spec _ _ _ H) as (_ & EM & _).
  split.
  - intros N; apply in_map_iff in N; destruct N as (q & E & _); discriminate E.
  - intros p Hp; apply in_map_iff in Hp; destruct Hp as (q & E & Hq).
    injection E as ->; split.
    + pose proof (sel_registered _ _ _ S p Hq) as G.
      rewrite EM in G; apply WorkspaceFacts.register_get in G; tauto.
    + destruct (sel_reached _ _ _ S p Hq) as [R | (r & Hr & M)]; [left; exact R |].
      right; exists r; split; [exact Hr |].
      apply (WorkspaceFacts.member_depends _ _ _ _ _ H), M.
Qed.

Lemma dependencyClosure_exact_witness :
  Workspace.new 20 diamond = Ok diamondWs /\
  Workspace.dependencyClosure 20 diamondWs [pkg "B" ["A"]]
  = Ok [Some (pkg "B" ["A"]); Some (pkg "A" [])] /\
  ~ In (Some (pkg "C" ["A"]))
       [Some (pkg "B" ["A"]); Some (pkg "A" [])].
Proof.
  assert (E : Workspace.new 20 diamond = Ok diamondWs) by reflexivity.
  assert (D : Workspace.dependencyClosure 20 diamondWs [pkg "B" ["A"]]
              = Ok [Some (pkg "B" ["A"]); Some (pkg "A" [])]) by reflexivity.
  split; [exact E | split; [exact D |]].
  intros C.
  destruct (dependencyClosure_exact 20 20 diamond diamondWs _ _ E D) as (_ & X).
  destruct (X _ C) as (_ & [R | (r & [<- | []] & T)]).
  - destruct R as [R | []]; discriminate R.
  - apply (WorkspaceFacts.member_depends _ _ _ _ _ E) in T; discriminate T.
Defined.

Lemma expandFrom_missing (g : DepGraph) (ps : list string) :
  forall acc, (exists p, In p ps /\ JObj.get g p = None) ->
              ClosureFacts.expandFrom g ps acc = TypeError.
Proof.
  unfold ClosureFacts.expandFrom; induction ps as [|q ps IH]; cbn [foldM];
    intros acc (p & Hp & E); [destruct Hp |].
  unfold lookup at 1; destruct (JObj.get g q) as [deps|] eqn:Eq; cbn [bind];
    [| reflexivity].
  apply IH; exists p; split; [| exact E].
  destruct Hp as [-> | Hp]; [congruence | exact Hp].
Qed.

(** X8. A root whose name is not the name of a package of the workspace
    makes [dependencyClosure], and [runPackages] with it, raise a TypeError
    in the first iteration of the loop: [this.depGraph[p]] is [undefined]. *)
Theorem dependencyClosure_unknown_root
        (fuel0 fuel : nat) (pkgs : list Package) (ws : Workspace.t)
        (cmd : Command.t Workspace.t) (roots : list Package) (r : Package)
        (schedule : list string) :
  Workspace.new fuel0 pkgs = Ok ws ->
  In r roots ->
  ~ In (name r) (map name pkgs) ->
  Workspace.dependencyClosure (S fuel) ws roots = TypeError /\
  Workspace.runPackages (S fuel) ws cmd (Some roots) schedule = TypeError.
Proof.
  intros H Hr N.
  pose proof (WorkspaceFacts.new_graph _ _ _ H) as G.
  assert (D : Workspace.dependencyClosure (S fuel) ws roots = TypeError).
  { unfold Workspace.dependencyClosure; cbn [Workspace.closureLoop].
    change (Workspace.expand (Workspace.depGraph ws) (JSet.make (map name roots)))
      with (ClosureFacts.expandFrom (Workspace.depGraph ws)
              (JSet.make (map name roots)) (JSet.make (map name roots))).
    rewrite expandFrom_missing; [reflexivity |].
    exists (name r); split; [apply JSetFacts.make_In, in_map, Hr |].
    apply get_absent; intros K; apply N.
    apply WorkspaceFacts.register_keys, (BuildFacts.graph_keys _ _ G), K. }
  split; [exact D |].
  unfold Workspace.runPackages; rewrite D; reflexivity.
Qed.

Lemma dependencyClosure_unknown_root_witness :
  Workspace.new 20 diamond = Ok diamondWs /\
  ~ In (name (pkg "react" [])) (map name diamond) /\
  Workspace.dependencyClosure 1 diamondWs [pkg "A" []; pkg "react" []] = TypeError.
Proof.
  assert (N : ~ In (name (pkg "react" [])) (map name diamond))
    by (simpl; intuition discriminate).
  split; [reflexivity | split; [exact N |]].
  apply (dependencyClosure_unknown_root
           20 0 diamond diamondWs succeeding _ (pkg "react" []) [] eq_refl);
    [right; left; reflexivity | exact N].
Defined.

(** X9. For roots among the packages of the workspace the loop of
    [dependencyClosure] stops within two iterations, whatever the size of the
    workspace: the entries of the graph are transitively closed, so the first
    iteration brings everything in. *)
Theorem dependencyClosure_two_iterations
        (fuel0 : nat) (pkgs : list Package) (ws : Workspace.t)
        (roots : list Package) :
  Workspace.new fuel0 pkgs = Ok ws ->
  (forall r, In r roots -> In (name r) (map name pkgs)) ->
  exists cl, forall fuel,
      Workspace.dependencyClosure (S (S fuel)) ws roots = Ok cl.
Proof.
  intros H R; pose proof (WorkspaceFacts.new_graph _ _ _ H) as G.
  set (g := Workspace.depGraph ws); set (S0 := JSet.make (map name roots)).
  assert (K : forall k, In k S0 -> In k (map fst g)).
  { intros k Hk; apply JSetFacts.make_In, in_map_iff in Hk.
    destruct Hk as (r & <- & Hr).
    apply (BuildFacts.graph_keys _ _ G), WorkspaceFacts.register_keys, R, Hr. }
  destruct (ClosureFacts.expandFrom_total g S0 K S0) as (S1 & E).
  destruct (ClosureFacts.expandFrom_spec g _ _ _ E) as (_ & _ & Hc & Hs).
  assert (F : ClosureFacts.expandFrom g S1 S1 = Ok S1).
  { apply expandFrom_fixed; intros p Hp.
    destruct (Hs p Hp) as [H0 | (q & Hq & M)]; [apply Hc, H0 |].
    destruct (JObjFacts.key_get g p) as (deps & Ed).
    { apply member_iff in M; destruct M as (s & Es & Hps).
      apply (BuildFacts.graph_keys _ _ G).
      eapply dependsTransitively_member, (BuildFacts.graph_entry _ _ G);
        eassumption. }
    exists deps; split; [exact Ed |].
    intros x Hx; destruct (Hc q Hq) as (dq & Eq & Iq); apply Iq.
    assert (Mx : member g q x = true).
    { apply (WorkspaceFacts.member_depends _ _ _ _ _ H).
      eapply t_trans; [apply (WorkspaceFacts.member_depends _ _ _ _ _ H), M |].
      apply (WorkspaceFacts.member_depends _ _ _ _ _ H), member_iff.
      exists deps; auto. }
    apply member_iff in Mx; destruct Mx as (s & Es & Hxs).
    fold g in Eq; rewrite Eq in Es; injection Es as <-; exact Hxs. }
  exists (map (JObj.get (Workspace.pkgMap ws)) (JSet.elements S1)); intros fuel.
  unfold Workspace.dependencyClosure; fold g S0; cbn [Workspace.closureLoop].
  change (Workspace.expand g S0) with (ClosureFacts.expandFrom g S0 S0).
  rewrite E; cbn [bind].
  destruct (JSet.size S1 =? JSet.size S0); [reflexivity |].
  change (Workspace.expand g S1) with (ClosureFacts.expandFrom g S1 S1).
  rewrite F; cbn [bind]; rewrite Nat.eqb_refl; reflexivity.
Qed.

Lemma dependencyClosure_two_iterations_witness :
  Workspace.new 20 diamond = Ok diamondWs /\
  Workspace.dependencyClosure 2 diamondWs [pkg "D" ["B"; "C"; "react"]]
  = Ok (map Some [pkg "D" ["B"; "C"; "react"]; pkg "B" ["A"]; pkg "C" ["A"];
                  pkg "A" []]) /\
  Workspace.dependencyClosure 1 diamondWs [pkg "D" ["B"; "C"; "react"]]
  = OutOfFuel.
Proof.
  assert (E : Workspace.new 20 diamond = Ok diamondWs) by reflexivity.
  split; [exact E | split; [| reflexivity]].
  destruct (dependencyClosure_two_iterations
              20 diamond diamondWs [pkg "D" ["B"; "C"; "react"]] E) as (cl & C).
  - intros r [<- | []]; simpl; auto.
  - rewrite (C 0); specialize (C 5).
    change (Workspace.dependencyClosure 7 diamondWs [pkg "D" ["B"; "C"; "react"]])
      with (Ok (map Some [pkg "D" ["B"; "C"; "react"]; pkg "B" ["A"];
                          pkg "C" ["A"]; pkg "A" []])) in C.
    symmetry; exact C.
Defined.

(** * Further properties of the scheduler *)

(** The names of the packages started in a log. *)
Fixpoint starts (l : list Event) : list string :=
  match l with
  | [] => []
  | Start n :: r => n :: starts r
  | Finish _ _ :: r => starts r
  end.

Lemma starts_In (l : list Event) (n : string) : In n (starts l) <-> In (Start n) l.
Proof.
  induction l as [|[m | m ok] l IH]; cbn [starts In].
  - tauto.
  - rewrite IH; split; intros [E | H]; auto; [left; congruence |].
    injection E as ->; auto.
  - rewrite IH; split; [auto | intros [E | H]; [discriminate E | exact H]].
Qed.

Lemma starts_app (l l' : list Event) : starts (l ++ l') = starts l ++ starts l'.
Proof.
  induction l as [|[m | m ok] l IH]; cbn [starts app]; [reflexivity | | exact IH].
  rewrite IH; reflexivity.
Qed.

Lemma starts_batch (names : list string) :
  starts (rev (map Start names)) = rev names.
Proof.
  induction names as [|n names IH]; cbn [map rev]; [reflexivity |].
  rewrite starts_app, IH; reflexivity.
Qed.

Lemma runOrdered_started_once (ws : Workspace.t) (cmd : Command.t Workspace.t)
      (sel : list Package) (schedule : list string) (s : Sched) :
  NoDup (map name sel) ->
  Workspace.runOrdered ws cmd sel schedule = Ok s ->
  NoDup (starts (log s)) /\
  forall n, In n (starts (log s)) -> JObj.get (status s) n <> Some queued.
Proof.
  intros N.
  apply (SchedulerFacts.runOrdered_invariant ws cmd sel
           (fun s => NoDup (starts (log s)) /\
                     forall n, In n (starts (log s)) ->
                               JObj.get (status s) n <> Some queued)).
  - cbn; split; [constructor | intros n []].
  - intros s0 ready (D & Q) C.
    assert (Hq : forall n, In n (map name ready) ->
                           JObj.get (status s0) n = Some queued).
    { intros n Hn; apply in_map_iff in Hn; destruct Hn as (p & <- & Hp).
      apply (SchedulerFacts.canExecute_eligible ws sel _ _ _ C Hp). }
    rewrite SchedulerFacts.startAll_log, <- map_map, starts_app, starts_batch.
    split.
    + apply NoDup_app; [apply NoDup_rev, (filterM_NoDup name _ _ _ C N) | exact D |].
      intros n Hn Hs; apply in_rev in Hn; exact (Q n Hs (Hq n Hn)).
    + intros n Hn; rewrite SchedulerFacts.startAll_status.
      destruct (JSet.has (map name ready) n) eqn:Hh; [discriminate |].
      apply in_app_or in Hn; destruct Hn as [Hn | Hn]; [| apply Q, Hn].
      apply in_rev, JSetFacts.has_In in Hn; congruence.
  - intros s0 p ok rest (D & Q) _ _; cbn; split; [exact D |].
    intros n Hn; destruct (string_dec n (name p)) as [-> | Ne].
    + rewrite JObjFacts.get_set_same; discriminate.
    + rewrite JObjFacts.get_set_other by exact Ne; apply Q, Hn.
  - intros s0 P0 _; exact P0.
Qed.

(** X10. In ordered mode no package is started twice, whatever the order in
    which the tasks complete: the per-package function is called at most
    once for each package. *)
Theorem ordered_mode_starts_once
        (fuel0 fuel : nat) (pkgs : list Package) (ws : Workspace.t)
        (cmd : Command.t Workspace.t) (only : option (list Package))
        (schedule : list string) (s : Sched) :
  Workspace.new fuel0 pkgs = Ok ws ->
  Workspace.runPackages fuel ws cmd only schedule = Ok (Ordered s) ->
  NoDup (starts (log s)).
Proof.
  intros H R.
  destruct (runPackages_ordered _ _ _ _ _ _ _ _ H R) as (sel & S & _ & O).
  apply (runOrdered_started_once _ _ _ _ _ (sel_nodup _ _ _ S) O).
Qed.

Lemma ordered_mode_starts_once_witness :
  Workspace.new 20 diamond = Ok diamondWs /\
  Workspace.runPackages 20 diamondWs succeeding None ["A"; "C"; "B"; "D"]
  = Ok (Ordered diamondRun) /\
  starts (log diamondRun) = ["D"; "C"; "B"; "A"] /\
  NoDup ["D"; "C"; "B"; "A"].
Proof.
  split; [reflexivity | split; [reflexivity | split; [reflexivity |]]].
  apply (ordered_mode_starts_once
           20 20 diamond diamondWs succeeding None ["A"; "C"; "B"; "D"] diamondRun);
    reflexivity.
Defined.

(** X11. In ordered mode [runPackages] returns success only when the task
    of every root, and of every package a root depends on, has been run and
    has reported success. *)
Theorem success_means_all_succeeded
        (fuel0 fuel : nat) (pkgs : list Package) (ws : Workspace.t)
        (cmd : Command.t Workspace.t) (only : option (list Package))
        (schedule : list string) (s : Sched) :
  Workspace.new fuel0 pkgs = Ok ws ->
  Workspace.runPackages fuel ws cmd only schedule = Ok (Ordered s) ->
  Workspace.returned (Ordered s) = Returned true ->
  forall r, In r (rootsOf ws only) ->
    In (Finish (name r) true) (log s) /\
    forall d, dependsTransitively (Workspace.pkgMap ws) (name r) d ->
              In (Finish d true) (log s).
Proof.
  intros H R T.
  destruct (runPackages_ordered _ _ _ _ _ _ _ _ H R) as (sel & S & _ & O).
  destruct (runOrdered_failure _ _ _ _ _ (sel_nodup _ _ _ S) O) as (_ & _ & A & F).
  destruct (runOrdered_selected _ _ _ _ _ O) as (K & _ & _).
  destruct (runOrdered_ordered _ _ _ _ _ O) as (_ & L).
  assert (Pr : promise s = resolved)
    by (cbn in T; destruct (promise s); [discriminate T | reflexivity | discriminate T]).
  assert (All : forall n, In n (map name sel) -> In (Finish n true) (log s)).
  { intros n Hn; apply K, JObjFacts.key_get in Hn; destruct Hn as (v & Ev).
    pose proof (allFinished_get _ _ _ (A Pr) Ev) as ->.
    destruct (L n Ev) as ([|] & Hl); [exact Hl |].
    rewrite (F n Hl) in Pr; discriminate Pr. }
  intros r Hr; pose proof (sel_roots _ _ _ S r Hr) as Hn.
  split; [apply All, Hn |].
  intros d D; apply All.
  apply in_map_iff in Hn; destruct Hn as (q & Eq & Hq).
  apply (sel_closed _ _ _ S q d Hq); rewrite Eq.
  apply (WorkspaceFacts.member_depends _ _ _ _ _ H), D.
Qed.

Lemma success_means_all_succeeded_witness :
  Workspace.new 20 diamond = Ok diamondWs /\
  Workspace.runPackages 20 diamondWs succeeding (Some [pkg "B" ["A"]]) ["A"; "B"]
  = Ok (Ordered {| status := [("B", finished); ("A", finished)];
                   promise := resolved;
                   inflight := [];
                   log := [Finish "B" true; Start "B"; Finish "A" true; Start "A"] |}) /\
  In (Finish "A" true) [Finish "B" true; Start "B"; Finish "A" true; Start "A"].
Proof.
  assert (E : Workspace.new 20 diamond = Ok diamondWs) by reflexivity.
  split; [exact E | split; [reflexivity |]].
  apply (success_means_all_succeeded
           20 20 diamond diamondWs succeeding (Some [pkg "B" ["A"]]) ["A"; "B"]
           {| status := [("B", finished); ("A", finished)];
              promise := resolved;
              inflight := [];
              log := [Finish "B" true; Start "B"; Finish "A" true; Start "A"] |}
           E eq_refl eq_refl (pkg "B" ["A"]));
    [left; reflexivity | apply t_step; reflexivity].
Defined.

(** X12. In ordered mode the result of [runPackages] is failure exactly when
    the task of some package has reported failure. *)
Theorem returns_false_iff_failure
        (fuel0 fuel : nat) (pkgs : list Package) (ws : Workspace.t)
        (cmd : Command.t Workspace.t) (only : option (list Package))
        (schedule : list string) (s : Sched) :
  Workspace.new fuel0 pkgs = Ok ws ->
  Workspace.runPackages fuel ws cmd only schedule = Ok (Ordered s) ->
  (Workspace.returned (Ordered s) = Returned false <->
   exists n, In (Finish n false) (log s)).
Proof.
  intros H R; split.
  - intros T.
    destruct (runPackages_ordered _ _ _ _ _ _ _ _ H R) as (sel & _ & _ & O).
    destruct (runOrdered_rejected _ _ _ _ _ O) as (_ & Rj).
    destruct Rj as (p & f & _ & _ & Hl); [| exists (name p); exact Hl].
    cbn in T; destruct (promise s); [discriminate T | discriminate T | reflexivity].
  - intros (n & Hn); eapply failure_returns_false; eassumption.
Qed.

Lemma returns_false_iff_failure_witness :
  Workspace.new 10 chainAB = Ok chainWs /\
  exists s,
    Workspace.runPackages 10 chainWs failingA None ["A"; "B"] = Ok (Ordered s) /\
    In (Finish "A" false) (log s) /\
    Workspace.returned (Ordered s) = Returned false.
Proof.
  assert (E : Workspace.new 10 chainAB = Ok chainWs) by reflexivity.
  split; [exact E |].
  eexists; split; [reflexivity |].
  assert (F : In (Finish "A" false)
                 [Finish "B" true; Start "B"; Finish "A" false; Start "A"])
    by (right; right; left; reflexivity).
  split; [exact F |].
  eapply (returns_false_iff_failure 10 10 chainAB chainWs failingA None ["A"; "B"]);
    [exact E | reflexivity | exists "A"; exact F].
Defined.

Lemma filterM_complete {A : Type} (f : A -> outcome bool) (l : list A) :
  forall ys x, filterM f l = Ok ys -> In x l -> f x = Ok true -> In x ys.
Proof.
  induction l as [|x0 r IH]; cbn [filterM]; intros ys x H Hx Hf; [destruct Hx |].
  inv_bind H; inv_bind H; inversion H; subst; clear H.
  destruct Hx as [-> | Hx].
  - rewrite Hf in E; injection E as <-; left; reflexivity.
  - pose proof (IH _ _ E0 Hx Hf) as Hin; destruct r0; [right |]; exact Hin.
Qed.

Lemma filterM_defined {A : Type} (f : A -> outcome bool) (l : list A) :
  forall ys x, filterM f l = Ok ys -> In x l -> exists b, f x = Ok b.
Proof.
  induction l as [|x0 r IH]; cbn [filterM]; intros ys x H Hx; [destruct Hx |].
  inv_bind H; inv_bind H.
  destruct Hx as [-> | Hx]; [exists r0; exact E | apply (IH _ _ E0 Hx)].
Qed.

Lemma forallb_false_exists {A : Type} (f : A -> bool) (l : list A) :
  forallb f l = false -> exists x, In x l /\ f x = false.
Proof.
  induction l as [|x l IH]; cbn [forallb]; [discriminate |].
  destruct (f x) eqn:E; cbn [andb]; intros H.
  - destruct (IH H) as (y & Hy & Ey); exists y; split; [right |]; assumption.
  - exists x; split; [left; reflexivity | exact E].
Qed.

(** A queued package that [canExecute] leaves out has, in its entry, a name
    that is not finished. *)
Lemma canExecute_blocked (ws : Workspace.t) (sel : list Package)
      (st : JObj.t Status) (ready : list Package) (p : Package) :
  Workspace.canExecute ws sel st = Ok ready ->
  In p sel -> JObj.get st (name p) = Some queued -> ~ In p ready ->
  exists d, member (Workspace.depGraph ws) (name p) d = true /\
            JObj.get st d <> Some finished.
Proof.
  intros C Hp Q N; unfold Workspace.canExecute in C.
  destruct (filterM_defined _ _ _ _ C Hp) as (b & Eb).
  destruct b; [exfalso; apply N; eapply filterM_complete; eassumption |].
  cbv beta in Eb; rewrite Q in Eb; inv_bind Eb; apply lookup_Ok in E.
  injection Eb as Eb; apply forallb_false_exists in Eb.
  destruct Eb as (d & Hd & Ed); exists d; split.
  - apply member_iff; exists r; auto.
  - intros F; rewrite F in Ed; discriminate Ed.
Qed.

(** The states in which a run in ordered mode can be observed are those left
    by a batch of starts or by the resolution of the promise. *)
Lemma runOrdered_final (ws : Workspace.t) (cmd : Command.t Workspace.t)
      (sel : list Package) (Q : Sched -> Prop) :
  (forall s ready,
      s = Workspace.initial sel \/ Workspace.allFinished (status s) = false ->
      Workspace.canExecute ws sel (status s) = Ok ready ->
      Q (SchedulerFacts.startAll cmd s ready)) ->
  (forall s, Workspace.allFinished (status s) = true -> Q (Workspace.resolve s)) ->
  forall schedule s, Workspace.runOrdered ws cmd sel schedule = Ok s -> Q s.
Proof.
  intros Hstart Hresolve schedule s H.
  unfold Workspace.runOrdered in H; inv_bind H; rename r into s0.
  assert (Q0 : Q s0).
  { unfold Workspace.runTasks in E; inv_bind E; injection E as <-.
    apply Hstart; [left; reflexivity | exact E0]. }
  clear E; revert s0 Q0 H; induction schedule as [|nm rest IH]; cbn [foldM];
    intros s0 Q0 H; [injection H as <-; exact Q0 |].
  inv_bind H; apply (IH r); [| exact H].
  unfold Workspace.complete in E.
  destruct (Workspace.take nm (inflight s0)) as [[[p ok] others]|];
    [| injection E as <-; exact Q0].
  rewrite SchedulerFacts.resume_unfold in E.
  destruct (Workspace.allFinished
              (status (SchedulerFacts.finishing s0 p ok others))) eqn:A.
  - injection E as <-; apply Hresolve, A.
  - unfold Workspace.runTasks in E; inv_bind E; injection E as <-.
    apply Hstart; [right; exact A | exact E0].
Qed.

Lemma runOrdered_blocked (ws : Workspace.t) (cmd : Command.t Workspace.t)
      (sel : list Package) (schedule : list string) (s : Sched) :
  Workspace.runOrdered ws cmd sel schedule = Ok s ->
  forall p, In p sel -> JObj.get (status s) (name p) = Some queued ->
            exists d, member (Workspace.depGraph ws) (name p) d = true /\
                      JObj.get (status s) d <> Some finished.
Proof.
  apply (runOrdered_final ws cmd sel
           (fun s => forall p, In p sel ->
                               JObj.get (status s) (name p) = Some queued ->
                               exists d, member (Workspace.depGraph ws) (name p) d = true /\
                                         JObj.get (status s) d <> Some finished)).
  - intros s0 ready _ C p Hp Q.
    rewrite SchedulerFacts.startAll_status in Q.
    destruct (JSet.has (map name ready) (name p)) eqn:Hh; [discriminate Q |].
    destruct (canExecute_blocked ws sel _ _ p C Hp Q) as (d & M & F).
    { intros Hin; apply JSetFacts.has_false in Hh; apply Hh, in_map, Hin. }
    exists d; split; [exact M |].
    rewrite SchedulerFacts.startAll_status.
    destruct (JSet.has (map name ready) d); [discriminate | exact F].
  - intros s0 A p _ Q; cbn in Q.
    rewrite (allFinished_queued _ _ Q) in A; discriminate A.
Qed.

Lemma runOrdered_settled (ws : Workspace.t) (cmd : Command.t Workspace.t)
      (sel : list Package) (schedule : list string) (s : Sched) :
  sel <> [] ->
  Workspace.runOrdered ws cmd sel schedule = Ok s ->
  Workspace.allFinished (status s) = true -> promise s <> pending.
Proof.
  intros Ne.
  apply (runOrdered_final ws cmd sel
           (fun s => Workspace.allFinished (status s) = true ->
                     promise s <> pending)).
  - intros s0 ready Hs C A; exfalso.
    assert (A0 : Workspace.allFinished (status s0) = false).
    { destruct Hs as [-> | Hs]; [| exact Hs].
      destruct sel as [|p sel']; [contradiction |].
      apply (allFinished_queued _ (name p)), initial_status; left; reflexivity. }
    unfold Workspace.allFinished in A0; apply forallb_false_exists in A0.
    destruct A0 as (k & Hk & Fk); apply JObjFacts.keys_In in Hk.
    destruct (JObjFacts.key_get (status (SchedulerFacts.startAll cmd s0 ready)) k)
      as (v & Ev); [apply SchedulerFacts.startAll_keys; left; exact Hk |].
    pose proof (allFinished_get _ _ _ A Ev) as ->.
    rewrite SchedulerFacts.startAll_status in Ev.
    destruct (JSet.has (map name ready) k); [discriminate Ev |].
    rewrite Ev in Fk; discriminate Fk.
  - intros s0 _ _; cbn; destruct (promise s0); discriminate.
Qed.

Lemma runOrdered_running (ws : Workspace.t) (cmd : Command.t Workspace.t)
      (f : Package -> bool) (sel : list Package) (schedule : list string)
      (s : Sched) :
  Command.run cmd = Some f ->
  Workspace.runOrdered ws cmd sel schedule = Ok s ->
  forall n, JObj.get (status s) n = Some running ->
            In n (map (fun t => name (fst t)) (inflight s)).
Proof.
  intros F.
  apply (SchedulerFacts.runOrdered_induction ws cmd sel
           (fun s => forall n, JObj.get (status s) n = Some running ->
                               In n (map (fun t => name (fst t)) (inflight s)))).
  - intros n H; cbn in H; apply JObjFacts.fromPairs_get, in_map_iff in H.
    destruct H as (p & E & _); discriminate E.
  - intros s0 ready P0 _ n H.
    rewrite SchedulerFacts.startAll_tasks, F, map_app, map_map; cbn [fst].
    apply in_or_app; rewrite SchedulerFacts.startAll_status in H.
    destruct (JSet.has (map name ready) n) eqn:Hh;
      [right; apply JSetFacts.has_In, Hh | left; apply P0, H].
  - intros s0 p ok rest P0 Perm n H; cbn in H |- *.
    destruct (string_dec n (name p)) as [-> | Ne].
    + rewrite JObjFacts.get_set_same in H; discriminate H.
    + rewrite JObjFacts.get_set_other in H by exact Ne.
      pose proof (Permutation_in _
                    (Permutation_map (fun t : Package * bool => name (fst t)) Perm)
                    (P0 n H)) as Hin.
      destruct Hin as [E | Hin]; [cbn in E; congruence | exact Hin].
  - intros s0 P0 _; exact P0.
Qed.

(** X13. Ordered mode does not get stuck on a workspace without dependency
    cycles: when the command has a per-package function, no entry of the
    graph contains its own key, and no started task is left pending, every
    selected package is finished; the promise is then settled, and
    [runPackages] has returned success if every task reports success. *)
Theorem ordered_mode_completes
        (fuel0 fuel : nat) (pkgs : list Package) (ws : Workspace.t)
        (cmd : Command.t Workspace.t) (f : Package -> bool)
        (only : option (list Package)) (schedule : list string) (s : Sched) :
  Workspace.new fuel0 pkgs = Ok ws ->
  (forall a, member (Workspace.depGraph ws) a a = false) ->
  Command.run cmd = Some f ->
  Workspace.runPackages fuel ws cmd only schedule = Ok (Ordered s) ->
  inflight s = [] ->
  (forall n, In n (JObj.keys (status s)) -> JObj.get (status s) n = Some finished) /\
  (rootsOf ws only <> [] -> Workspace.returned (Ordered s) <> Blocked) /\
  (rootsOf ws only <> [] -> (forall p, f p = true) ->
   Workspace.returned (Ordered s) = Returned true).
Proof.
  intros H Acyc F R Idle.
  destruct (runPackages_ordered _ _ _ _ _ _ _ _ H R) as (sel & S & _ & O).
  pose proof (WorkspaceFacts.new_graph _ _ _ H) as G.
  destruct (runOrdered_selected _ _ _ _ _ O) as (K & _ & _).
  pose proof (runOrdered_running _ _ _ _ _ _ F O) as Run; rewrite Idle in Run.
  pose proof (runOrdered_blocked _ _ _ _ _ O) as Blk.
  assert (Fin : forall n p deps,
             In p sel -> JObj.get (Workspace.depGraph ws) (name p) = Some deps ->
             List.length deps < n -> JObj.get (status s) (name p) = Some finished).
  { induction n as [|n IH]; intros p deps Hp Ed L; [lia |].
    destruct (JObjFacts.key_get (status s) (name p)) as (v & Ev);
      [apply K, in_map, Hp |].
    destruct v; [exfalso | destruct (Run _ Ev) | exact Ev].
    destruct (Blk p Hp Ev) as (d & M & Nf).
    pose proof (sel_closed _ _ _ S p d Hp M) as Hd.
    apply in_map_iff in Hd; destruct Hd as (q & Eq & Hq); subst d.
    destruct (sel_entry _ _ _ S q Hq) as (dd & Edd).
    apply Nf, (IH q dd Hq Edd).
    assert (Lt : List.length (name q :: dd) <= List.length deps); [| cbn in Lt; lia].
    apply NoDup_incl_length.
    - constructor; [| apply (BuildFacts.graph_entry_nodup _ _ G _ _ Edd)].
      intros Hin; specialize (Acyc (name q)).
      assert (T : member (Workspace.depGraph ws) (name q) (name q) = true)
        by (apply member_iff; exists dd; auto).
      congruence.
    - intros x [<- | Hx].
      + apply member_iff in M; destruct M as (s' & Es & Hs).
        rewrite Ed in Es; injection Es as <-; exact Hs.
      + assert (T : member (Workspace.depGraph ws) (name p) x = true).
        { apply (WorkspaceFacts.member_depends _ _ _ _ _ H).
          eapply t_trans;
            [apply (WorkspaceFacts.member_depends _ _ _ _ _ H), M |].
          apply (WorkspaceFacts.member_depends _ _ _ _ _ H), member_iff.
          exists dd; auto. }
        apply member_iff in T; destruct T as (s' & Es & Hs).
        rewrite Ed in Es; injection Es as <-; exact Hs. }
  assert (All : forall n, In n (JObj.keys (status s)) ->
                          JObj.get (status s) n = Some finished).
  { intros n Hn; apply JObjFacts.keys_In, K, in_map_iff in Hn.
    destruct Hn as (p & <- & Hp); destruct (sel_entry _ _ _ S p Hp) as (deps & Ed).
    apply (Fin (Datatypes.S (List.length deps)) p deps Hp Ed); lia. }
  assert (A : Workspace.allFinished (status s) = true).
  { apply forallb_forall; intros k Hk; rewrite (All k Hk); reflexivity. }
  assert (Pn : rootsOf ws only <> [] -> promise s <> pending).
  { intros Ne; apply (runOrdered_settled ws cmd sel schedule s); [| exact O | exact A].
    destruct (rootsOf ws only) as [|r rs]; [contradiction |].
    intros ->; exact (sel_roots _ _ _ S r (or_introl eq_refl)). }
  split; [exact All | split].
  - intros Ne; specialize (Pn Ne); cbn; destruct (promise s); congruence.
  - intros Ne Hf; specialize (Pn Ne); cbn.
    destruct (promise s) eqn:Ep; [contradiction | reflexivity |].
    destruct (runOrdered_rejected _ _ _ _ _ O) as (_ & Rj).
    destruct (Rj Ep) as (p & f' & Ef & Hp & _).
    rewrite F in Ef; injection Ef as <-; rewrite Hf in Hp; discriminate Hp.
Qed.

Lemma ordered_mode_completes_witness :
  Workspace.new 20 diamond = Ok diamondWs /\
  Workspace.runPackages 20 diamondWs succeeding None ["A"; "C"; "B"; "D"]
  = Ok (Ordered diamondRun) /\
  inflight diamondRun = [] /\
  Workspace.returned (Ordered diamondRun) = Returned true.
Proof.
  assert (E : Workspace.new 20 diamond = Ok diamondWs) by reflexivity.
  split; [exact E | split; [reflexivity | split; [reflexivity |]]].
  assert (Acyc : forall a, member (Workspace.depGraph diamondWs) a a = false).
  { intros a; destruct (member (Workspace.depGraph diamondWs) a a) eqn:M;
      [| reflexivity].
    apply (WorkspaceFacts.member_depends _ _ _ _ _ E) in M.
    pose proof (dependsTransitively_source _ _ _ M) as Ha; simpl in Ha.
    destruct Ha as [<- | [<- | [<- | [<- | []]]]];
      apply (WorkspaceFacts.member_depends _ _ _ _ _ E) in M; discriminate M. }
  apply (ordered_mode_completes
           20 20 diamond diamondWs succeeding (fun _ => true) None
           ["A"; "C"; "B"; "D"] diamondRun E Acyc eq_refl eq_refl eq_refl);
    [discriminate | reflexivity].
Defined.

(** X14. With no root at all the two modes differ: in parallel mode
    [runPackages] returns success at once, in ordered mode nothing is ever
    started, no continuation ever runs, and [runPackages] never returns. *)
Theorem empty_selection
        (fuel : nat) (ws : Workspace.t) (cmd : Command.t Workspace.t)
        (only : option (list Package)) (schedule : list string) :
  rootsOf ws only = [] ->
  exists st,
    Workspace.runPackages (S fuel) ws cmd only schedule = Ok st /\
    (Workspace.isParallel cmd = true ->
     st = Parallel [] (Returned true) /\ Workspace.returned st = Returned true) /\
    (Workspace.isParallel cmd = false ->
     st = Ordered (Workspace.initial []) /\ Workspace.returned st = Blocked).
Proof.
  intros E; unfold Workspace.runPackages; fold (rootsOf ws only); rewrite E.
  cbn [Workspace.dependencyClosure Workspace.closureLoop map JSet.make
       JSet.addAll JSet.empty fold_left Workspace.expand JSet.elements foldM
       bind JSet.size List.length Nat.eqb Workspace.defined mapM].
  destruct (Workspace.isParallel cmd).
  - eexists; split; [reflexivity |]; split; [auto | discriminate].
  - exists (Ordered (Workspace.initial [])); split; [| split; [discriminate | auto]].
    unfold Workspace.runOrdered, Workspace.runTasks; cbn [Workspace.canExecute
      filterM bind fold_left].
    induction schedule as [|nm rest IH]; [reflexivity |].
    cbn [foldM]; cbn [Workspace.complete Workspace.initial inflight Workspace.take bind].
    exact IH.
Qed.

Lemma empty_selection_witness :
  rootsOf diamondWs (Some []) = [] /\
  Workspace.runPackages 1 diamondWs succeeding (Some []) ["A"]
  = Ok (Ordered (Workspace.initial [])) /\
  Workspace.runPackages 1 diamondWs parallelA (Some []) []
  = Ok (Parallel [] (Returned true)).
Proof.
  split; [reflexivity | split].
  - destruct (empty_selection 0 diamondWs succeeding (Some []) ["A"] eq_refl)
      as (st & E & _ & O).
    destruct (O eq_refl) as (-> & _); exact E.
  - destruct (empty_selection 0 diamondWs parallelA (Some []) [] eq_refl)
      as (st & E & P & _).
    destruct (P eq_refl) as (-> & _); exact E.
Defined.

(** * Packages named by the user *)

(** ** Model of [Package.nameWithoutScope] and [Workspace.userStringToPackage] *)

(** [s.split(sep)] for a separator of one character. *)
Fixpoint splitOn (sep : ascii) (s : string) : list string :=
  match s with
  | EmptyString => [EmptyString]
  | String c r =>
      if Ascii.eqb c sep then EmptyString :: splitOn sep r
      else match splitOn sep r with
           | h :: t => String c h :: t
           | [] => [String c EmptyString]
           end
  end.

(** [parts.length == 2 ? parts[1] : parts[0]]; [split] never returns an
    empty array, the last case stands for [undefined]. *)
Definition nameWithoutScope (p : Package) : string :=
  match splitOn "/" (name p) with
  | [_; b] => b
  | a :: _ => a
  | [] => EmptyString
  end.

Definition userStringToPackage (ws : Workspace.t) (n : string) : option Package :=
  find (fun p => String.eqb n (nameWithoutScope p)) (Workspace.packages ws).

(** The character [c] occurs in [s]. *)
Fixpoint hasChar (c : ascii) (s : string) : bool :=
  match s with
  | EmptyString => false
  | String c' r => Ascii.eqb c' c || hasChar c r
  end.

(** ** Properties *)

Lemma splitOn_nonempty (sep : ascii) (s : string) : splitOn sep s <> [].
Proof.
  destruct s as [|c r]; cbn [splitOn]; [discriminate |].
  destruct (Ascii.eqb c sep); [discriminate |].
  destruct (splitOn sep r); discriminate.
Qed.

Lemma splitOn_whole (sep : ascii) (s : string) :
  hasChar sep s = false -> splitOn sep s = [s].
Proof.
  induction s as [|c r IH]; cbn [splitOn hasChar]; [reflexivity |].
  destruct (Ascii.eqb c sep); cbn [orb]; [discriminate |].
  intros H; rewrite (IH H); reflexivity.
Qed.

Lemma splitOn_first (sep : ascii) (a r : string) :
  hasChar sep a = false ->
  splitOn sep (a ++ String sep r)%string = a :: splitOn sep r.
Proof.
  induction a as [|c a IH]; cbn [splitOn hasChar String.append].
  - rewrite Ascii.eqb_refl; reflexivity.
  - destruct (Ascii.eqb c sep); cbn [orb]; [discriminate |].
    intros H; rewrite (IH H); reflexivity.
Qed.

Lemma splitOn_parts (sep : ascii) (s : string) :
  forall part, In part (splitOn sep s) -> hasChar sep part = false.
Proof.
  induction s as [|c r IH]; cbn [splitOn]; intros part H.
  - destruct H as [<- | []]; reflexivity.
  - destruct (Ascii.eqb c sep) eqn:E.
    + destruct H as [<- | H]; [reflexivity | apply IH, H].
    + destruct (splitOn sep r) as [|h t].
      * destruct H as [<- | []]; cbn [hasChar]; rewrite E; reflexivity.
      * destruct H as [<- | H]; [| apply IH; right; exact H].
        cbn [hasChar]; rewrite E; apply IH; left; reflexivity.
Qed.

Lemma nameWithoutScope_plain (p : Package) :
  hasChar "/" (nameWithoutScope p) = false.
Proof.
  unfold nameWithoutScope.
  pose proof (splitOn_parts "/" (name p)) as H.
  destruct (splitOn "/" (name p)) as [|a [|b [|c l]]]; [reflexivity | | |];
    apply H; cbn; auto.
Qed.

(** X15. [nameWithoutScope] returns the name itself when it has no slash,
    the part after the slash for a name of the form scope/base, and the part
    before the first slash when the name has two slashes or more. *)
Theorem nameWithoutScope_spec (p : Package) (a b rest : string) :
  hasChar "/" a = false ->
  hasChar "/" b = false ->
  (name p = a -> nameWithoutScope p = a) /\
  (name p = (a ++ "/" ++ b)%string -> nameWithoutScope p = b) /\
  (name p = (a ++ "/" ++ b ++ "/" ++ rest)%string -> nameWithoutScope p = a).
Proof.
  intros Ha Hb; unfold nameWithoutScope; split; [| split]; intros ->.
  - rewrite (splitOn_whole _ _ Ha); reflexivity.
  - change (a ++ "/" ++ b)%string with (a ++ String "/" b)%string.
    rewrite (splitOn_first _ _ _ Ha), (splitOn_whole _ _ Hb); reflexivity.
  - change (a ++ "/" ++ b ++ "/" ++ rest)%string
      with (a ++ String "/" (b ++ String "/" rest))%string.
    rewrite (splitOn_first _ _ _ Ha), (splitOn_first _ _ _ Hb).
    pose proof (splitOn_nonempty "/" rest) as N.
    destruct (splitOn "/" rest); [contradiction | reflexivity].
Qed.

Lemma nameWithoutScope_spec_witness :
  nameWithoutScope (pkg "@graco/core" []) = "core" /\
  nameWithoutScope (pkg "core" []) = "core" /\
  nameWithoutScope (pkg "a/b/c" []) = "a".
Proof.
  destruct (nameWithoutScope_spec (pkg "@graco/core" []) "@graco" "core" ""
              eq_refl eq_refl) as (_ & S & _).
  destruct (nameWithoutScope_spec (pkg "core" []) "core" "" "" eq_refl eq_refl)
    as (P & _ & _).
  destruct (nameWithoutScope_spec (pkg "a/b/c" []) "a" "b" "c" eq_refl eq_refl)
    as (_ & _ & T).
  split; [apply S; reflexivity | split; [apply P | apply T]; reflexivity].
Defined.

(** X16. A package returned by [userStringToPackage] is a package of the
    workspace whose name without scope is the string given, and it can be
    run: [dependencyClosure] on it raises no error and includes it. *)
Theorem userStringToPackage_found
        (fuel0 fuel : nat) (pkgs : list Package) (ws : Workspace.t)
        (n : string) (p : Package) :
  Workspace.new fuel0 pkgs = Ok ws ->
  List.length pkgs < fuel ->
  userStringToPackage ws n = Some p ->
  In p pkgs /\ nameWithoutScope p = n /\
  exists sel, Workspace.dependencyClosure fuel ws [p] = Ok (map Some sel) /\
              In (name p) (map name sel).
Proof.
  intros H B U; unfold userStringToPackage in U; apply find_some in U.
  destruct (WorkspaceFacts.new_spec _ _ _ H) as (EP & _ & _); rewrite EP in U.
  destruct U as (Hp & E); apply String.eqb_eq in E.
  split; [exact Hp | split; [symmetry; exact E |]].
  destruct (dependencyClosure_total fuel0 fuel pkgs ws [p] H) as (cl & D);
    [intros r [<- | []]; apply in_map, Hp | exact B |].
  destruct (dependencyClosure_spec _ _ _ _ _ _ H D) as (sel & -> & S).
  exists sel; split; [exact D |].
  apply (sel_roots _ _ _ S); left; reflexivity.
Qed.

Definition scoped : list Package :=
  [pkg "@graco/core" []; pkg "@graco/cli" ["@graco/core"]].

Definition scopedWs : Workspace.t :=
  Eval vm_compute in
    match Workspace.new 10 scoped with
    | Ok ws => ws
    | _ => {| Workspace.packages := []; Workspace.pkgMap := [];
              Workspace.depGraph := [] |}
    end.

Lemma userStringToPackage_found_witness :
  Workspace.new 10 scoped = Ok scopedWs /\
  userStringToPackage scopedWs "cli" = Some (pkg "@graco/cli" ["@graco/core"]) /\
  exists sel,
    Workspace.dependencyClosure 10 scopedWs [pkg "@graco/cli" ["@graco/core"]]
    = Ok (map Some sel) /\
    In "@graco/cli" (map name sel).
Proof.
  assert (E : Workspace.new 10 scoped = Ok scopedWs) by reflexivity.
  assert (B : List.length scoped < 10) by (simpl; lia).
  split; [exact E | split; [reflexivity |]].
  apply (userStringToPackage_found 10 10 scoped scopedWs "cli" _ E B eq_refl).
Defined.

(** X17. When the names without scope of the packages are distinct, every
    package of the workspace is found by its name without scope. *)
Theorem userStringToPackage_roundtrip
        (fuel : nat) (pkgs : list Package) (ws : Workspace.t) (p : Package) :
  Workspace.new fuel pkgs = Ok ws ->
  NoDup (map nameWithoutScope pkgs) ->
  In p pkgs ->
  userStringToPackage ws (nameWithoutScope p) = Some p.
Proof.
  intros H N Hp; unfold userStringToPackage.
  destruct (WorkspaceFacts.new_spec _ _ _ H) as (-> & _ & _).
  clear H; induction pkgs as [|q pkgs IH]; [destruct Hp |].
  cbn [find map] in *; inversion N as [|? ? Hq Hr]; subst.
  destruct (String.eqb_spec (nameWithoutScope p) (nameWithoutScope q)) as [E | Ne].
  - destruct Hp as [-> | Hp]; [reflexivity | exfalso].
    apply Hq; rewrite <- E; apply in_map, Hp.
  - destruct Hp as [-> | Hp]; [congruence | apply IH; assumption].
Qed.

Lemma userStringToPackage_roundtrip_witness :
  Workspace.new 10 scoped = Ok scopedWs /\
  NoDup (map nameWithoutScope scoped) /\
  userStringToPackage scopedWs "core" = Some (pkg "@graco/core" []).
Proof.
  assert (N : NoDup (map nameWithoutScope scoped))
    by (repeat (constructor; [simpl; intuition discriminate |]); constructor).
  split; [reflexivity | split; [exact N |]].
  apply (userStringToPackage_roundtrip 10 scoped scopedWs (pkg "@graco/core" []));
    [reflexivity | exact N | left; reflexivity].
Defined.

(** X18. No package is ever found by a string that contains a slash: a
    scoped package is not found by its full name. *)
Theorem userStringToPackage_slash (ws : Workspace.t) (n : string) :
  hasChar "/" n = true -> userStringToPackage ws n = None.
Proof.
  intros H; unfold userStringToPackage.
  destruct (find _ _) as [p|] eqn:F; [exfalso | reflexivity].
  apply find_some in F; destruct F as (_ & E); apply String.eqb_eq in E.
  rewrite E, nameWithoutScope_plain in H; discriminate H.
Qed.

Lemma userStringToPackage_slash_witness :
  hasChar "/" "@graco/core" = true /\
  userStringToPackage scopedWs "@graco/core" = None.
Proof.
  split; [reflexivity |].
  apply (userStringToPackage_slash scopedWs "@graco/core"); reflexivity.
Defined.

(** * Loading a package and locating the workspace *)

(** The constructor of [Package], [Package.findJs] and [findWorkspaceRoot]
    read the file system and use the path functions of the platform; these
    are the parameters of the model. *)

Module Loading.

Inductive Platform : Type := browser | node.

Inductive Target : Type := bin | lib | site.

Record GracoConfig : Type := {
  platform : option Platform;
  format : option string
}.

(** A manifest: its [name], its [graco] object and its dependency tables. *)
Record PackageJson : Type := {
  jsonName : option string;
  graco : option GracoConfig;
  tables : Manifest
}.

Record Loaded : Type := {
  package : Package;
  dir : string;
  target : Target;
  entryPoint : string;
  platformOf : Platform
}.

Definition exts : list string := ["tsx"; "ts"; "js"].

(** The file name that decides each target. *)
Definition baseOf (t : Target) : string :=
  match t with
  | lib => "lib"
  | bin => "main"
  | site => "index"
  end.

Section FileSystem.
Variable existsSync : string -> bool.
Variable join : list string -> string.
Variable basename : string -> string.
Variable relative : string -> string -> string.
Variable sep : ascii.

(** [exts.map(e => path.join(this.dir, "src", `${basename}.${e}`))] *)
Definition candidates (dir base : string) : list string :=
  map (fun e => join [dir; "src"; (base ++ "." ++ e)%string]) exts.

Definition findJs (dir base : string) : option string :=
  find existsSync (candidates dir base).

(** The value of [(entryPoint = this.findJs(..))] as a condition: the empty
    string is falsy, like [undefined]. *)
Definition truthy (found : option string) : option string :=
  match found with
  | Some EmptyString => None
  | _ => found
  end.

(** [this.manifest.graco || {}] *)
Definition config (mf : PackageJson) : GracoConfig :=
  match graco mf with
  | Some c => c
  | None => {| platform := None; format := None |}
  end.

(** The constructor of [Package]; [inr] is the message of the error thrown. *)
Definition construct (d : string) (mf : PackageJson) : Loaded + string :=
  let nm := match jsonName mf with
            | Some (String c r) => String c r
            | _ => basename d
            end in
  let made t e :=
    inl {| package := {| name := nm; manifest := tables mf |};
           dir := d;
           target := t;
           entryPoint := e;
           platformOf := match platform (config mf) with
                         | Some p => p
                         | None => browser
                         end |} in
  match truthy (findJs d "lib") with
  | Some e => made lib e
  | None =>
      match truthy (findJs d "main") with
      | Some e => made bin e
      | None =>
          match truthy (findJs d "index") with
          | Some e => made site e
          | None =>
              inr ("Could not determine target for package: " ++ nm)%string
          end
      end
  end.

(** [path.join(gitRoot, ...components.slice(0, i), "package.json")] *)
Definition manifestAt (gitRoot : string) (components : list string) (i : nat)
  : string :=
  join (gitRoot :: firstn i components ++ ["package.json"]).

Definition findWorkspaceRoot (gitRoot cwd : string) : option string :=
  let pathToCwd := relative gitRoot cwd in
  let components := splitOn sep pathToCwd in
  match find (fun i => existsSync (manifestAt gitRoot components i))
             (seq 0 (List.length components + 1)) with
  | Some i => Some (join (gitRoot :: firstn i components))
  | None => None
  end.

End FileSystem.
End Loading.

(** A file system given by the list of its paths, with paths joined by
    slashes. *)
Definition filesOf (files : list string) (path : string) : bool :=
  existsb (String.eqb path) files.

Definition joinSlash (parts : list string) : string := String.concat "/" parts.

Module LoadingFacts.
Import Loading.

(** The order in which the constructor tries the targets. *)
Definition rank (t : Target) : nat :=
  match t with
  | lib => 0
  | bin => 1
  | site => 2
  end.

Section FileSystem.
Variable existsSync : string -> bool.
Variable join : list string -> string.
Variable basename : string -> string.

Lemma truthy_Some (found : option string) (e : string) :
  truthy found = Some e -> found = Some e.
Proof.
  destruct found as [[|c r]|]; cbn; intros H; try discriminate; exact H.
Qed.

Lemma truthy_findJs (d base : string) :
  (forall parts, join parts <> EmptyString) ->
  truthy (findJs existsSync join d base) = findJs existsSync join d base.
Proof.
  intros J; destruct (findJs existsSync join d base) as [[|c r]|] eqn:F;
    try reflexivity.
  exfalso; unfold findJs in F; apply find_some in F; destruct F as (F & _).
  apply in_map_iff in F; destruct F as (e & E & _); exact (J _ E).
Qed.

Lemma construct_cases (d : string) (mf : PackageJson) (pk : Loaded) :
  construct existsSync join basename d mf = inl pk ->
  dir pk = d /\
  truthy (findJs existsSync join d (baseOf (target pk))) = Some (entryPoint pk) /\
  forall t, rank t < rank (target pk) ->
            truthy (findJs existsSync join d (baseOf t)) = None.
Proof.
  unfold construct.
  destruct (truthy (findJs existsSync join d "lib")) as [e1|] eqn:E1.
  { intros H; injection H as <-; cbn; repeat split; [exact E1 |].
    intros t L; lia. }
  destruct (truthy (findJs existsSync join d "main")) as [e2|] eqn:E2.
  { intros H; injection H as <-; cbn; repeat split; [exact E2 |].
    intros [| |] L; cbn in L; try lia; exact E1. }
  destruct (truthy (findJs existsSync join d "index")) as [e3|] eqn:E3;
    [| discriminate].
  intros H; injection H as <-; cbn; repeat split; [exact E3 |].
  intros [| |] L; cbn in L; try lia; assumption.
Qed.

End FileSystem.

Lemma find_seq_first (f : nat -> bool) (n : nat) :
  forall a i, find f (seq a n) = Some i ->
              a <= i < a + n /\ f i = true /\
              forall j, a <= j < i -> f j = false.
Proof.
  induction n as [|n IH]; cbn [seq find]; intros a i H; [discriminate |].
  destruct (f a) eqn:Fa.
  - injection H as <-; split; [lia | split; [exact Fa | intros j L; lia]].
  - destruct (IH _ _ H) as (B & Fi & Min).
    split; [lia | split; [exact Fi |]].
    intros j L; destruct (Nat.eq_dec j a) as [-> | Ne]; [exact Fa |].
    apply Min; lia.
Qed.

Lemma find_seq_none (f : nat -> bool) (n a : nat) :
  find f (seq a n) = None <-> forall i, a <= i < a + n -> f i = false.
Proof.
  split.
  - intros H i L; apply (find_none _ _ H), in_seq, L.
  - intros H; destruct (find f (seq a n)) as [i|] eqn:F; [| reflexivity].
    destruct (find_seq_first _ _ _ _ F) as (B & Fi & _).
    rewrite (H i B) in Fi; discriminate Fi.
Qed.

End LoadingFacts.

(** X19. The entry point of a constructed package is an existing file, one
    of [src/<base>.tsx], [.ts], [.js] of its directory where [<base>] is
    [lib], [main] or [index] according to the target; for a target [bin]
    there is no [src/lib.*] file, and for a target [site] there is neither a
    [src/lib.*] nor a [src/main.*] file. *)
Theorem construct_entry_point
        (existsSync : string -> bool) (join : list string -> string)
        (basename : string -> string)
        (d : string) (mf : Loading.PackageJson) (pk : Loading.Loaded) :
  (forall parts, join parts <> EmptyString) ->
  Loading.construct existsSync join basename d mf = inl pk ->
  existsSync (Loading.entryPoint pk) = true /\
  In (Loading.entryPoint pk)
     (Loading.candidates join d (Loading.baseOf (Loading.target pk))) /\
  forall t c, LoadingFacts.rank t < LoadingFacts.rank (Loading.target pk) ->
              In c (Loading.candidates join d (Loading.baseOf t)) ->
              existsSync c = false.
Proof.
  intros J H.
  destruct (LoadingFacts.construct_cases _ _ _ _ _ _ H) as (_ & E & P).
  apply LoadingFacts.truthy_Some in E; unfold Loading.findJs in E.
  apply find_some in E; destruct E as (Hin & Hex).
  split; [exact Hex | split; [exact Hin |]].
  intros t c L Hc; specialize (P t L).
  rewrite (LoadingFacts.truthy_findJs _ _ _ _ J) in P.
  apply (find_none _ _ P), Hc.
Qed.

Definition bareManifest : Loading.PackageJson :=
  {| Loading.jsonName := None;
     Loading.graco := None;
     Loading.tables := {| dependencies := None; devDependencies := None;
                          peerDependencies := None |} |}.

(** Like [path.join], the join of nothing or of empty parts is ".". *)
Definition joinUnder (parts : list string) : string :=
  match parts with
  | [] => "."
  | p :: r => match joinSlash parts with EmptyString => "." | s => s end
  end.

Lemma joinUnder_nonempty (parts : list string) : joinUnder parts <> EmptyString.
Proof.
  unfold joinUnder; destruct parts as [|p r]; [discriminate |].
  destruct (joinSlash (p :: r)); discriminate.
Qed.

Lemma construct_entry_point_witness :
  Loading.construct (filesOf ["/r/p/src/main.ts"; "/r/p/src/index.tsx"])
                    joinUnder (fun _ => "p") "/r/p" bareManifest
  = inl {| Loading.package := {| name := "p";
                                 manifest := Loading.tables bareManifest |};
           Loading.dir := "/r/p";
           Loading.target := Loading.bin;
           Loading.entryPoint := "/r/p/src/main.ts";
           Loading.platformOf := Loading.browser |} /\
  filesOf ["/r/p/src/main.ts"; "/r/p/src/index.tsx"] "/r/p/src/main.ts" = true /\
  filesOf ["/r/p/src/main.ts"; "/r/p/src/index.tsx"] "/r/p/src/lib.ts" = false.
Proof.
  split; [reflexivity |].
  destruct (construct_entry_point
              (filesOf ["/r/p/src/main.ts"; "/r/p/src/index.tsx"])
              joinUnder (fun _ => "p") "/r/p" bareManifest _
              joinUnder_nonempty eq_refl) as (E & _ & P).
  split; [exact E |].
  apply (P Loading.lib); [cbn; lia | right; left; reflexivity].
Defined.

(** X20. The constructor of [Package] throws exactly when none of the nine
    files [src/{lib,main,index}.{tsx,ts,js}] of the directory exists. *)
Theorem construct_throws_iff
        (existsSync : string -> bool) (join : list string -> string)
        (basename : string -> string)
        (d : string) (mf : Loading.PackageJson) :
  (forall parts, join parts <> EmptyString) ->
  ((exists msg, Loading.construct existsSync join basename d mf = inr msg) <->
   forall t c, In c (Loading.candidates join d (Loading.baseOf t)) ->
               existsSync c = false).
Proof.
  intros J; split.
  - intros (msg & H) t c Hc; unfold Loading.construct in H.
    rewrite !(LoadingFacts.truthy_findJs _ _ _ _ J) in H.
    destruct (Loading.findJs existsSync join d "lib") eqn:E1; [discriminate H |].
    destruct (Loading.findJs existsSync join d "main") eqn:E2; [discriminate H |].
    destruct (Loading.findJs existsSync join d "index") eqn:E3; [discriminate H |].
    destruct t; cbn [Loading.baseOf] in Hc;
      [apply (find_none _ _ E2) | apply (find_none _ _ E1) | apply (find_none _ _ E3)];
      exact Hc.
  - intros H.
    assert (N : forall t, Loading.truthy
                            (Loading.findJs existsSync join d (Loading.baseOf t))
                          = None).
    { intros t; rewrite (LoadingFacts.truthy_findJs _ _ _ _ J).
      unfold Loading.findJs.
      destruct (find existsSync _) as [c|] eqn:F; [| reflexivity].
      apply find_some in F; destruct F as (Hc & Ec).
      rewrite (H t c Hc) in Ec; discriminate Ec. }
    pose proof (N Loading.lib) as N1; pose proof (N Loading.bin) as N2.
    pose proof (N Loading.site) as N3; cbn [Loading.baseOf] in N1, N2, N3.
    unfold Loading.construct; rewrite N1, N2, N3.
    eexists; reflexivity.
Qed.

Lemma construct_throws_iff_witness :
  Loading.construct (filesOf ["/r/p/src/app.ts"])
                    joinUnder (fun _ => "p") "/r/p" bareManifest
  = inr "Could not determine target for package: p".
Proof.
  destruct (construct_throws_iff (filesOf ["/r/p/src/app.ts"]) joinUnder
              (fun _ => "p") "/r/p" bareManifest joinUnder_nonempty) as (_ & T).
  destruct T as (msg & E).
  - intros [| |] c Hc; cbn in Hc;
      repeat (destruct Hc as [<- | Hc]; [reflexivity |]); destruct Hc.
  - rewrite E; revert E; cbv; intros E; injection E as <-; reflexivity.
Defined.

(** X21. [findWorkspaceRoot] returns the outermost directory, from the git
    root down to the working directory, that holds a [package.json]: the
    git root itself when it has one, and nothing only when no directory on
    the way has one. *)
Theorem findWorkspaceRoot_outermost
        (existsSync : string -> bool) (join : list string -> string)
        (relative : string -> string -> string) (sep : ascii)
        (gitRoot cwd : string) :
  let components := splitOn sep (relative gitRoot cwd) in
  let found := Loading.findWorkspaceRoot existsSync join relative sep gitRoot cwd in
  (forall root, found = Some root ->
     exists i, i <= List.length components /\
               root = join (gitRoot :: firstn i components) /\
               existsSync (Loading.manifestAt join gitRoot components i) = true /\
               forall j, j < i ->
                 existsSync (Loading.manifestAt join gitRoot components j) = false) /\
  (existsSync (join [gitRoot; "package.json"]) = true ->
   found = Some (join [gitRoot])) /\
  (found = None <->
   forall i, i <= List.length components ->
             existsSync (Loading.manifestAt join gitRoot components i) = false).
Proof.
  intros components found; subst found; unfold Loading.findWorkspaceRoot.
  fold components.
  set (f := fun i => existsSync (Loading.manifestAt join gitRoot components i)).
  split; [| split].
  - intros root H; destruct (find f _) as [i|] eqn:F; [| discriminate H].
    injection H as <-.
    destruct (LoadingFacts.find_seq_first _ _ _ _ F) as (B & Fi & Min).
    exists i; split; [lia | split; [reflexivity | split; [exact Fi |]]].
    intros j L; apply Min; lia.
  - intros H; rewrite Nat.add_1_r; cbn [seq find].
    unfold f at 1, Loading.manifestAt; cbn [firstn app]; rewrite H; reflexivity.
  - destruct (find f _) as [i|] eqn:F.
    + split; [discriminate | intros H; exfalso].
      destruct (LoadingFacts.find_seq_first _ _ _ _ F) as (B & Fi & _).
      unfold f in Fi; rewrite H in Fi; [discriminate Fi | lia].
    + split; [intros _ i L | reflexivity].
      apply (proj1 (LoadingFacts.find_seq_none f _ 0) F); lia.
Qed.

Lemma findWorkspaceRoot_outermost_witness :
  Loading.findWorkspaceRoot
    (filesOf ["/r/packages/core/package.json"; "/r/package.json"])
    joinSlash (fun _ _ => "packages/core") "/" "/r" "/r/packages/core"
  = Some "/r" /\
  Loading.findWorkspaceRoot
    (filesOf ["/r/packages/core/package.json"])
    joinSlash (fun _ _ => "packages/core") "/" "/r" "/r/packages/core"
  = Some "/r/packages/core".
Proof.
  split.
  - apply (findWorkspaceRoot_outermost
             (filesOf ["/r/packages/core/package.json"; "/r/package.json"])
             joinSlash (fun _ _ => "packages/core") "/" "/r" "/r/packages/core").
    reflexivity.
  - reflexivity.
Defined.

(** * Eagerness of the ordered mode *)

(** X22. In ordered mode a package is never left waiting without a reason:
    in every state that can be observed, each queued package has in its
    entry a name that is not finished yet. *)
Theorem ordered_mode_work_conserving
        (fuel0 fuel : nat) (pkgs : list Package) (ws : Workspace.t)
        (cmd : Command.t Workspace.t) (only : option (list Package))
        (schedule : list string) (s : Sched) (n : string) :
  Workspace.new fuel0 pkgs = Ok ws ->
  Workspace.runPackages fuel ws cmd only schedule = Ok (Ordered s) ->
  JObj.get (status s) n = Some queued ->
  exists d, member (Workspace.depGraph ws) n d = true /\
            JObj.get (status s) d <> Some finished.
Proof.
  intros H R Q.
  destruct (runPackages_ordered _ _ _ _ _ _ _ _ H R) as (sel & _ & _ & O).
  destruct (runOrdered_selected _ _ _ _ _ O) as (K & _ & _).
  assert (Hn : In n (map name sel))
    by (apply K; eapply JObjFacts.get_Some_key, Q).
  apply in_map_iff in Hn; destruct Hn as (p & <- & Hp).
  apply (runOrdered_blocked _ _ _ _ _ O p Hp Q).
Qed.

Definition diamondPartial : Sched :=
  Eval vm_compute in
    match Workspace.runPackages 20 diamondWs succeeding None ["A"; "B"] with
    | Ok (Ordered s) => s
    | _ => Workspace.initial []
    end.

Lemma ordered_mode_work_conserving_witness :
  Workspace.new 20 diamond = Ok diamondWs /\
  Workspace.runPackages 20 diamondWs succeeding None ["A"; "B"]
  = Ok (Ordered diamondPartial) /\
  JObj.get (status diamondPartial) "D" = Some queued /\
  exists d, member (Workspace.depGraph diamondWs) "D" d = true /\
            JObj.get (status diamondPartial) d <> Some finished.
Proof.
  split; [reflexivity | split; [reflexivity | split; [reflexivity |]]].
  apply (ordered_mode_work_conserving
           20 20 diamond diamondWs succeeding None ["A"; "B"] diamondPartial "D");
    reflexivity.
Defined.

(** X23. In ordered mode the packages started before any task completes
    are exactly the selected packages whose entry in the graph is empty. *)
Theorem ordered_mode_first_batch
        (fuel0 fuel : nat) (pkgs : list Package) (ws : Workspace.t)
        (cmd : Command.t Workspace.t) (only : option (list Package))
        (s : Sched) (n : string) :
  Workspace.new fuel0 pkgs = Ok ws ->
  Workspace.runPackages fuel ws cmd only [] = Ok (Ordered s) ->
  (In (Start n) (log s) <->
   In n (JObj.keys (status s)) /\ JObj.get (Workspace.depGraph ws) n = Some []).
Proof.
  intros H R.
  destruct (runPackages_ordered _ _ _ _ _ _ _ _ H R) as (sel & S & _ & O).
  destruct (runOrdered_selected _ _ _ _ _ O) as (K & _ & _).
  rewrite JObjFacts.keys_In, K.
  unfold Workspace.runOrdered, Workspace.runTasks in O; cbn [foldM] in O.
  inv_bind O; inv_bind E; injection E as <-; injection O as <-.
  rename r0 into ready.
  change (fold_left (Workspace.startTask cmd) ready (Workspace.initial sel))
    with (SchedulerFacts.startAll cmd (Workspace.initial sel) ready).
  rewrite SchedulerFacts.startAll_log, app_nil_r, <- in_rev, in_map_iff.
  split.
  - intros (p & Ep & Hp); injection Ep as <-.
    destruct (SchedulerFacts.canExecute_eligible ws sel _ _ _ E0 Hp) as (Hs & _ & D).
    split; [apply in_map, Hs |].
    destruct (sel_entry _ _ _ S p Hs) as ([|d deps] & Ed); [exact Ed | exfalso].
    assert (M : member (Workspace.depGraph ws) (name p) d = true)
      by (apply member_iff; eexists; split; [exact Ed | left; reflexivity]).
    pose proof (D d M) as F.
    rewrite (initial_status sel d (sel_closed _ _ _ S p d Hs M)) in F.
    discriminate F.
  - intros (Hn & Ed); apply in_map_iff in Hn; destruct Hn as (p & <- & Hp).
    exists p; split; [reflexivity |].
    apply (filterM_complete _ _ _ _ E0 Hp); cbv beta.
    rewrite (initial_status sel (name p) (in_map name _ _ Hp)).
    unfold lookup; rewrite Ed; reflexivity.
Qed.

Lemma ordered_mode_first_batch_witness :
  Workspace.new 20 diamond = Ok diamondWs /\
  exists s,
    Workspace.runPackages 20 diamondWs succeeding None [] = Ok (Ordered s) /\
    In (Start "A") (log s) /\ ~ In (Start "B") (log s).
Proof.
  assert (E : Workspace.new 20 diamond = Ok diamondWs) by reflexivity.
  split; [exact E |].
  eexists; split; [reflexivity | split].
  - eapply (ordered_mode_first_batch 20 20 diamond diamondWs succeeding None);
      [exact E | reflexivity |].
    split; [simpl; auto | reflexivity].
  - intros B.
    eapply (ordered_mode_first_batch 20 20 diamond diamondWs succeeding None)
      in B; [| exact E | reflexivity].
    destruct B as (_ & B); discriminate B.
Defined.
